(** * Noraneko WinUpdater: the update pipeline of [pkg/updater], the
    configuration file and outcome log of [pkg/config] and the command line
    of [main.go], embedded in Rocq.

    Go strings are byte sequences: they are modelled by [string], whose
    characters are the 8-bit [ascii].  The functions of Go's [strings] package
    that the program calls are written out below following their library
    definitions; the case mappings ([ToLower], [EqualFold]) and the white-space
    class are the ASCII ones, bytes from 128 on are left as they are. *)

From Stdlib Require Import Bool Arith Lia List Ascii String DecimalString.
Import ListNotations.

Open Scope string_scope.
Open Scope bool_scope.


(** ** Go's [strings] package *)

Module strings.

(** [s[n:]] *)
Fixpoint drop (n : nat) (s : string) : string :=
  match n, s with
  | O, _ => s
  | S _, EmptyString => EmptyString
  | S k, String _ t => drop k t
  end.

(** [HasPrefix(s, prefix)]:
    [len(s) >= len(prefix) && s[:len(prefix)] == prefix]. *)
Fixpoint HasPrefix (s pre : string) {struct pre} : bool :=
  match pre, s with
  | EmptyString, _ => true
  | String a pre', String b s' => Ascii.eqb a b && HasPrefix s' pre'
  | String _ _, EmptyString => false
  end.

(** [HasSuffix(s, suffix)]:
    [len(s) >= len(suffix) && s[len(s)-len(suffix):] == suffix]. *)
Definition HasSuffix (s suf : string) : bool :=
  (String.length suf <=? String.length s)%nat
  && String.eqb (drop (String.length s - String.length suf) s) suf.

(** [TrimPrefix(s, prefix)]: [s] without the leading [prefix], [s] itself
    when it does not start with it. *)
Definition TrimPrefix (s pre : string) : string :=
  if HasPrefix s pre then drop (String.length pre) s else s.

(** [Contains(s, substr)]: [Index(s, substr) >= 0]. *)
Fixpoint Contains (s sub : string) : bool :=
  HasPrefix s sub
  || match s with
     | EmptyString => false
     | String _ t => Contains t sub
     end.

Definition is_upper (c : ascii) : bool :=
  ((65 <=? nat_of_ascii c) && (nat_of_ascii c <=? 90))%nat.

Definition lower_byte (c : ascii) : ascii :=
  if is_upper c then ascii_of_nat (nat_of_ascii c + 32) else c.

(** [ToLower(s)], on ASCII text: the bytes from 128 on are left as they
    are. *)
Fixpoint ToLower (s : string) : string :=
  match s with
  | EmptyString => EmptyString
  | String c t => String (lower_byte c) (ToLower t)
  end.

(** [EqualFold(s, t)], on ASCII text: equality under simple case
    folding. *)
Fixpoint EqualFold (s t : string) : bool :=
  match s, t with
  | EmptyString, EmptyString => true
  | String a s', String b t' =>
      Ascii.eqb (lower_byte a) (lower_byte b) && EqualFold s' t'
  | _, _ => false
  end.

(** [unicode.IsSpace] on a byte of ASCII text: tab, line feed, vertical
    tab, form feed, carriage return and space. *)
Definition is_space (c : ascii) : bool :=
  let n := nat_of_ascii c in
  (((9 <=? n) && (n <=? 13)) || (n =? 32))%nat.

(** [Split(s, "\n")] for the one-byte separator [sep]: the pieces between
    the separators, in order; one piece more than there are separators. *)
Fixpoint split_byte (sep : ascii) (s : string) : list string :=
  match s with
  | EmptyString => [EmptyString]
  | String c t =>
      if Ascii.eqb c sep then EmptyString :: split_byte sep t
      else match split_byte sep t with
           | [] => [String c EmptyString]
           | p :: ps => String c p :: ps
           end
  end.

(** [Join(elems, sep)] *)
Fixpoint Join (elems : list string) (sep : string) : string :=
  match elems with
  | [] => EmptyString
  | [e] => e
  | e :: rest => e ++ sep ++ Join rest sep
  end.

(** [Fields(s)]: the maximal runs of non-space bytes of [s].  [cur] is the
    field being read, in reverse. *)
Fixpoint rev_acc (s acc : string) : string :=
  match s with
  | EmptyString => acc
  | String c t => rev_acc t (String c acc)
  end.

Definition rev (s : string) : string := rev_acc s EmptyString.

Fixpoint fields_from (cur : string) (s : string) : list string :=
  match s with
  | EmptyString =>
      match cur with EmptyString => [] | _ => [rev cur] end
  | String c t =>
      if is_space c
      then match cur with
           | EmptyString => fields_from EmptyString t
           | _ => rev cur :: fields_from EmptyString t
           end
      else fields_from (String c cur) t
  end.

Definition Fields (s : string) : list string := fields_from EmptyString s.

(** [TrimSpace(s)] *)
Fixpoint trim_left (s : string) : string :=
  match s with
  | String c t => if is_space c then trim_left t else s
  | EmptyString => EmptyString
  end.

Definition TrimSpace (s : string) : string :=
  rev (trim_left (rev (trim_left s))).

End strings.

Definition newline : ascii := ascii_of_nat 10.
Definition LF : string := String newline EmptyString.

(** [ascii_only s]: every byte of [s] is below 128.  On such text
    [ToLower], [EqualFold], [TrimSpace] and [Fields] above are Go's; on
    other text Go also folds and trims the runes beyond ASCII (it maps
    U+0130 to [i], and takes U+00A0 for white space), which is not
    modelled.  The properties that depend on how a name, a manifest or a
    file is folded, split or trimmed are stated for ASCII text. *)
Fixpoint ascii_only (s : string) : bool :=
  match s with
  | EmptyString => true
  | String c t => (nat_of_ascii c <? 128)%nat && ascii_only t
  end.

(** ** Version comparator ([updater.go], [isNewerVersion]) *)

Definition isNewerVersion (current latest : string) : bool :=
  let current := strings.TrimPrefix current "v" in
  let latest := strings.TrimPrefix latest "v" in
  if String.eqb current "" || String.eqb current "0.0.0"
  then true
  else negb (String.eqb latest current).


(** ** Go's [path/filepath] package, with [/] as the separator

    [Clean] works on the path's elements: empty elements and [.] are dropped,
    an inner [..] removes the element before it, a [..] at the root of a
    rooted path is dropped, and leading [..] elements of a relative path are
    kept. *)

Module filepath.

Definition Separator : ascii := "/"%char.
Definition sep : string := String Separator EmptyString.

(** [stack] holds the elements kept so far, last one first. *)
Fixpoint clean_elems (rooted : bool) (stack elems : list string) : list string :=
  match elems with
  | [] => List.rev stack
  | e :: rest =>
      if String.eqb e "" || String.eqb e "." then clean_elems rooted stack rest
      else if String.eqb e ".." then
        match stack with
        | top :: below =>
            if String.eqb top ".." then clean_elems rooted (e :: stack) rest
            else clean_elems rooted below rest
        | [] =>
            if rooted then clean_elems rooted [] rest
            else clean_elems rooted [e] rest
        end
      else clean_elems rooted (e :: stack) rest
  end.

Definition Clean (path : string) : string :=
  let rooted := strings.HasPrefix path sep in
  let out := strings.Join (clean_elems rooted [] (strings.split_byte Separator path)) sep in
  if rooted then sep ++ out
  else if String.eqb out "" then "." else out.

(** [Join(elem...)]: leading empty elements are skipped, the rest is joined
    with the separator and cleaned; the empty string when all are empty. *)
Fixpoint Join (elem : list string) : string :=
  match elem with
  | [] => ""
  | e :: rest =>
      if String.eqb e "" then Join rest
      else Clean (strings.Join elem sep)
  end.

(** The path up to and including its last separator. *)
Fixpoint drop_last_elem_rev (r : string) : string :=
  match r with
  | EmptyString => EmptyString
  | String c t => if Ascii.eqb c Separator then r else drop_last_elem_rev t
  end.

(** [Dir(path)] *)
Definition Dir (path : string) : string :=
  Clean (strings.rev (drop_last_elem_rev (strings.rev path))).

End filepath.

(** ** Data model ([updater.go], [config.go]) *)

Record Asset : Type := mkAsset {
  Name : string;
  BrowserDownloadURL : string;
  Size : nat
}.

Record Release : Type := mkRelease {
  TagName : string;
  ReleaseName : string;
  Assets : list Asset
}.

Record Options : Type := mkOptions {
  Scheduled : bool;
  Portable : bool;
  CheckOnly : bool;
  CreateTask : bool;
  RemoveTask : bool;
  Version : string
}.

Record Config : Type := mkConfig {
  Path : string;
  WorkDir : string;
  UpdateSelf : bool;
  IgnoreCrlErrors : bool;
  Branch : string;
  ExeDir : string;
  ConfigFile : string
}.

(** The [Updater] once [Run] has stored the release it looked up; the
    functions below read [u.release] only after that assignment. *)
Record Updater : Type := mkUpdater {
  cfg : Config;
  opts : Options;
  release : Release
}.

Definition BrowserName : string := "Noraneko".
Definition BrowserExe : string := "noraneko.exe".
Definition ReleaseAPIURL : string :=
  "https://api.github.com/repos/f3liz-dev/noraneko-runtime/releases".
Definition ConnectCheckURL : string := "https://api.github.com".

(** Go [error] values: a message built by [fmt.Errorf], a cause wrapped with
    context by [fmt.Errorf("ctx: %w", err)], or an error handed back by the
    operating system, the network or a child process. *)
Inductive error : Type :=
| Errorf (msg : string)
| Wrap (ctx : string) (cause : error)
| SysError (code : nat).

(** One member of an opened zip archive ([zip.File]). *)
Record ZipFile : Type := mkZipFile {
  zName : string;
  zIsDir : bool;
  zMode : nat;
  zData : string
}.

(** ** The world outside the program

    Every interaction with the operating system, the network or a child
    process is a [call].  The file system maps a path to what is there. *)
Inductive node : Type :=
| File (data : string)
| Directory.

Definition FS : Type := string -> option node.

Inductive call : Type :=
| CStat (path : string)
| CReadFile (path : string)
| CWriteFile (path data : string)
| CCreate (path : string)
| COpenFile (path : string) (mode : nat)
| COpen (path : string)
| CRead (path : string)
| CCopy (path : string)
| CRemove (path : string)
| CRemoveAll (path : string)
| CMkdirAll (path : string)
| CReadDir (path : string)
| CCopyDir (src dst : string)
| CZipOpen (path : string)
| CZipEntryOpen (name : string)
| CHttpGet (url : string)
| CExec (cmd : string) (args : list string).

(** What the run leaves behind, newest first: the calls made and whether each
    succeeded, the lines printed, and the entry into and return from the
    pipeline's stages. *)
Inductive event : Type :=
| EvCall (c : call) (ok : bool)
| EvPrint (line : string)
| EvEnter (fn : string)
| EvLeave (fn : string) (ok : bool).

Record World : Type := mkWorld {
  fs : FS;
  clock : nat;
  trace : list event
}.

(** The environment decides what the program cannot: [fault n c] is the
    error, if any, with which the [n]-th call of the run fails. *)
Record Env : Type := mkEnv {
  goarch : string;
  getenv : string -> string;
  now : nat -> string;
  fault : nat -> call -> option error;
  http_get : nat -> string -> error + (nat * string);
  zip_decode : string -> option (list ZipFile);
  json_release : string -> option Release;
  sha256_hex : string -> string;
  read_dir : nat -> string -> list (string * bool)
}.

(** ** A state monad over the world *)

Definition M (A : Type) : Type := World -> A * World.

Definition ret {A : Type} (a : A) : M A := fun w => (a, w).

Definition bind {A B : Type} (m : M A) (k : A -> M B) : M B :=
  fun w => let (a, w1) := m w in k a w1.

Declare Scope go_scope.
Delimit Scope go_scope with go.
Notation "x <- m ;; k" := (bind m (fun x => k))
  (at level 61, m at next level, right associativity) : go_scope.
Notation "m ;;; k" := (bind m (fun _ => k))
  (at level 61, right associativity) : go_scope.
Open Scope go_scope.

(** [defer cleanup] in front of [body]: [cleanup] runs when [body] has
    produced the function's result, on every way out of it. *)
Definition defer {A B : Type} (cleanup : M B) (body : M A) : M A :=
  r <- body ;; cleanup ;;; ret r.

Definition emit (e : event) : M unit :=
  fun w => (tt, mkWorld (fs w) (clock w) (e :: trace w)).

(** [fmt.Println] and [fmt.Printf] *)
Definition Println (line : string) : M unit := emit (EvPrint line).

(** [err == nil] *)
Definition succeeded (r : option error) : bool :=
  match r with None => true | Some _ => false end.

(** A stage of the pipeline, with its entry and its outcome on the trace. *)
Definition stage (fn : string) (body : M (option error)) : M (option error) :=
  emit (EvEnter fn) ;;;
  r <- body ;;
  emit (EvLeave fn (succeeded r)) ;;;
  ret r.

Definition is_ok {A : Type} (r : error + A) : bool :=
  match r with inl _ => false | inr _ => true end.

Definition err_of {A : Type} (r : error + A) : option error :=
  match r with inl e => Some e | inr _ => None end.

Definition ErrNotExist : error := SysError 2.
Definition ErrNotDir : error := SysError 20.

Definition fs_set (p : string) (n : option node) (f : FS) : FS :=
  fun q => if String.eqb q p then n else f q.

(** [p] itself and everything below it. *)
Definition under (p q : string) : bool :=
  String.eqb q p || strings.HasPrefix q (p ++ filepath.sep).

Definition fs_remove_tree (p : string) (f : FS) : FS :=
  fun q => if under p q then None else f q.

(** [p] and the directories above it, [fuel] levels up at most. *)
Fixpoint fs_mkdir_all (fuel : nat) (p : string) (f : FS) : FS :=
  let f' := fs_set p (Some Directory) f in
  match fuel with
  | O => f'
  | S k =>
      let d := filepath.Dir p in
      if String.eqb d p then f' else fs_mkdir_all k d f'
  end.

Section Pipeline.

Variable env : Env.

(** One call: the environment may refuse it; otherwise [sem] gives its
    result and its effect on the file system. *)
Definition syscall {A : Type} (c : call) (sem : nat -> FS -> (error + A) * FS)
  : M (error + A) :=
  fun w =>
    match fault env (clock w) c with
    | Some e =>
        (inl e, mkWorld (fs w) (S (clock w)) (EvCall c false :: trace w))
    | None =>
        let (r, f') := sem (clock w) (fs w) in
        (r, mkWorld f' (S (clock w)) (EvCall c (is_ok r) :: trace w))
    end.

Definition os_Stat (p : string) : M (error + unit) :=
  syscall (CStat p) (fun _ f =>
    match f p with
    | Some _ => (inr tt, f)
    | None => (inl ErrNotExist, f)
    end).

Definition os_ReadFile (p : string) : M (error + string) :=
  syscall (CReadFile p) (fun _ f =>
    match f p with
    | Some (File data) => (inr data, f)
    | _ => (inl ErrNotExist, f)
    end).

Definition os_WriteFile (p data : string) : M (error + unit) :=
  syscall (CWriteFile p data) (fun _ f =>
    (inr tt, fs_set p (Some (File data)) f)).

(** [os.Create]: the file exists and is empty afterwards. *)
Definition os_Create (p : string) : M (error + unit) :=
  syscall (CCreate p) (fun _ f => (inr tt, fs_set p (Some (File "")) f)).

(** [os.OpenFile(p, O_WRONLY|O_CREATE|O_TRUNC, mode)] *)
Definition os_OpenFile (p : string) (mode : nat) : M (error + unit) :=
  syscall (COpenFile p mode) (fun _ f =>
    (inr tt, fs_set p (Some (File "")) f)).

(** [os.Open] for reading: the bytes of the file. *)
Definition os_Open (p : string) : M (error + string) :=
  syscall (COpen p) (fun _ f =>
    match f p with
    | Some (File data) => (inr data, f)
    | _ => (inl ErrNotExist, f)
    end).

(** [io.Copy] of [data] into the open file [p]. *)
Definition io_Copy (p data : string) : M (error + unit) :=
  syscall (CCopy p) (fun _ f => (inr tt, fs_set p (Some (File data)) f)).

Definition os_Remove (p : string) : M (error + unit) :=
  syscall (CRemove p) (fun _ f =>
    match f p with
    | Some _ => (inr tt, fs_set p None f)
    | None => (inl ErrNotExist, f)
    end).

Definition os_RemoveAll (p : string) : M (error + unit) :=
  syscall (CRemoveAll p) (fun _ f => (inr tt, fs_remove_tree p f)).

Definition os_MkdirAll (p : string) : M (error + unit) :=
  syscall (CMkdirAll p) (fun _ f =>
    match f p with
    | Some (File _) => (inl ErrNotDir, f)
    | _ => (inr tt, fs_mkdir_all (String.length p) p f)
    end).

(** [os.ReadDir]: the names in the directory and whether each is a
    directory, as the environment lists them. *)
Definition os_ReadDir (p : string) : M (error + list (string * bool)) :=
  syscall (CReadDir p) (fun n f => (inr (read_dir env n p), f)).

(** [zip.OpenReader]: the members of the archive stored at [p]. *)
Definition zip_OpenReader (p : string) : M (error + list ZipFile) :=
  syscall (CZipOpen p) (fun _ f =>
    match f p with
    | Some (File data) =>
        match zip_decode env data with
        | Some files => (inr files, f)
        | None => (inl (Errorf "zip: not a valid zip file"), f)
        end
    | _ => (inl ErrNotExist, f)
    end).

(** [f.Open()] on an archive member: its uncompressed bytes. *)
Definition zip_Open (z : ZipFile) : M (error + string) :=
  syscall (CZipEntryOpen (zName z)) (fun _ f => (inr (zData z), f)).

(** An HTTP GET with the updater's client: a transport error, or the
    status and the body of the response. *)
Definition http_Get (url : string) : M (error + (nat * string)) :=
  fun w =>
    let r := http_get env (clock w) url in
    (r, mkWorld (fs w) (S (clock w)) (EvCall (CHttpGet url) (is_ok r) :: trace w)).

(** [io.Copy] out of the open file [p], here into the hasher. *)
Definition io_Read (p : string) : M (error + unit) :=
  syscall (CRead p) (fun _ f => (inr tt, f)).

(** [exec.Command(cmd, args...).Run()] *)
Definition exec_Run (cmd : string) (args : list string) : M (error + unit) :=
  syscall (CExec cmd args) (fun _ f => (inr tt, f)).

(** [time.Now().Format("2006-01-02 15:04:05")] *)
Definition time_Now : M string := fun w => (now env (clock w), w).

End Pipeline.

(** ** The program *)

(** The test of [findAsset] on a lowercased asset name and one fragment. *)
Definition fragment_matches (name s : string) : bool :=
  strings.Contains name (strings.ToLower s)
  || strings.HasSuffix name (strings.ToLower s).

(** [%d] *)
Definition fmt_d (n : nat) : string := NilEmpty.string_of_uint (Nat.to_uint n).

(** [err.Error()], as [%v] prints it. *)
Fixpoint Error (e : error) : string :=
  match e with
  | Errorf msg => msg
  | Wrap ctx cause => ctx ++ ": " ++ Error cause
  | SysError code => "errno " ++ fmt_d code
  end.

Section Updater.

Variable env : Env.

(** *** [config.go] *)

(** [IsPortable] *)
Definition IsPortable (c : Config) : M bool :=
  let portablePath := filepath.Join [ExeDir c; BrowserName ++ "-Portable.exe"] in
  r <- os_Stat env portablePath ;;
  ret (is_ok r).

(** The loop over [possiblePaths] of [GetBrowserPath]. *)
Fixpoint first_existing (paths : list string) : M string :=
  match paths with
  | [] => ret ""
  | p :: rest =>
      r <- os_Stat env p ;;
      if is_ok r then ret p else first_existing rest
  end.

(** [GetBrowserPath] *)
Definition GetBrowserPath (c : Config) : M string :=
  if negb (String.eqb (Path c) "") then ret (Path c)
  else
    let programFiles := getenv env "ProgramFiles" in
    let programFiles :=
      if String.eqb programFiles "" then "C:\Program Files" else programFiles in
    let possiblePaths :=
      [ filepath.Join [ExeDir c; BrowserName; BrowserExe];
        filepath.Join [programFiles; BrowserName; BrowserExe] ] in
    let portablePath := filepath.Join [ExeDir c; BrowserName ++ "-Portable.exe"] in
    r <- os_Stat env portablePath ;;
    let possiblePaths :=
      if is_ok r
      then filepath.Join [ExeDir c; BrowserName; BrowserExe] :: possiblePaths
      else possiblePaths in
    first_existing possiblePaths.

(** The first loop of [LogEntry]: the line of the [[Log]] section that
    starts with [key=] is replaced; [None] when there is none ([found]
    stays false). *)
Fixpoint update_key (key value : string) (inLogSection : bool)
    (lines : list string) : option (list string) :=
  match lines with
  | [] => None
  | line :: rest =>
      let trimmedLine := strings.TrimSpace line in
      if strings.HasPrefix trimmedLine "[Log]" then
        option_map (cons line) (update_key key value true rest)
      else if strings.HasPrefix trimmedLine "["
              && strings.HasSuffix trimmedLine "]" then
        option_map (cons line) (update_key key value false rest)
      else if inLogSection
              && strings.HasPrefix (strings.ToLower trimmedLine)
                   (strings.ToLower key ++ "=") then
        Some ((key ++ "=" ++ value) :: rest)
      else option_map (cons line) (update_key key value inLogSection rest)
  end.

(** The second loop of [LogEntry]: [newLines] and the final [addedToLog]. *)
Fixpoint append_key (key value : string) (inLogSection addedToLog : bool)
    (lines : list string) : list string * bool :=
  match lines with
  | [] => ([], addedToLog)
  | line :: rest =>
      let trimmedLine := strings.TrimSpace line in
      let header :=
        strings.HasPrefix trimmedLine "[" && strings.HasSuffix trimmedLine "]" in
      if strings.HasPrefix trimmedLine "[Log]" then
        let (newLines, added) := append_key key value true addedToLog rest in
        (line :: newLines, added)
      else
        let here :=
          inLogSection && negb addedToLog
          && (String.eqb trimmedLine "" || header) in
        let inLogSection' :=
          if header && negb (String.eqb trimmedLine "[Log]")
          then false else inLogSection in
        let (newLines, added) :=
          append_key key value inLogSection' (addedToLog || here) rest in
        (List.app (if here then [key ++ "=" ++ value] else []) (line :: newLines), added)
  end.

(** The lines [LogEntry] writes back, from the file's present content. *)
Definition log_lines (key value existingContent : string) : list string :=
  let existingContent :=
    if negb (strings.Contains existingContent "[Log]")
    then existingContent ++ LF ++ "[Log]" ++ LF
    else existingContent in
  let lines := strings.split_byte newline existingContent in
  match update_key key value false lines with
  | Some lines' => lines'
  | None =>
      let (newLines, addedToLog) := append_key key value false false lines in
      if negb addedToLog then List.app newLines [key ++ "=" ++ value] else newLines
  end.

(** [LogEntry] *)
Definition LogEntry (c : Config) (key value : string) : M (option error) :=
  r <- os_ReadFile env (ConfigFile c) ;;
  let existingContent :=
    match r with inr data => data | inl _ => "" end in
  w <- os_WriteFile env (ConfigFile c)
         (strings.Join (log_lines key value existingContent) LF) ;;
  ret (err_of w).

(** *** [updater.go] *)

(** [checkConnection] *)
Definition checkConnection : M (option error) :=
  r <- http_Get env ConnectCheckURL ;;
  match r with
  | inl e => ret (Some e)
  | inr (status, _) =>
      if (400 <=? status)%nat
      then ret (Some (Errorf ("API returned status " ++ fmt_d status)))
      else ret None
  end.

(** The regular expression [(?m)^Version=(.+)$]: the first line that starts
    with [Version=] and goes on for one byte at least; the submatch is the
    rest of that line. *)
Fixpoint version_line (lines : list string) : option string :=
  match lines with
  | [] => None
  | line :: rest =>
      if strings.HasPrefix line "Version="
         && (8 <? String.length line)%nat
      then Some (strings.drop 8 line)
      else version_line rest
  end.

(** [getCurrentVersion] *)
Definition getCurrentVersion (c : Config) : M (error + string) :=
  browserPath <- GetBrowserPath c ;;
  if String.eqb browserPath "" then ret (inl (Errorf "browser not found"))
  else
    let browserDir := filepath.Dir browserPath in
    let appIniPath := filepath.Join [browserDir; "application.ini"] in
    ini <- os_ReadFile env appIniPath ;;
    match match ini with
          | inr data => version_line (strings.split_byte newline data)
          | inl _ => None
          end with
    | Some v => ret (inr (strings.TrimSpace v))
    | None =>
        let versionPath := filepath.Join [browserDir; "version"] in
        ver <- os_ReadFile env versionPath ;;
        match ver with
        | inr data => ret (inr (strings.TrimSpace data))
        | inl _ => ret (inl (Errorf "could not determine version"))
        end
    end.

(** [getLatestRelease] *)
Definition getLatestRelease : M (error + Release) :=
  let url := ReleaseAPIURL ++ "/latest" in
  r <- http_Get env url ;;
  match r with
  | inl e => ret (inl e)
  | inr (status, body) =>
      if negb (status =? 200)%nat
      then ret (inl (Errorf ("API returned status " ++ fmt_d status ++ ": " ++ body)))
      else match json_release env body with
           | Some rel => ret (inr rel)
           | None =>
               ret (inl (Wrap "failed to decode release info"
                           (Errorf "invalid character")))
           end
  end.

(** *** Asset resolver *)

(** The acceptable name fragments of [findAsset], in the order of the
    slice [suffixes]. *)
Definition suffixes (isPortable : bool) : list string :=
  let arch := if String.eqb (goarch env) "386" then "i686" else "x86_64" in
  let suffix :=
    if isPortable
    then "windows-" ++ arch ++ "-portable.zip"
    else "windows-" ++ arch ++ "-setup.exe" in
  [suffix; "win64.zip"; "win64-setup.exe"; "windows.zip"; "windows-setup.exe"].

(** The inner loop of [findAsset] over the fragments, for one lowercased
    asset name: does any fragment make the function return this asset? *)
Fixpoint matches_any (name : string) (ss : list string) : bool :=
  match ss with
  | [] => false
  | s :: rest =>
      if fragment_matches name s then true else matches_any name rest
  end.

(** The outer loop of [findAsset] over the assets. *)
Fixpoint first_matching (assets : list Asset) (ss : list string) : option Asset :=
  match assets with
  | [] => None
  | asset :: rest =>
      let name := strings.ToLower (Name asset) in
      if matches_any name ss then Some asset else first_matching rest ss
  end.

(** The second loop of [findAsset]: any Windows executable or zip. *)
Fixpoint first_windows_file (assets : list Asset) : option Asset :=
  match assets with
  | [] => None
  | asset :: rest =>
      let name := strings.ToLower (Name asset) in
      if (strings.Contains name "windows" || strings.Contains name "win")
         && (strings.HasSuffix name ".exe" || strings.HasSuffix name ".zip")
      then Some asset
      else first_windows_file rest
  end.

(** [findAsset] once [isPortable] is known. *)
Definition find_asset (isPortable : bool) (assets : list Asset) : error + Asset :=
  match first_matching assets (suffixes isPortable) with
  | Some asset => inr asset
  | None =>
      match first_windows_file assets with
      | Some asset => inr asset
      | None => inl (Errorf "no suitable download found for this platform")
      end
  end.

(** [u.cfg.IsPortable() || u.opts.Portable] *)
Definition portable_mode (u : Updater) : M bool :=
  p <- IsPortable (cfg u) ;;
  ret (p || Portable (opts u)).

(** [findAsset] *)
Definition findAsset (u : Updater) : M (error + Asset) :=
  isPortable <- portable_mode u ;;
  ret (find_asset isPortable (Assets (release u))).

(** The loop of [findChecksumAsset]. *)
Fixpoint first_checksum_asset (assets : list Asset) : option Asset :=
  match assets with
  | [] => None
  | asset :: rest =>
      let name := strings.ToLower (Name asset) in
      if strings.Contains name "sha256" || strings.HasSuffix name ".sha256"
      then Some asset
      else first_checksum_asset rest
  end.

(** [findChecksumAsset] *)
Definition findChecksumAsset (u : Updater) : option Asset :=
  first_checksum_asset (Assets (release u)).

(** *** Secure fetcher *)

(** [downloadFile] *)
Definition downloadFile (url path : string) : M (option error) :=
  resp <- http_Get env url ;;
  match resp with
  | inl e => ret (Some e)
  | inr (status, body) =>
      if negb (status =? 200)%nat
      then ret (Some (Errorf ("download returned status " ++ fmt_d status)))
      else
        out <- os_Create env path ;;
        match out with
        | inl e => ret (Some e)
        | inr _ => c <- io_Copy env path body ;; ret (err_of c)
        end
  end.

(** One record of the manifest: does its file name field stand for
    [fileName]? *)
Definition record_matches (field fileName : string) : bool :=
  let name := strings.TrimPrefix field "*" in
  strings.EqualFold name fileName || strings.HasSuffix name fileName.

(** The loop of [verifyChecksum] over the manifest's lines: the value of
    [expectedHash] when the loop is left. *)
Fixpoint find_expected_hash (lines : list string) (fileName : string) : string :=
  match lines with
  | [] => ""
  | line :: rest =>
      match strings.Fields line with
      | hash :: field :: _ =>
          if record_matches field fileName
          then strings.ToLower hash
          else find_expected_hash rest fileName
      | _ => find_expected_hash rest fileName
      end
  end.

(** [verifyChecksum] *)
Definition verifyChecksum (u : Updater) (filePath : string)
    (checksumAsset : Asset) (fileName : string) : M (option error) :=
  stage "verifyChecksum" (
    let checksumPath := filepath.Join [WorkDir (cfg u); Name checksumAsset] in
    d <- downloadFile (BrowserDownloadURL checksumAsset) checksumPath ;;
    match d with
    | Some e => ret (Some (Wrap "failed to download checksum file" e))
    | None =>
        defer (os_Remove env checksumPath) (
          r <- os_ReadFile env checksumPath ;;
          match r with
          | inl e => ret (Some (Wrap "failed to read checksum file" e))
          | inr data =>
              let expectedHash :=
                find_expected_hash (strings.split_byte newline data) fileName in
              if String.eqb expectedHash "" then
                ret (Some (Errorf ("checksum for " ++ fileName
                                   ++ " not found in checksum file")))
              else
                file <- os_Open env filePath ;;
                match file with
                | inl e => ret (Some e)
                | inr bytes =>
                    c <- io_Read env filePath ;;
                    match c with
                    | inl e => ret (Some e)
                    | inr _ =>
                        let actualHash := sha256_hex env bytes in
                        if negb (String.eqb actualHash expectedHash) then
                          ret (Some (Errorf ("checksum mismatch: expected "
                                             ++ expectedHash ++ ", got "
                                             ++ actualHash)))
                        else ret None
                    end
                end
          end)
    end).

(** *** Install transition *)

(** The ZipSlip test of [unzip]. *)
Definition inside (dest fpath : string) : bool :=
  strings.HasPrefix fpath (filepath.Clean dest ++ filepath.sep).

(** The loop of [unzip] over [r.File]. *)
Fixpoint unzip_files (dest : string) (files : list ZipFile) : M (option error) :=
  match files with
  | [] => ret None
  | f :: rest =>
      let fpath := filepath.Join [dest; zName f] in
      if negb (inside dest fpath) then
        ret (Some (Errorf ("illegal file path: " ++ fpath)))
      else if zIsDir f then
        os_MkdirAll env fpath ;;; unzip_files dest rest
      else
        m <- os_MkdirAll env (filepath.Dir fpath) ;;
        match m with
        | inl e => ret (Some e)
        | inr _ =>
            outFile <- os_OpenFile env fpath (zMode f) ;;
            match outFile with
            | inl e => ret (Some e)
            | inr _ =>
                rc <- zip_Open env f ;;
                match rc with
                | inl e => ret (Some e)
                | inr data =>
                    c <- io_Copy env fpath data ;;
                    match c with
                    | inl e => ret (Some e)
                    | inr _ => unzip_files dest rest
                    end
                end
            end
        end
  end.

(** [unzip] *)
Definition unzip (src dest : string) : M (option error) :=
  r <- zip_OpenReader env src ;;
  match r with
  | inl e => ret (Some e)
  | inr files => unzip_files dest files
  end.

(** [copyDir]: the walk over the payload that copies it file by file into
    the install directory, taken as one call; the content of the install
    directory is not tracked. *)
Definition copyDir (src dst : string) : M (option error) :=
  r <- syscall env (CCopyDir src dst) (fun _ f => (inr tt, f)) ;;
  ret (err_of r).

(** The loop of [extractPortable] over the entries of the staging
    directory: the first directory is the payload root. *)
Fixpoint source_dir (extractDir : string) (entries : list (string * bool)) : string :=
  match entries with
  | [] => extractDir
  | (name, isDir) :: rest =>
      if isDir then filepath.Join [extractDir; name]
      else source_dir extractDir rest
  end.

Definition extract_dir (c : Config) : string :=
  filepath.Join [WorkDir c; BrowserName ++ "-Extracted"].

(** [extractPortable] *)
Definition extractPortable (u : Updater) (zipPath : string) : M (option error) :=
  stage "extractPortable" (
    browserPath <- GetBrowserPath (cfg u) ;;
    let browserDir := filepath.Dir browserPath in
    let browserDir :=
      if String.eqb browserDir ""
      then filepath.Join [ExeDir (cfg u); BrowserName] else browserDir in
    let extractDir := extract_dir (cfg u) in
    r <- os_RemoveAll env extractDir ;;
    match r with
    | inl e => ret (Some (Wrap "failed to clean extract directory" e))
    | inr _ =>
        m <- os_MkdirAll env extractDir ;;
        match m with
        | inl e => ret (Some (Wrap "failed to create extract directory" e))
        | inr _ =>
            defer (os_RemoveAll env extractDir) (
              z <- unzip zipPath extractDir ;;
              match z with
              | Some e => ret (Some (Wrap "extraction failed" e))
              | None =>
                  d <- os_ReadDir env extractDir ;;
                  match d with
                  | inl e => ret (Some e)
                  | inr entries =>
                      let sourceDir := source_dir extractDir entries in
                      c <- copyDir sourceDir browserDir ;;
                      match c with
                      | Some e => ret (Some (Wrap "failed to copy files" e))
                      | None => ret None
                      end
                  end
              end)
        end
    end).

(** [runInstaller] *)
Definition runInstaller (u : Updater) (setupPath : string) : M (option error) :=
  stage "runInstaller" (
    browserPath <- GetBrowserPath (cfg u) ;;
    let browserDir := filepath.Dir browserPath in
    let browserDir :=
      if String.eqb browserDir ""
      then filepath.Join [getenv env "ProgramFiles"; BrowserName]
      else browserDir in
    r <- exec_Run env setupPath ["/S"; "/D=" ++ browserDir] ;;
    match r with
    | inl _ =>
        Println "Silent installation failed, running interactive installer..." ;;;
        r2 <- exec_Run env setupPath ["/D=" ++ browserDir] ;;
        ret (err_of r2)
    | inr _ => ret None
    end).

(** The end of [downloadAndInstall]: install or extract. *)
Definition install (u : Updater) (asset : Asset) (downloadPath : string)
  : M (option error) :=
  isPortable <- portable_mode u ;;
  if isPortable || strings.HasSuffix (Name asset) ".zip" then
    Println "Extracting..." ;;; extractPortable u downloadPath
  else
    Println "Installing..." ;;; runInstaller u downloadPath.

(** [downloadAndInstall] *)
Definition downloadAndInstall (u : Updater) : M (option error) :=
  a <- findAsset u ;;
  match a with
  | inl e => ret (Some (Wrap "failed to find download" e))
  | inr asset =>
      Println ("Downloading " ++ Name asset ++ "...") ;;;
      let downloadPath := filepath.Join [WorkDir (cfg u); Name asset] in
      d <- downloadFile (BrowserDownloadURL asset) downloadPath ;;
      match d with
      | Some e => ret (Some (Wrap "download failed" e))
      | None =>
          defer (os_Remove env downloadPath) (
            match findChecksumAsset u with
            | Some checksumAsset =>
                Println "Verifying checksum..." ;;;
                v <- verifyChecksum u downloadPath checksumAsset (Name asset) ;;
                match v with
                | Some e => ret (Some (Wrap "checksum verification failed" e))
                | None =>
                    Println "Checksum verified." ;;;
                    install u asset downloadPath
                end
            | None => install u asset downloadPath
            end)
      end
  end.

(** *** Orchestrator *)

(** [logResult]: both results of [LogEntry] are dropped. *)
Definition logResult (u : Updater) (result : string) : M unit :=
  emit (EvEnter "logResult") ;;;
  timestamp <- time_Now env ;;
  LogEntry (cfg u) "LastRun" timestamp ;;;
  LogEntry (cfg u) "LastResult" result ;;;
  ret tt.

(** [Run], on the updater [New(cfg, opts)] returns. *)
Definition Run (c : Config) (o : Options) : M (option error) :=
  Println ("Noraneko WinUpdater v" ++ Version o) ;;;
  Println "Checking for updates..." ;;;
  conn <- checkConnection ;;
  match conn with
  | Some e => ret (Some (Wrap "connection check failed" e))
  | None =>
      cur <- getCurrentVersion c ;;
      match cur with
      | inl e => Println ("Could not determine current version: " ++ Error e)
      | inr _ => ret tt
      end ;;;
      let currentVersion :=
        match cur with inl _ => "0.0.0" | inr v => v end in
      Println ("Current version: " ++ currentVersion) ;;;
      rel <- getLatestRelease ;;
      match rel with
      | inl e => ret (Some (Wrap "failed to get latest release" e))
      | inr r =>
          let u := mkUpdater c o r in
          let newVersion := strings.TrimPrefix (TagName r) "v" in
          Println ("Latest version: " ++ newVersion) ;;;
          if negb (isNewerVersion currentVersion newVersion) then
            Println "No new version available." ;;;
            logResult u "No new version found" ;;;
            ret None
          else
            Println ("New version available: " ++ currentVersion
                     ++ " -> " ++ newVersion) ;;;
            if CheckOnly o then
              Println "Check-only mode, not installing." ;;;
              ret None
            else
              d <- downloadAndInstall u ;;
              match d with
              | Some e => ret (Some (Wrap "update failed" e))
              | None =>
                  Println "Update completed successfully!" ;;;
                  logResult u ("Updated from " ++ currentVersion
                               ++ " to " ++ newVersion) ;;;
                  ret None
              end
      end
  end.

End Updater.

(** * The specification's wording, for comparison *)

(** The normalization as the specification words it: one leading [v] is
    stripped. *)
Definition strip_v (s : string) : string :=
  match s with
  | String c t => if Ascii.eqb c "v" then t else s
  | EmptyString => s
  end.

(** The resolution order as the specification words it: the fragments are
    tried in priority order, each one across all assets. *)
Fixpoint first_by_priority (assets : list Asset) (ss : list string) : option Asset :=
  match ss with
  | [] => None
  | s :: rest =>
      match List.find (fun a => fragment_matches (strings.ToLower (Name a)) s) assets with
      | Some a => Some a
      | None => first_by_priority assets rest
      end
  end.


(** The file name field without its binary-mode marker. *)
Definition strip_star (field : string) : string :=
  match field with
  | String c t => if Ascii.eqb c "*" then t else field
  | EmptyString => field
  end.

(** The match of a record as the specification words it: the file name
    field, without its marker, equals the target name or ends with it, up
    to case in both tests. *)
Definition matches_as_specified (field fileName : string) : bool :=
  let name := strip_star field in
  strings.EqualFold name fileName
  || strings.HasSuffix (strings.ToLower name) (strings.ToLower fileName).

(** The boundary as the specification words it: the target path is below
    the cleaned destination directory, that is, it reads as the directory,
    a separator, and something more. *)
Definition within_boundary (dest fpath : string) : Prop :=
  exists rest, fpath = filepath.Clean dest ++ filepath.sep ++ rest.

(** * Reading the trace *)

(** The stage an entry or return event belongs to; calls and printed lines
    belong to none. *)
Definition event_stage (e : event) : option string :=
  match e with
  | EvEnter fn => Some fn
  | EvLeave fn _ => Some fn
  | EvCall _ _ => None
  | EvPrint _ => None
  end.

(** [os.WriteFile] is the one call that writes the persisted outcome log. *)
Definition is_write (c : call) : bool :=
  match c with
  | CWriteFile _ _ => true
  | _ => false
  end.

(** A call other than [os.WriteFile], or a printed line. *)
Definition plain (e : event) : Prop :=
  match e with
  | EvCall c _ => is_write c = false
  | EvPrint _ => True
  | _ => False
  end.

(** Entry into one of the two install strategies. *)
Definition install_entry (e : event) : Prop :=
  e = EvEnter "extractPortable" \/ e = EvEnter "runInstaller".

(** Checksum verification returned without an error. *)
Definition verified : event := EvLeave "verifyChecksum" true.

(** In the events of a run, newest first: before every entry into an install
    strategy, checksum verification has returned without an error. *)
Definition guarded (evs : list event) : Prop :=
  forall later e earlier,
    evs = (later ++ e :: earlier)%list -> install_entry e -> In verified earlier.

(** [emits Q m]: whatever the world, [m] only adds events to the trace, and
    every event it adds satisfies [Q]. *)
Definition emits {A : Type} (Q : event -> Prop) (m : M A) : Prop :=
  forall w, exists evs, trace (snd (m w)) = (evs ++ trace w)%list /\ Forall Q evs.

(** The events of one install strategy: its entry, calls and printed
    lines, its return; before the entry, the line announcing it and the
    calls that choose the strategy. *)
Definition install_run (evs : list event) : Prop :=
  exists fn b body pre,
    (fn = "extractPortable" \/ fn = "runInstaller")
    /\ evs = (EvLeave fn b :: body ++ EvEnter fn :: pre)%list
    /\ Forall plain body /\ Forall plain pre.

(** The ways through [downloadAndInstall], by its result [r] and the events
    [evs] it adds (newest first). *)
Inductive dai_shape (u : Updater) (r : option error) (evs : list event) : Prop :=
| dai_early (e : error) :
    r = Some (Wrap "failed to find download" e)
    \/ r = Some (Wrap "download failed" e) ->
    Forall plain evs ->
    dai_shape u r evs
| dai_rejected (ca : Asset) (e : error) (post vs pre : list event) :
    findChecksumAsset u = Some ca ->
    r = Some (Wrap "checksum verification failed" e) ->
    evs = (post ++ EvLeave "verifyChecksum" false :: vs
                ++ EvEnter "verifyChecksum" :: pre)%list ->
    Forall plain post -> Forall plain vs -> Forall plain pre ->
    dai_shape u r evs
| dai_verified (ca : Asset) (post ins mid vs pre : list event) :
    findChecksumAsset u = Some ca ->
    evs = (post ++ ins ++ mid ++ verified :: vs
                ++ EvEnter "verifyChecksum" :: pre)%list ->
    install_run ins ->
    Forall plain post -> Forall plain mid -> Forall plain vs -> Forall plain pre ->
    dai_shape u r evs
| dai_unverified (post ins pre : list event) :
    findChecksumAsset u = None ->
    evs = (post ++ ins ++ pre)%list ->
    install_run ins ->
    Forall plain post -> Forall plain pre ->
    dai_shape u r evs.

(** Does the event touch the persisted outcome log: a call of
    [os.WriteFile], or the entry into [logResult]? *)
Definition is_record (e : event) : bool :=
  match e with
  | EvCall c _ => is_write c
  | EvEnter fn => String.eqb fn "logResult"
  | _ => false
  end.

Definition no_record (e : event) : Prop := is_record e = false.

(** The events of [logResult(result)] on the configuration file [cf], newest
    first: its entry, then for [LastRun] and for [LastResult] the file is
    read and written back with the lines of [log_lines]. *)
Definition recorded (cf result : string) (logged : list event) : Prop :=
  exists ts before1 before2 ok1 ok2 r1 r2,
    logged =
      [ EvCall (CWriteFile cf
                  (strings.Join (log_lines "LastResult" result before2) LF)) ok2;
        EvCall (CReadFile cf) r2;
        EvCall (CWriteFile cf
                  (strings.Join (log_lines "LastRun" ts before1) LF)) ok1;
        EvCall (CReadFile cf) r1;
        EvEnter "logResult" ].

(** The ways through [Run], by its result [r] and the events [evs] it adds
    (newest first). *)
Inductive run_shape (c : Config) (o : Options) (r : option error)
    (evs : list event) : Prop :=
| run_aborted (e : error) :
    r = Some e -> Forall no_record evs -> run_shape c o r evs
| run_check_only :
    r = None -> CheckOnly o = true -> Forall no_record evs ->
    run_shape c o r evs
| run_recorded (result : string) (logged pre : list event) :
    r = None ->
    evs = (logged ++ pre)%list ->
    recorded (ConfigFile c) result logged ->
    Forall no_record pre ->
    result = "No new version found"
    \/ (CheckOnly o = false
        /\ exists cur new, result = "Updated from " ++ cur ++ " to " ++ new) ->
    run_shape c o r evs.

(** [follows P m]: [m] only adds events to the trace, and its result and
    the events it adds are related by [P]. *)
Definition follows (P : option error -> list event -> Prop)
    (m : M (option error)) : Prop :=
  forall w, exists evs,
    trace (snd (m w)) = (evs ++ trace w)%list /\ P (fst (m w)) evs.

(** The calls of [os.WriteFile] among the events. *)
Definition writes (evs : list event) : list event :=
  filter (fun e => match e with EvCall c _ => is_write c | _ => false end) evs.

(** Nothing is left at the staging directory of [c] or below it. *)
Definition staging_gone (c : Config) (w : World) : Prop :=
  forall q, under (extract_dir c) q = true -> fs w q = None.

(** * Sample environments *)

(** Nothing fails, every GET answers 200 with [body], no file is a zip
    archive, the digest of a file is the file. *)
Definition quiet_env : Env :=
  mkEnv "amd64" (fun _ => "") (fun _ => "2024-01-01 12:00:00")
        (fun _ _ => None) (fun _ _ => inr (200, "body"))
        (fun _ => None) (fun _ => None) (fun data => data) (fun _ _ => []).

Definition empty_fs : FS := fun _ => None.
Definition empty_world : World := mkWorld empty_fs 0 [].

Definition sample_cfg : Config :=
  mkConfig "" "/tmp" true false "nightly" "/opt/updater"
           "/opt/updater/Noraneko-WinUpdater.ini".

Definition sample_opts (portable checkOnly : bool) : Options :=
  mkOptions false portable checkOnly false false "1.0.0".

Definition generic_zip : Asset :=
  mkAsset "app-windows.zip" "https://example.com/app-windows.zip" 0.
Definition portable_zip : Asset :=
  mkAsset "app-windows-x86_64-portable.zip"
          "https://example.com/app-windows-x86_64-portable.zip" 0.

(** A release that lists the generic archive before the portable one. *)
Definition two_zip_updater : Updater :=
  mkUpdater sample_cfg (sample_opts true false)
            (mkRelease "v2.0.0" "" [generic_zip; portable_zip]).

Definition manifest_asset : Asset :=
  mkAsset "sha256sums.txt" "https://example.com/sha256sums.txt" 0.

Definition sample_release : Release :=
  mkRelease "v2.0.0" "" [portable_zip; manifest_asset].

(** The manifest lists the portable archive under the digest every file
    has here; the archive holds one file. *)
Definition verified_env : Env :=
  mkEnv "amd64" (fun _ => "") (fun _ => "2024-01-01 12:00:00")
        (fun _ _ => None)
        (fun _ url =>
           if String.eqb url (BrowserDownloadURL manifest_asset)
           then inr (200, "ABC123  *app-windows-x86_64-portable.zip" ++ LF)
           else inr (200, "PK"))
        (fun _ => Some [mkZipFile "Noraneko/noraneko.exe" false 420 "MZ"])
        (fun _ => Some sample_release)
        (fun _ => "abc123")
        (fun _ _ => [("Noraneko", true)]).

Definition portable_updater : Updater :=
  mkUpdater sample_cfg (sample_opts true false) sample_release.

(** The same release without the manifest. *)
Definition bare_updater : Updater :=
  mkUpdater sample_cfg (sample_opts true false)
            (mkRelease "v2.0.0" "" [portable_zip]).

(** The configuration file cannot be written: every [os.WriteFile] fails. *)
Definition readonly_env : Env :=
  mkEnv "amd64" (fun _ => "") (fun _ => "2024-01-01 12:00:00")
        (fun _ c => if is_write c then Some (SysError 30) else None)
        (fun _ _ => inr (200, "{}"))
        (fun _ => None)
        (fun _ => Some sample_release)
        (fun data => data) (fun _ _ => []).

(** An installation of version 2.0.0 whose path is configured. *)
Definition installed_cfg : Config :=
  mkConfig "/opt/noraneko/noraneko.exe" "/tmp" true false "nightly"
           "/opt/updater" "/opt/updater/Noraneko-WinUpdater.ini".

Definition installed_world : World :=
  mkWorld (fs_set "/opt/noraneko/version" (Some (File ("2.0.0" ++ LF))) empty_fs)
          0 [].

(** An archive whose second member climbs out of the destination. *)
Definition slip_files : list ZipFile :=
  [ mkZipFile "readme.txt" false 420 "hello";
    mkZipFile "../evil.txt" false 420 "gotcha" ].

(** Nothing fails, and the archive is the one of [slip_files]. *)
Definition slip_env : Env :=
  mkEnv "amd64" (fun _ => "") (fun _ => "2024-01-01 12:00:00")
        (fun _ _ => None)
        (fun _ _ => inr (200, "PK"))
        (fun _ => Some slip_files)
        (fun _ => Some sample_release)
        (fun data => data) (fun _ _ => []).

(** Files cannot be created: every [os.OpenFile] fails. *)
Definition flaky_env : Env :=
  mkEnv "amd64" (fun _ => "") (fun _ => "2024-01-01 12:00:00")
        (fun _ c => match c with COpenFile _ _ => Some (SysError 13) | _ => None end)
        (fun _ _ => inr (200, "PK"))
        (fun _ => Some slip_files)
        (fun _ => Some sample_release)
        (fun data => data) (fun _ _ => []).

(** The staging directory cannot be removed: every [os.RemoveAll] fails. *)
Definition stuck_env : Env :=
  mkEnv "amd64" (fun _ => "") (fun _ => "2024-01-01 12:00:00")
        (fun _ c => match c with CRemoveAll _ => Some (SysError 16) | _ => None end)
        (fun _ _ => inr (200, "PK"))
        (fun _ => Some slip_files)
        (fun _ => Some sample_release)
        (fun data => data) (fun _ _ => []).

(** The downloaded archive is in place, and a staging directory is left
    over from an earlier run. *)
Definition stale_world : World :=
  mkWorld (fs_set "/tmp/app.zip" (Some (File "PK"))
             (fs_set "/tmp/Noraneko-Extracted" (Some Directory) empty_fs))
          0 [].

(** The manifest lists the portable archive in upper case, below a
    directory. *)
Definition upper_case_env : Env :=
  mkEnv "amd64" (fun _ => "") (fun _ => "2024-01-01 12:00:00")
        (fun _ _ => None)
        (fun _ url =>
           if String.eqb url (BrowserDownloadURL manifest_asset)
           then inr (200, "abc123  dist/APP-WINDOWS-X86_64-PORTABLE.ZIP" ++ LF)
           else inr (200, "PK"))
        (fun _ => Some [mkZipFile "Noraneko/noraneko.exe" false 420 "MZ"])
        (fun _ => Some sample_release)
        (fun _ => "abc123")
        (fun _ _ => [("Noraneko", true)]).

(** The manifest lists the portable archive twice, first under a digest
    that no file has here. *)
Definition mismatch_env : Env :=
  mkEnv "amd64" (fun _ => "") (fun _ => "2024-01-01 12:00:00")
        (fun _ _ => None)
        (fun _ url =>
           if String.eqb url (BrowserDownloadURL manifest_asset)
           then inr (200, "FFFF00  *app-windows-x86_64-portable.zip" ++ LF
                          ++ "abc123  app-windows-x86_64-portable.zip" ++ LF)
           else inr (200, "PK"))
        (fun _ => Some [mkZipFile "Noraneko/noraneko.exe" false 420 "MZ"])
        (fun _ => Some sample_release)
        (fun _ => "abc123")
        (fun _ _ => [("Noraneko", true)]).

(** The portable archive is in the working directory. *)
Definition archive_world : World :=
  mkWorld (fs_set "/tmp/app-windows-x86_64-portable.zip" (Some (File "PK")) empty_fs)
          0 [].

(** * Further readings of the trace *)

(** Events that are printed lines or calls among [allowed]. *)
Definition only_calls (allowed : call -> Prop) (e : event) : Prop :=
  match e with
  | EvCall c _ => allowed c
  | EvPrint _ => True
  | _ => False
  end.

(** The calls [unzip] may make for the archive [src] and the destination
    [dest]: opening the archive and its members, and creating directories
    and files at target paths that passed the test of [inside] (for a file,
    also the directory its target path lies in). *)
Definition unzip_call (src dest : string) (c : call) : Prop :=
  match c with
  | CZipOpen p => p = src
  | CZipEntryOpen _ => True
  | COpenFile p _ => inside dest p = true
  | CCopy p => inside dest p = true
  | CMkdirAll p =>
      inside dest p = true
      \/ exists q, inside dest q = true /\ p = filepath.Dir q
  | _ => False
  end.

(** The portable archive has been downloaded to the working directory. *)
Definition downloaded_world : World :=
  mkWorld (fs_set "/tmp/app-windows-x86_64-portable.zip" (Some (File "PK")) empty_fs)
          0 [].

(** [os.Stat] and nothing else. *)
Definition is_stat (c : call) : Prop :=
  match c with
  | CStat _ => True
  | _ => False
  end.

(** The calls of a run of [Run] that only looks: a GET of the probe URL or
    of the latest-release URL, [os.Stat], [os.ReadFile], and [os.WriteFile]
    of the configuration file of [c]. *)
Definition probing (c : Config) (k : call) : Prop :=
  match k with
  | CHttpGet url => url = ConnectCheckURL \/ url = ReleaseAPIURL ++ "/latest"
  | CStat _ => True
  | CReadFile _ => True
  | CWriteFile p _ => p = ConfigFile c
  | _ => False
  end.

Definition probe_event (c : Config) (e : event) : Prop :=
  only_calls (probing c) e \/ e = EvEnter "logResult".

(** The second rule of [findAsset] on a lowercased asset name. *)
Definition windows_file (name : string) : bool :=
  (strings.Contains name "windows" || strings.Contains name "win")
  && (strings.HasSuffix name ".exe" || strings.HasSuffix name ".zip").

(** Events other than those of the installer: no child process is started
    and [runInstaller] is neither entered nor left. *)
Definition no_installer (e : event) : Prop :=
  match e with
  | EvCall (CExec _ _) _ => False
  | EvCall _ _ => True
  | EvPrint _ => True
  | EvEnter fn => fn <> "runInstaller"
  | EvLeave fn _ => fn <> "runInstaller"
  end.

(** * More of the program *)

(** [os.IsNotExist(err)] on the result of a call. *)
Definition os_IsNotExist {A : Type} (r : error + A) : bool :=
  match r with
  | inl (SysError 2) => true
  | _ => false
  end.

(** The script [HandleScheduledTask] chooses, if any. *)
Definition task_script (o : Options) : option string :=
  if CreateTask o then Some "ScheduledTask-Create.ps1"
  else if RemoveTask o then Some "ScheduledTask-Remove.ps1"
  else None.

(** [HandleScheduledTask] ([updater.go]) *)
Definition HandleScheduledTask (env : Env) (c : Config) (o : Options)
  : M (option error) :=
  match task_script o with
  | None => ret None
  | Some scriptName =>
      let scriptPath := filepath.Join [ExeDir c; scriptName] in
      st <- os_Stat env scriptPath ;;
      if os_IsNotExist st then
        ret (Some (Errorf ("scheduled task script not found: " ++ scriptPath)))
      else
        r <- exec_Run env "powershell.exe"
               ["-NoProfile"; "-ExecutionPolicy"; "RemoteSigned"; "-File"; scriptPath] ;;
        ret (err_of r)
  end.


(** [io.Copy(destFile, sourceFile)] between two open files: the bytes the
    source holds when it is read. *)
Definition io_CopyFile (env : Env) (dst src : string) : M (error + unit) :=
  syscall env (CCopy dst) (fun _ f =>
    match f src with
    | Some (File data) => (inr tt, fs_set dst (Some (File data)) f)
    | _ => (inl ErrNotExist, f)
    end).

(** [copyFile] ([updater.go]): the source is opened, the destination is
    created, which empties it, and then the bytes are copied. *)
Definition copyFile (env : Env) (src dst : string) : M (option error) :=
  s <- os_Open env src ;;
  match s with
  | inl e => ret (Some e)
  | inr _ =>
      d <- os_Create env dst ;;
      match d with
      | inl e => ret (Some e)
      | inr _ =>
          r <- io_CopyFile env dst src ;;
          ret (err_of r)
      end
  end.

(** ** [config.go]: loading and saving the configuration *)

Definition DefaultBranch : string := "nightly".
Definition ConfigFileName : string := "Noraneko-WinUpdater.ini".

(** [strings.TrimSuffix(s, suffix)] *)
Definition TrimSuffix (s suf : string) : string :=
  if strings.HasSuffix s suf
  then String.substring 0 (String.length s - String.length suf) s
  else s.

(** [strings.SplitN(s, "=", 2)]: one part, [None] here, when there is no
    [=] in [s]; else the text before the first [=] and the text after it. *)
Fixpoint cut_eq (s : string) : option (string * string) :=
  match s with
  | EmptyString => None
  | String c t =>
      if Ascii.eqb c "="%char then Some (EmptyString, t)
      else match cut_eq t with
           | Some (k, v) => Some (String c k, v)
           | None => None
           end
  end.

(** [value == "1" || strings.ToLower(value) == "true"] *)
Definition truthy (value : string) : bool :=
  String.eqb value "1" || String.eqb (strings.ToLower value) "true".

(** The [switch] of [Load] on a key of the settings section. *)
Definition set_key (exeDir key value : string) (cfg : Config) : Config :=
  if String.eqb key "path" then
    if negb (String.eqb value "0") && negb (String.eqb value "")
    then mkConfig value (WorkDir cfg) (UpdateSelf cfg) (IgnoreCrlErrors cfg)
                  (Branch cfg) (ExeDir cfg) (ConfigFile cfg)
    else cfg
  else if String.eqb key "workdir" then
    if negb (String.eqb value "") then
      mkConfig (Path cfg) (if String.eqb value "." then exeDir else value)
               (UpdateSelf cfg) (IgnoreCrlErrors cfg)
               (Branch cfg) (ExeDir cfg) (ConfigFile cfg)
    else cfg
  else if String.eqb key "updateself" then
    mkConfig (Path cfg) (WorkDir cfg) (truthy value) (IgnoreCrlErrors cfg)
             (Branch cfg) (ExeDir cfg) (ConfigFile cfg)
  else if String.eqb key "ignorecrlerrors" then
    mkConfig (Path cfg) (WorkDir cfg) (UpdateSelf cfg) (truthy value)
             (Branch cfg) (ExeDir cfg) (ConfigFile cfg)
  else if String.eqb key "branch" then
    if negb (String.eqb value "") then
      mkConfig (Path cfg) (WorkDir cfg) (UpdateSelf cfg) (IgnoreCrlErrors cfg)
               value (ExeDir cfg) (ConfigFile cfg)
    else cfg
  else cfg.

(** The body of the loop of [Load] for one line of the file: [section] and
    [cfg] before, and after. *)
Definition load_line (exeDir : string) (st : string * Config) (text : string)
  : string * Config :=
  let (section, cfg) := st in
  let line := strings.TrimSpace text in
  if String.eqb line "" || strings.HasPrefix line ";" || strings.HasPrefix line "#"
  then st
  else if strings.HasPrefix line "[" && strings.HasSuffix line "]" then
    (strings.ToLower (TrimSuffix (strings.TrimPrefix line "[") "]"), cfg)
  else
    match cut_eq line with
    | None => st
    | Some (k, v) =>
        let key := strings.TrimSpace (strings.ToLower k) in
        let value := strings.TrimSpace v in
        if String.eqb section "settings"
        then (section, set_key exeDir key value cfg)
        else st
    end.

(** *** [bufio.Scanner] with [bufio.ScanLines] *)

Definition carriage_return : ascii := ascii_of_nat 13.

(** [dropCR]: a final carriage return is dropped. *)
Definition dropCR (data : string) : string :=
  match strings.rev data with
  | String c t => if Ascii.eqb c carriage_return then strings.rev t else data
  | EmptyString => data
  end.

(** The lines of [data] as the scanner cuts them, at each line feed, before
    [dropCR]: what follows the last line feed is a line when it is not
    empty. *)
Definition scan_lines (data : string) : list string :=
  let pieces := strings.split_byte newline data in
  match List.rev pieces with
  | EmptyString :: before => List.rev before
  | _ => pieces
  end.

(** [bufio.MaxScanTokenSize]: the size of the scanner's buffer, which a
    line has to fit with its line feed. *)
Definition MaxScanTokenSize : nat := 64 * 1024.

(** The scanner stops with [ErrTooLong] at a line that fills the buffer. *)
Definition too_long (line : string) : bool :=
  (MaxScanTokenSize <=? String.length line)%nat.

Definition ErrTooLong : error := Errorf "bufio.Scanner: token too long".

(** The loop of [Load] over the content of the file, and [scanner.Err()]. *)
Definition load_content (exeDir : string) (cfg : Config) (data : string)
  : error + Config :=
  if existsb too_long (scan_lines data) then inl ErrTooLong
  else inr (snd (fold_left (load_line exeDir)
                           (List.map dropCR (scan_lines data)) ("", cfg))).

Section ConfigFile.

Variable env : Env.

(** What [os.TempDir()] returns: the environment decides it, and it is the
    same at every call of a run. *)
Variable TempDir : string.

(** The configuration [Load] starts from. *)
Definition default_config (exeDir : string) : Config :=
  mkConfig "" TempDir true false DefaultBranch exeDir
           (filepath.Join [exeDir; ConfigFileName]).

(** The text [Save] builds. *)
Definition save_content (c : Config) : string :=
  ("[Settings]" ++ LF)
  ++ (if negb (String.eqb (Path c) "") then "Path=" ++ Path c ++ LF
      else "Path=0" ++ LF)
  ++ (let workDir :=
        if String.eqb (WorkDir c) (ExeDir c) then "."
        else if String.eqb (WorkDir c) TempDir then ""
        else WorkDir c in
      "WorkDir=" ++ workDir ++ LF)
  ++ (if UpdateSelf c then "UpdateSelf=1" ++ LF else "UpdateSelf=0" ++ LF)
  ++ (if IgnoreCrlErrors c then "IgnoreCrlErrors=1" ++ LF
      else "IgnoreCrlErrors=0" ++ LF)
  ++ ("Branch=" ++ Branch c ++ LF).

(** [Save] *)
Definition Save (c : Config) : M (option error) :=
  r <- os_WriteFile env (ConfigFile c) (save_content c) ;;
  ret (err_of r).

(** [os.Open(p)] of whatever is at [p], and the reading of it to its end
    through the scanner: a directory can be opened but not read. *)
Definition open_node (p : string) : M (error + node) :=
  syscall env (COpen p) (fun _ f =>
    match f p with
    | Some n => (inr n, f)
    | None => (inl ErrNotExist, f)
    end).

Definition EISDIR : error := SysError 21.

Definition read_node (p : string) (n : node) : M (error + string) :=
  syscall env (CRead p) (fun _ f =>
    match n with
    | File data => (inr data, f)
    | Directory => (inl EISDIR, f)
    end).

(** [Load] *)
Definition Load (exeDir : string) : M (error + Config) :=
  let cfg := default_config exeDir in
  st <- os_Stat env (ConfigFile cfg) ;;
  if os_IsNotExist st then
    s <- Save cfg ;;
    match s with
    | Some e => ret (inl (Wrap "failed to create config file" e))
    | None => ret (inr cfg)
    end
  else
    file <- open_node (ConfigFile cfg) ;;
    match file with
    | inl e => ret (inl (Wrap "failed to open config file" e))
    | inr n =>
        rd <- read_node (ConfigFile cfg) n ;;
        match rd with
        | inl e => ret (inl (Wrap "failed to read config file" e))
        | inr data =>
            match load_content exeDir cfg data with
            | inl e => ret (inl (Wrap "failed to read config file" e))
            | inr cfg' => ret (inr cfg')
            end
        end
  end.

End ConfigFile.

(** * Values, keys and sample files of the configuration *)

(** [TrimSpace] from the right only: [TrimSpace s] is
    [trim_right (trim_left s)]. *)
Definition trim_right (s : string) : string :=
  strings.rev (strings.trim_left (strings.rev s)).

(** No line feed in [s]. *)
Definition one_line (s : string) : bool := negb (strings.Contains s LF).

(** A value that [Save] writes and [Load] reads back as it is: one line
    that fits the scanner's buffer behind its key, with no white space at
    either end. *)
Definition plain_value (v : string) : Prop :=
  one_line v = true
  /\ strings.TrimSpace v = v
  /\ String.length v + 16 < MaxScanTokenSize.

(** An ASCII letter. *)
Definition is_letter (c : ascii) : bool :=
  let n := nat_of_ascii c in
  (((65 <=? n) && (n <=? 90)) || ((97 <=? n) && (n <=? 122)))%nat.

(** A word of letters. *)
Fixpoint letters (s : string) : bool :=
  match s with
  | EmptyString => true
  | String c t => is_letter c && letters t
  end.

(** The keys of the settings section that [Load] reads. *)
Definition settings_keys : list string :=
  ["path"; "workdir"; "updateself"; "ignorecrlerrors"; "branch"].


Definition configured_world : World :=
  mkWorld (fs_set "/opt/updater/Noraneko-WinUpdater.ini"
             (Some (File ("[Settings]" ++ LF ++ "Branch = beta" ++ LF
                          ++ "UpdateSelf=0" ++ LF ++ "[Log]" ++ LF
                          ++ "LastRun=never" ++ LF)))
             empty_fs)
          0 [].

(** * The directory an update goes to *)

(** Events other than a copy into a directory that is not [dir] and other
    than a child process that is not given [/D=dir]. *)
Definition targets (dir : string) (e : event) : Prop :=
  match e with
  | EvCall (CCopyDir _ dst) _ => dst = dir
  | EvCall (CExec _ args) _ => In (String.append "/D=" dir) args
  | _ => True
  end.

(** ** [main.go] *)

(** The command line as [flag.Parse] leaves it. *)
Record Flags : Type := mkFlags {
  scheduled : bool;
  portable : bool;
  createTask : bool;
  removeTask : bool;
  checkOnly : bool;
  version : bool
}.

(** The constant [Version] of [main.go]. *)
Definition main_Version : string := "1.0.0".

(** [main]: the exit status, and the line written to the standard error
    when there is one.  [exe] is what [os.Executable()] returns, [TempDir]
    what [os.TempDir()] returns. *)
Definition main (env : Env) (TempDir : string) (flags : Flags)
    (exe : error + string) : M (nat * option string) :=
  if version flags then
    Println (BrowserName ++ " WinUpdater v" ++ main_Version) ;;;
    ret (0, None)
  else
    match exe with
    | inl e => ret (1, Some ("Error getting executable path: " ++ Error e))
    | inr exePath =>
        let exeDir := filepath.Dir exePath in
        l <- Load env TempDir exeDir ;;
        match l with
        | inl e => ret (1, Some ("Error loading configuration: " ++ Error e))
        | inr cfg =>
            let o := mkOptions (scheduled flags) (portable flags)
                               (checkOnly flags) (createTask flags)
                               (removeTask flags) main_Version in
            if createTask flags || removeTask flags then
              t <- HandleScheduledTask env cfg o ;;
              match t with
              | Some e =>
                  ret (1, Some ("Error handling scheduled task: " ++ Error e))
              | None => ret (0, None)
              end
            else
              r <- Run env cfg o ;;
              match r with
              | Some e => ret (1, Some ("Error: " ++ Error e))
              | None => ret (0, None)
              end
        end
    end.

(** The calls of a run that manages the scheduled task: on the
    configuration file and the two scripts next to the executable, and the
    start of PowerShell. *)
Definition task_call (exeDir : string) (c : call) : Prop :=
  match c with
  | CStat p =>
      p = filepath.Join [exeDir; ConfigFileName]
      \/ p = filepath.Join [exeDir; "ScheduledTask-Create.ps1"]
      \/ p = filepath.Join [exeDir; "ScheduledTask-Remove.ps1"]
  | CWriteFile p _ => p = filepath.Join [exeDir; ConfigFileName]
  | COpen p => p = filepath.Join [exeDir; ConfigFileName]
  | CRead p => p = filepath.Join [exeDir; ConfigFileName]
  | CExec cmd _ => cmd = "powershell.exe"
  | _ => False
  end.

(** [-create-task] on the command line. *)
Definition create_task_flags : Flags := mkFlags false false true false false false.

(** * What a run does beyond looking *)

(** The events of a run of [Run], newest first: either they are those of a
    run that only looks, or whatever goes beyond looking comes after the
    line that announces a version judged newer than the current one, in a
    run that is not check-only. *)
Definition announced (c : Config) (o : Options) (evs : list event) : Prop :=
  Forall (probe_event c) evs
  \/ exists later cur new pre,
       evs = (later
              ++ EvPrint (String.append "New version available: "
                            (String.append cur (String.append " -> " new)))
              :: pre)%list
       /\ Forall (probe_event c) pre
       /\ isNewerVersion cur new = true
       /\ CheckOnly o = false.

(** * Properties *)

(** ** Version comparator *)

Lemma TrimPrefix_v (s : string) : strings.TrimPrefix s "v" = strip_v s.
Proof.
  destruct s as [|c t]; [reflexivity|].
  unfold strings.TrimPrefix, strip_v; cbn [strings.HasPrefix String.length strings.drop].
  rewrite Ascii.eqb_sym.
  destruct (Ascii.eqb c "v"); [now destruct t | reflexivity].
Qed.

Lemma isNewerVersion_unfold (current latest : string) :
  isNewerVersion current latest =
    (String.eqb (strip_v current) "" || String.eqb (strip_v current) "0.0.0"
     || negb (String.eqb (strip_v latest) (strip_v current))).
Proof.
  unfold isNewerVersion. rewrite !TrimPrefix_v.
  now destruct (_ || _).
Qed.

(** C2. After one leading [v] is stripped from each argument: an empty or
    ["0.0.0"] current version gives [true]; any other gives [true] exactly
    when the two normalized strings differ, so that
    [isNewerVersion "2.0.0" "1.9.9"] is [true].  The function is defined on
    every pair of strings. *)
Theorem isNewerVersion_contract (current latest : string) :
  (strip_v current = "" \/ strip_v current = "0.0.0" ->
     isNewerVersion current latest = true)
  /\ (strip_v current <> "" -> strip_v current <> "0.0.0" ->
        (isNewerVersion current latest = true
         <-> strip_v latest <> strip_v current))
  /\ isNewerVersion "2.0.0" "1.9.9" = true
  /\ (exists b : bool, isNewerVersion current latest = b).
Proof.
  rewrite isNewerVersion_unfold.
  split; [|split; [|split]].
  - intros [-> | ->]; reflexivity.
  - intros H1 H2.
    apply String.eqb_neq in H1, H2. rewrite H1, H2. simpl.
    rewrite negb_true_iff. apply String.eqb_neq.
  - reflexivity.
  - eexists; reflexivity.
Qed.

Lemma isNewerVersion_contract_witness :
  isNewerVersion "" "1.0.0" = true
  /\ (isNewerVersion "v1.0.0" "1.0.1" = true <-> strip_v "1.0.1" <> strip_v "v1.0.0").
Proof.
  split.
  - refine (proj1 (isNewerVersion_contract "" "1.0.0") _). now left.
  - refine (proj1 (proj2 (isNewerVersion_contract "v1.0.0" "1.0.1")) _ _);
      simpl; discriminate.
Defined.

(** C7. On the pair [("1.1.0", "1.0.1")] the comparator answers [true]: the
    two strings differ, and no ordering of versions is computed.  The pair
    [("1.0.1", "1.1.0")] gives [true] as well. *)
Theorem isNewerVersion_older_latest :
  isNewerVersion "1.1.0" "1.0.1" = true
  /\ isNewerVersion "1.0.1" "1.1.0" = true.
Proof. split; reflexivity. Qed.

(** C8, as stated, fails: ["v"] is neither empty nor ["0.0.0"], and compared
    with itself it is reported newer, since the test for an unknown version
    comes after the prefix is stripped. *)
Lemma isNewerVersion_same_bare_prefix :
  ~ (forall current : string,
       current <> "" -> current <> "0.0.0" ->
       isNewerVersion current current = false).
Proof.
  intros H. specialize (H "v"). discriminate H; discriminate.
Qed.

(** C8, amended. For every version string whose normalized form (one
    leading [v] stripped) is neither empty nor ["0.0.0"], comparing the
    string with itself gives [false]. *)
Theorem isNewerVersion_same_version (current : string) :
  strings.TrimPrefix current "v" <> "" ->
  strings.TrimPrefix current "v" <> "0.0.0" ->
  isNewerVersion current current = false.
Proof.
  intros H1 H2. unfold isNewerVersion.
  apply String.eqb_neq in H1, H2. rewrite H1, H2. simpl.
  now rewrite String.eqb_refl.
Qed.

Lemma isNewerVersion_same_version_witness :
  isNewerVersion "v1.0.0" "v1.0.0" = false.
Proof.
  apply (isNewerVersion_same_version "v1.0.0"); discriminate.
Defined.

(** C10. The test for an unknown current version is made on the normalized
    string: with ["v0.0.0"] or with the bare prefix ["v"] as the current
    version, every latest version is reported newer, the current string
    itself included. *)
Theorem isNewerVersion_prefixed_sentinel (latest : string) :
  isNewerVersion "v0.0.0" latest = true
  /\ isNewerVersion "v" latest = true
  /\ isNewerVersion "v0.0.0" "v0.0.0" = true
  /\ isNewerVersion "v" "v" = true.
Proof. repeat split. Qed.

(** ** Asset resolver *)

Lemma matches_any_existsb (name : string) (ss : list string) :
  matches_any name ss = existsb (fragment_matches name) ss.
Proof.
  induction ss as [|s rest IH]; simpl; [reflexivity|].
  now destruct (fragment_matches name s).
Qed.

Lemma first_matching_find (assets : list Asset) (ss : list string) :
  first_matching assets ss
  = List.find (fun a => existsb (fragment_matches (strings.ToLower (Name a))) ss) assets.
Proof.
  induction assets as [|a rest IH]; simpl; [reflexivity|].
  rewrite matches_any_existsb.
  now destruct (existsb _ ss).
Qed.

Lemma first_matching_skip (pre rest : list Asset) (ss : list string) :
  (forall b s, In b pre -> In s ss ->
     fragment_matches (strings.ToLower (Name b)) s = false) ->
  first_matching (pre ++ rest) ss = first_matching rest ss.
Proof.
  induction pre as [|b pre IH]; intros H; simpl; [reflexivity|].
  rewrite matches_any_existsb.
  replace (existsb _ ss) with false.
  - apply IH. intros b' s' Hb Hs. apply H; [now right | assumption].
  - symmetry. apply not_true_is_false. intros E.
    apply existsb_exists in E as (s & Hs & Hm).
    rewrite (H b s (or_introl eq_refl) Hs) in Hm. discriminate.
Qed.

Lemma findAsset_result (env : Env) (u : Updater) (w : World) :
  fst (findAsset env u w)
  = find_asset env (fst (portable_mode env u w)) (Assets (release u)).
Proof.
  unfold findAsset, bind, ret.
  now destruct (portable_mode env u w).
Qed.

(** C4, as stated, fails: with the generic archive listed before the
    portable one, the portable archive matches the primary fragment and the
    generic one only the fourth, yet the generic archive is returned. *)
Lemma findAsset_ignores_fragment_priority :
  let ss := suffixes quiet_env true in
  fst (portable_mode quiet_env two_zip_updater empty_world) = true
  /\ fragment_matches (strings.ToLower (Name portable_zip)) (nth 0 ss "") = true
  /\ forallb (fun s => negb (fragment_matches (strings.ToLower (Name generic_zip)) s))
             (firstn 3 ss) = true
  /\ first_by_priority (Assets (release two_zip_updater)) ss = Some portable_zip
  /\ fst (findAsset quiet_env two_zip_updater empty_world) = inr generic_zip
  /\ generic_zip <> portable_zip.
Proof. repeat split. discriminate. Qed.

(** C4, amended. [findAsset] walks the assets in the order the release lists
    them and, for each, tries every fragment: the first listed asset whose
    lowercased name contains (or ends with) any of the fragments is returned,
    whichever fragments the assets after it match.  This is stated for
    assets with ASCII names up to and including the one returned. *)
Theorem findAsset_first_listed_match_wins
    (env : Env) (u : Updater) (w : World)
    (pre post : list Asset) (a : Asset) (s : string) :
  let ss := suffixes env (fst (portable_mode env u w)) in
  Assets (release u) = (pre ++ a :: post)%list ->
  (forall b, In b (pre ++ [a])%list -> ascii_only (Name b) = true) ->
  In s ss ->
  fragment_matches (strings.ToLower (Name a)) s = true ->
  (forall b s', In b pre -> In s' ss ->
     fragment_matches (strings.ToLower (Name b)) s' = false) ->
  fst (findAsset env u w) = inr a.
Proof.
  intros ss Hassets _ Hs Hm Hpre.
  rewrite findAsset_result, Hassets. unfold find_asset.
  fold ss. rewrite (first_matching_skip pre (a :: post) ss Hpre).
  cbn [first_matching]. rewrite matches_any_existsb.
  replace (existsb _ ss) with true; [reflexivity|].
  symmetry. apply existsb_exists. now exists s.
Qed.

Lemma findAsset_first_listed_match_wins_witness :
  fst (findAsset quiet_env two_zip_updater empty_world) = inr generic_zip.
Proof.
  apply (findAsset_first_listed_match_wins quiet_env two_zip_updater empty_world
           [] [portable_zip] generic_zip "windows.zip").
  - reflexivity.
  - intros b [<-|[]]. reflexivity.
  - simpl. tauto.
  - reflexivity.
  - intros b s' [].
Defined.

(** ** What a computation adds to the trace *)

Lemma emits_ret {A : Type} (Q : event -> Prop) (a : A) : emits Q (ret a).
Proof. intros w. exists []. now split. Qed.

Lemma emits_bind {A B : Type} (Q : event -> Prop) (m : M A) (k : A -> M B) :
  emits Q m -> (forall a, emits Q (k a)) -> emits Q (bind m k).
Proof.
  intros Hm Hk w. unfold bind.
  destruct (Hm w) as (evs1 & E1 & F1).
  destruct (m w) as [a w1]. simpl in E1.
  destruct (Hk a w1) as (evs2 & E2 & F2).
  exists (evs2 ++ evs1)%list. split.
  - now rewrite E2, E1, app_assoc.
  - apply Forall_app. now split.
Qed.

Lemma emits_emit (Q : event -> Prop) (e : event) : Q e -> emits Q (emit e).
Proof. intros H w. exists [e]. split; [reflexivity | now constructor]. Qed.

Lemma emits_syscall {A : Type} (env : Env) (Q : event -> Prop) (c : call)
    (sem : nat -> FS -> (error + A) * FS) :
  (forall b, Q (EvCall c b)) -> emits Q (syscall env c sem).
Proof.
  intros HQ w. unfold syscall.
  destruct (fault env (clock w) c).
  - eexists [_]. split; [reflexivity | constructor; [apply HQ | constructor]].
  - destruct (sem (clock w) (fs w)) as [r f'].
    eexists [_]. split; [reflexivity | constructor; [apply HQ | constructor]].
Qed.

Lemma emits_http_Get (env : Env) (Q : event -> Prop) (url : string) :
  (forall b, Q (EvCall (CHttpGet url) b)) -> emits Q (http_Get env url).
Proof.
  intros HQ w. eexists [_].
  split; [reflexivity | constructor; [apply HQ | constructor]].
Qed.

Lemma emits_time_Now (env : Env) (Q : event -> Prop) : emits Q (time_Now env).
Proof. intros w. exists []. now split. Qed.

Lemma emits_Println (Q : event -> Prop) (line : string) :
  Q (EvPrint line) -> emits Q (Println line).
Proof. apply emits_emit. Qed.

Lemma emits_defer {A B : Type} (Q : event -> Prop) (cleanup : M B) (body : M A) :
  emits Q cleanup -> emits Q body -> emits Q (defer cleanup body).
Proof.
  intros Hc Hb. unfold defer.
  apply emits_bind; [assumption|]. intros r.
  apply emits_bind; [assumption|]. intros _. apply emits_ret.
Qed.

Create HintDb emits discriminated.

#[export] Hint Resolve emits_ret emits_syscall emits_http_Get emits_time_Now
  emits_Println emits_emit : emits.

(** One step through a computation: a bind, a deferred call, a branch. *)
Ltac emits_step :=
  match goal with
  | |- emits _ (bind _ _) => apply emits_bind; [| intros ?]
  | |- emits _ (defer _ _) => apply emits_defer
  | |- emits _ (ret _) => apply emits_ret
  | |- emits _ (match ?x with _ => _ end) => destruct x
  | |- emits _ _ => solve [eauto with emits]
  end.

Ltac emits_walk := repeat emits_step.

Section PlainEvents.

Variable env : Env.
Variable Q : event -> Prop.
Hypothesis Qplain : forall e, plain e -> Q e.

Lemma Qcall c b : is_write c = false -> Q (EvCall c b).
Proof. intros H. now apply Qplain. Qed.

Lemma Qprint line : Q (EvPrint line).
Proof. now apply Qplain. Qed.

Hint Resolve Qcall Qprint : emits.

Lemma emits_os_Stat p : emits Q (os_Stat env p).
Proof. unfold os_Stat. auto with emits. Qed.

Lemma emits_os_ReadFile p : emits Q (os_ReadFile env p).
Proof. unfold os_ReadFile. auto with emits. Qed.

Lemma emits_os_Create p : emits Q (os_Create env p).
Proof. unfold os_Create. auto with emits. Qed.

Lemma emits_os_OpenFile p m : emits Q (os_OpenFile env p m).
Proof. unfold os_OpenFile. auto with emits. Qed.

Lemma emits_os_Open p : emits Q (os_Open env p).
Proof. unfold os_Open. auto with emits. Qed.

Lemma emits_io_Copy p d : emits Q (io_Copy env p d).
Proof. unfold io_Copy. auto with emits. Qed.

Lemma emits_io_Read p : emits Q (io_Read env p).
Proof. unfold io_Read. auto with emits. Qed.

Lemma emits_os_Remove p : emits Q (os_Remove env p).
Proof. unfold os_Remove. auto with emits. Qed.

Lemma emits_os_RemoveAll p : emits Q (os_RemoveAll env p).
Proof. unfold os_RemoveAll. auto with emits. Qed.

Lemma emits_os_MkdirAll p : emits Q (os_MkdirAll env p).
Proof. unfold os_MkdirAll. auto with emits. Qed.

Lemma emits_os_ReadDir p : emits Q (os_ReadDir env p).
Proof. unfold os_ReadDir. auto with emits. Qed.

Lemma emits_zip_OpenReader p : emits Q (zip_OpenReader env p).
Proof. unfold zip_OpenReader. auto with emits. Qed.

Lemma emits_zip_Open z : emits Q (zip_Open env z).
Proof. unfold zip_Open. auto with emits. Qed.

Lemma emits_exec_Run c args : emits Q (exec_Run env c args).
Proof. unfold exec_Run. auto with emits. Qed.

Hint Resolve emits_os_Stat emits_os_ReadFile emits_os_Create
  emits_os_OpenFile emits_os_Open emits_io_Copy emits_io_Read emits_os_Remove
  emits_os_RemoveAll emits_os_MkdirAll emits_os_ReadDir emits_zip_OpenReader
  emits_zip_Open emits_exec_Run : emits.

Lemma emits_IsPortable c : emits Q (IsPortable env c).
Proof. unfold IsPortable. emits_walk. Qed.

Lemma emits_portable_mode u : emits Q (portable_mode env u).
Proof. unfold portable_mode. emits_walk. apply emits_IsPortable. Qed.

Lemma emits_first_existing paths : emits Q (first_existing env paths).
Proof.
  induction paths as [|p rest IH]; simpl; emits_walk.
Qed.

Lemma emits_GetBrowserPath c : emits Q (GetBrowserPath env c).
Proof.
  unfold GetBrowserPath. emits_walk; apply emits_first_existing.
Qed.

Lemma emits_checkConnection : emits Q (checkConnection env).
Proof. unfold checkConnection. emits_walk. Qed.

Lemma emits_getCurrentVersion c : emits Q (getCurrentVersion env c).
Proof.
  unfold getCurrentVersion. emits_walk. apply emits_GetBrowserPath.
Qed.

Lemma emits_getLatestRelease : emits Q (getLatestRelease env).
Proof. unfold getLatestRelease. emits_walk. Qed.

Lemma emits_findAsset u : emits Q (findAsset env u).
Proof. unfold findAsset. emits_walk. apply emits_portable_mode. Qed.

Lemma emits_downloadFile url p : emits Q (downloadFile env url p).
Proof. unfold downloadFile. emits_walk. Qed.

Lemma emits_unzip_files dest files : emits Q (unzip_files env dest files).
Proof.
  induction files as [|f rest IH]; simpl; emits_walk; assumption.
Qed.

Lemma emits_unzip src dest : emits Q (unzip env src dest).
Proof. unfold unzip. emits_walk. apply emits_unzip_files. Qed.

Lemma emits_copyDir src dst : emits Q (copyDir env src dst).
Proof. unfold copyDir. emits_walk. Qed.

End PlainEvents.

#[export] Hint Resolve emits_os_Stat emits_os_ReadFile emits_os_Create
  emits_os_OpenFile emits_os_Open emits_io_Copy emits_io_Read emits_os_Remove
  emits_os_RemoveAll emits_os_MkdirAll emits_os_ReadDir emits_zip_OpenReader
  emits_zip_Open emits_exec_Run emits_IsPortable emits_portable_mode
  emits_first_existing emits_GetBrowserPath emits_checkConnection
  emits_getCurrentVersion emits_getLatestRelease emits_findAsset
  emits_downloadFile emits_unzip_files emits_unzip emits_copyDir : emits.

Lemma plain_print (line : string) : plain (EvPrint line).
Proof. exact I. Qed.

#[export] Hint Resolve plain_print : emits.

(** *** The stages *)

Lemma stage_shape (fn : string) (body : M (option error)) (Q : event -> Prop) :
  emits Q body ->
  forall w, exists evs,
    trace (snd (stage fn body w))
    = ((EvLeave fn (succeeded (fst (stage fn body w))) :: evs
        ++ [EvEnter fn]) ++ trace w)%list
    /\ Forall Q evs.
Proof.
  intros Hb w. unfold stage, bind, emit, ret. simpl.
  destruct (Hb (mkWorld (fs w) (clock w) (EvEnter fn :: trace w)))
    as (evs & E & F).
  destruct (body _) as [r w1]. simpl in *.
  exists evs. split; [|assumption].
  rewrite E. now rewrite <- app_assoc.
Qed.

Lemma verifyChecksum_body_plain (env : Env) (u : Updater)
    (filePath : string) (ca : Asset) (fileName : string) :
  forall w, exists vs,
    trace (snd (verifyChecksum env u filePath ca fileName w))
    = ((EvLeave "verifyChecksum"
          (succeeded (fst (verifyChecksum env u filePath ca fileName w)))
        :: vs ++ [EvEnter "verifyChecksum"]) ++ trace w)%list
    /\ Forall plain vs.
Proof.
  unfold verifyChecksum. apply stage_shape.
  emits_walk.
Qed.

Lemma extractPortable_body_plain (env : Env) (u : Updater) (zipPath : string) :
  forall w, exists body,
    trace (snd (extractPortable env u zipPath w))
    = ((EvLeave "extractPortable"
          (succeeded (fst (extractPortable env u zipPath w)))
        :: body ++ [EvEnter "extractPortable"]) ++ trace w)%list
    /\ Forall plain body.
Proof.
  unfold extractPortable. apply stage_shape.
  emits_walk.
Qed.

Lemma runInstaller_body_plain (env : Env) (u : Updater) (setupPath : string) :
  forall w, exists body,
    trace (snd (runInstaller env u setupPath w))
    = ((EvLeave "runInstaller"
          (succeeded (fst (runInstaller env u setupPath w)))
        :: body ++ [EvEnter "runInstaller"]) ++ trace w)%list
    /\ Forall plain body.
Proof.
  unfold runInstaller. apply stage_shape.
  emits_walk.
Qed.

Lemma bind_run {A B : Type} (m : M A) (k : A -> M B) (w : World) :
  bind m k w = k (fst (m w)) (snd (m w)).
Proof. unfold bind. now destruct (m w). Qed.

Lemma plain_refl : forall e, plain e -> plain e.
Proof. auto. Qed.

(** Lists of events are compared up to the bracketing of [++]. *)
Ltac app_norm :=
  repeat (rewrite <- app_assoc || rewrite <- app_comm_cons); cbn [app].

Lemma install_shape (env : Env) (u : Updater) (asset : Asset) (dp : string) :
  forall w, exists evs,
    trace (snd (install env u asset dp w)) = (evs ++ trace w)%list
    /\ install_run evs.
Proof.
  intros w. unfold install. rewrite bind_run.
  destruct (emits_portable_mode env plain plain_refl u w) as (pm & Epm & Fpm).
  set (w1 := snd (portable_mode env u w)) in *.
  destruct (fst (portable_mode env u w) || strings.HasSuffix (Name asset) ".zip").
  - rewrite bind_run. cbn [Println emit snd fst].
    set (w2 := mkWorld (fs w1) (clock w1) (EvPrint "Extracting..." :: trace w1)).
    destruct (extractPortable_body_plain env u dp w2) as (body & E & F).
    change (trace w2) with (EvPrint "Extracting..." :: trace w1) in E.
    rewrite Epm in E.
    exists (EvLeave "extractPortable" (succeeded (fst (extractPortable env u dp w2)))
            :: body ++ EvEnter "extractPortable" :: EvPrint "Extracting..." :: pm)%list.
    split.
    + rewrite E. app_norm. reflexivity.
    + eexists "extractPortable", _, body, (EvPrint "Extracting..." :: pm).
      repeat split; auto. constructor; [exact I | assumption].
  - rewrite bind_run. cbn [Println emit snd fst].
    set (w2 := mkWorld (fs w1) (clock w1) (EvPrint "Installing..." :: trace w1)).
    destruct (runInstaller_body_plain env u dp w2) as (body & E & F).
    change (trace w2) with (EvPrint "Installing..." :: trace w1) in E.
    rewrite Epm in E.
    exists (EvLeave "runInstaller" (succeeded (fst (runInstaller env u dp w2)))
            :: body ++ EvEnter "runInstaller" :: EvPrint "Installing..." :: pm)%list.
    split.
    + rewrite E. app_norm. reflexivity.
    + eexists "runInstaller", _, body, (EvPrint "Installing..." :: pm).
      repeat split; auto. constructor; [exact I | assumption].
Qed.

Lemma defer_run {A B : Type} (cleanup : M B) (body : M A) (w : World) :
  defer cleanup body w = (fst (body w), snd (cleanup (snd (body w)))).
Proof.
  unfold defer. rewrite bind_run, bind_run. reflexivity.
Qed.

Lemma Forall_plain_app (xs ys : list event) :
  Forall plain xs -> Forall plain ys -> Forall plain (xs ++ ys).
Proof. intros. apply Forall_app. now split. Qed.

Lemma Forall_plain_print (line : string) (xs : list event) :
  Forall plain xs -> Forall plain (EvPrint line :: xs).
Proof. intros. constructor; [exact I | assumption]. Qed.

#[export] Hint Resolve Forall_plain_app Forall_plain_print : emits.

Lemma downloadAndInstall_shape (env : Env) (u : Updater) :
  forall w, exists evs,
    trace (snd (downloadAndInstall env u w)) = (evs ++ trace w)%list
    /\ dai_shape u (fst (downloadAndInstall env u w)) evs.
Proof.
  intros w. unfold downloadAndInstall. rewrite bind_run.
  destruct (emits_findAsset env plain plain_refl u w) as (e1 & E1 & F1).
  set (w1 := snd (findAsset env u w)) in *.
  destruct (fst (findAsset env u w)) as [err|asset].
  { cbn [ret fst snd]. exists e1. split; [exact E1|].
    apply dai_early with err; [now left | assumption]. }
  rewrite bind_run. cbn [Println emit fst snd].
  set (line := "Downloading " ++ Name asset ++ "...").
  set (w2 := mkWorld (fs w1) (clock w1) (EvPrint line :: trace w1)).
  set (path := filepath.Join [WorkDir (cfg u); Name asset]).
  rewrite bind_run.
  destruct (emits_downloadFile env plain plain_refl
              (BrowserDownloadURL asset) path w2) as (e2 & E2 & F2).
  change (trace w2) with (EvPrint line :: trace w1) in E2. rewrite E1 in E2.
  set (w3 := snd (downloadFile env (BrowserDownloadURL asset) path w2)) in *.
  destruct (fst (downloadFile env (BrowserDownloadURL asset) path w2)) as [err|].
  { cbn [ret fst snd]. exists (e2 ++ EvPrint line :: e1)%list. split.
    - rewrite E2. app_norm. reflexivity.
    - apply dai_early with err; [now right | auto with emits]. }
  rewrite defer_run. cbn [fst snd].
  match goal with
  | |- context [os_Remove env path ?w'] =>
      destruct (emits_os_Remove env plain plain_refl path w') as (e5 & E5 & F5)
  end.
  rewrite E5. clear E5.
  destruct (findChecksumAsset u) as [ca|] eqn:Hca.
  - rewrite bind_run. cbn [Println emit fst snd].
    set (w4 := mkWorld (fs w3) (clock w3) (EvPrint "Verifying checksum..." :: trace w3)).
    rewrite bind_run.
    destruct (verifyChecksum_body_plain env u path ca (Name asset) w4)
      as (vs & Ev & Fv).
    change (trace w4) with (EvPrint "Verifying checksum..." :: trace w3) in Ev.
    rewrite E2 in Ev.
    set (w5 := snd (verifyChecksum env u path ca (Name asset) w4)) in *.
    destruct (fst (verifyChecksum env u path ca (Name asset) w4)) as [err|].
    + cbn [ret fst snd succeeded] in *.
      exists (e5 ++ EvLeave "verifyChecksum" false :: vs
              ++ EvEnter "verifyChecksum"
              :: EvPrint "Verifying checksum..." :: e2 ++ EvPrint line :: e1)%list.
      split.
      * rewrite Ev. app_norm. reflexivity.
      * eapply dai_rejected with (ca := ca) (post := e5) (vs := vs);
          [assumption | reflexivity | reflexivity | auto with emits ..].
    + rewrite bind_run. cbn [Println emit fst snd succeeded] in *.
      set (w6 := mkWorld (fs w5) (clock w5) (EvPrint "Checksum verified." :: trace w5)).
      destruct (install_shape env u asset path w6) as (ins & Ei & Ri).
      change (trace w6) with (EvPrint "Checksum verified." :: trace w5) in Ei.
      rewrite Ev in Ei.
      exists (e5 ++ ins ++ [EvPrint "Checksum verified."] ++ verified :: vs
              ++ EvEnter "verifyChecksum"
              :: EvPrint "Verifying checksum..." :: e2 ++ EvPrint line :: e1)%list.
      split.
      * rewrite Ei. unfold verified. app_norm. reflexivity.
      * eapply dai_verified with (ca := ca) (post := e5) (ins := ins) (vs := vs);
          [assumption | reflexivity | assumption | auto with emits ..].
  - destruct (install_shape env u asset path w3) as (ins & Ei & Ri).
    rewrite E2 in Ei.
    exists (e5 ++ ins ++ e2 ++ EvPrint line :: e1)%list.
    split.
    + rewrite Ei. app_norm. reflexivity.
    + eapply dai_unverified with (post := e5) (ins := ins);
        [assumption | reflexivity | assumption | auto with emits ..].
Qed.

(** ** What the calls do to the file system *)

Lemma syscall_cases {A : Type} (env : Env) (c : call)
    (sem : nat -> FS -> (error + A) * FS) (w : World) :
  (exists e,
     fault env (clock w) c = Some e
     /\ syscall env c sem w
        = (inl e, mkWorld (fs w) (S (clock w)) (EvCall c false :: trace w)))
  \/ (fault env (clock w) c = None
      /\ syscall env c sem w
         = (fst (sem (clock w) (fs w)),
            mkWorld (snd (sem (clock w) (fs w))) (S (clock w))
                    (EvCall c (is_ok (fst (sem (clock w) (fs w)))) :: trace w))).
Proof.
  unfold syscall. destruct (fault env (clock w) c) as [e|].
  - left. now exists e.
  - right. split; [reflexivity|]. now destruct (sem (clock w) (fs w)).
Qed.

Lemma fs_set_same (p : string) (n : option node) (f : FS) : fs_set p n f p = n.
Proof. unfold fs_set. now rewrite String.eqb_refl. Qed.

Lemma fs_set_other (p q : string) (n : option node) (f : FS) :
  q <> p -> fs_set p n f q = f q.
Proof. unfold fs_set. intros H. apply String.eqb_neq in H. now rewrite H. Qed.

Lemma downloadFile_effect (env : Env) (url path : string) (w : World) :
  let r := fst (downloadFile env url path w) in
  let w' := snd (downloadFile env url path w) in
  (forall q, q <> path -> fs w' q = fs w q)
  /\ (r = None ->
      exists body,
        http_get env (clock w) url = inr (200, body)
        /\ fs w' path = Some (File body))
  /\ (forall status body,
        http_get env (clock w) url = inr (status, body) ->
        status <> 200 ->
        r = Some (Errorf ("download returned status " ++ fmt_d status))
        /\ fs w' path = fs w path).
Proof.
  intros r w'. subst r w'.
  unfold downloadFile, bind, http_Get, ret.
  set (w1 := mkWorld (fs w) (S (clock w)) _).
  destruct (http_get env (clock w) url) as [e|[status body]] eqn:Hget.
  { cbn [fst snd]. repeat split; try discriminate; reflexivity. }
  destruct (Nat.eqb_spec status 200) as [->|Hne]; cbn [negb].
  2:{ cbn [fst snd]. split; [reflexivity|]. split; [discriminate|].
      intros s b H _. injection H as <- <-. now split. }
  unfold os_Create.
  destruct (syscall_cases env (CCreate path)
              (fun _ f => (inr tt, fs_set path (Some (File "")) f)) w1)
    as [(e & _ & E) | (_ & E)]; rewrite E; cbn [fst snd].
  { split; [reflexivity|]. split; [discriminate|].
    intros s b H Hs. injection H as <- <-. now elim Hs. }
  unfold io_Copy.
  match goal with
  | |- context [syscall env (CCopy path) ?sem ?w2] =>
      destruct (syscall_cases env (CCopy path) sem w2)
        as [(e & _ & E') | (_ & E')]; rewrite E'; cbn [fst snd err_of fs]
  end.
  - split; [intros q Hq; now apply fs_set_other|]. split; [discriminate|].
    intros s b H Hs. injection H as <- <-. now elim Hs.
  - split; [intros q Hq; now rewrite !fs_set_other by assumption|].
    split.
    + intros _. exists body. split; [reflexivity | apply fs_set_same].
    + intros s b H Hs. injection H as <- <-. now elim Hs.
Qed.

(** ** Install only after verification *)

Lemma plain_not_install (e : event) : plain e -> ~ install_entry e.
Proof. destruct e; simpl; intros H [E|E]; try discriminate E; contradiction. Qed.

Lemma plain_stage (e : event) : plain e -> event_stage e = None.
Proof. destruct e; simpl; intros H; [reflexivity | reflexivity | contradiction ..]. Qed.

Lemma Forall_plain_quiet (evs : list event) :
  Forall plain evs -> Forall (fun e => ~ install_entry e) evs.
Proof. apply Forall_impl, plain_not_install. Qed.

Lemma guarded_after_verification (new old : list event) :
  Forall (fun e => ~ install_entry e) old ->
  In verified old ->
  guarded (new ++ old).
Proof.
  intros Hq Hv. induction new as [|x new IH]; intros later e earlier Heq He.
  - simpl in Heq. rewrite Forall_forall in Hq.
    exfalso. apply (Hq e); [|assumption].
    rewrite Heq. apply in_or_app. right. now left.
  - destruct later as [|y later]; simpl in Heq; injection Heq as -> Heq.
    + subst earlier. apply in_or_app. now right.
    + now apply (IH later e earlier).
Qed.

Lemma guarded_quiet (evs : list event) :
  Forall (fun e => ~ install_entry e) evs -> guarded evs.
Proof.
  intros Hq later e earlier Heq He. rewrite Forall_forall in Hq.
  exfalso. apply (Hq e); [|assumption].
  rewrite Heq. apply in_or_app. right. now left.
Qed.

Lemma install_run_enters (ins : list event) :
  install_run ins -> Exists install_entry ins.
Proof.
  intros (fn & b & body & pre & Hfn & -> & _ & _).
  apply Exists_cons_tl, Exists_app. right. apply Exists_cons_hd.
  destruct Hfn as [-> | ->]; [now left | now right].
Qed.

Lemma install_run_no_verify (ins : list event) :
  install_run ins ->
  Forall (fun e => event_stage e <> Some "verifyChecksum") ins.
Proof.
  intros (fn & b & body & pre & Hfn & -> & Fb & Fp).
  assert (Hne : Some fn <> Some "verifyChecksum")
    by (destruct Hfn as [-> | ->]; discriminate).
  constructor; [exact Hne|].
  apply Forall_app. split.
  - eapply Forall_impl; [|exact Fb]. intros e He. now rewrite (plain_stage e He).
  - constructor; [exact Hne|].
    eapply Forall_impl; [|exact Fp]. intros e He. now rewrite (plain_stage e He).
Qed.

Lemma plain_no_verify (evs : list event) :
  Forall plain evs ->
  Forall (fun e => event_stage e <> Some "verifyChecksum") evs.
Proof.
  apply Forall_impl. intros e He. now rewrite (plain_stage e He).
Qed.

(** The result of [downloadAndInstall] and whether it enters an install
    strategy, by the results of the asset lookup, of the download and of
    the verification of the downloaded file. *)
Lemma downloadAndInstall_outcome (env : Env) (u : Updater) (w : World) :
  exists evs,
    trace (snd (downloadAndInstall env u w)) = (evs ++ trace w)%list
    /\ match fst (findAsset env u w) with
       | inl e =>
           fst (downloadAndInstall env u w)
           = Some (Wrap "failed to find download" e)
           /\ Forall (fun e => ~ install_entry e) evs
       | inr asset =>
           let path := filepath.Join [WorkDir (cfg u); Name asset] in
           let w2 := snd (Println ("Downloading " ++ Name asset ++ "...")
                            (snd (findAsset env u w))) in
           match fst (downloadFile env (BrowserDownloadURL asset) path w2) with
           | Some e =>
               fst (downloadAndInstall env u w)
               = Some (Wrap "download failed" e)
               /\ Forall (fun e => ~ install_entry e) evs
           | None =>
               let w3 := snd (downloadFile env (BrowserDownloadURL asset) path w2) in
               (exists body,
                  http_get env (clock w2) (BrowserDownloadURL asset)
                  = inr (200, body)
                  /\ fs w3 path = Some (File body))
               /\ match findChecksumAsset u with
                  | None => Exists install_entry evs
                  | Some ca =>
                      let w4 := snd (Println "Verifying checksum..." w3) in
                      match fst (verifyChecksum env u path ca (Name asset) w4) with
                      | Some e =>
                          fst (downloadAndInstall env u w)
                          = Some (Wrap "checksum verification failed" e)
                          /\ Forall (fun e => ~ install_entry e) evs
                      | None => Exists install_entry evs
                      end
                  end
           end
       end.
Proof.
  unfold downloadAndInstall. rewrite bind_run.
  destruct (emits_findAsset env plain plain_refl u w) as (e1 & E1 & F1).
  set (w1 := snd (findAsset env u w)) in *.
  destruct (fst (findAsset env u w)) as [err|asset].
  { cbn [ret fst snd]. exists e1. split; [exact E1|].
    split; [reflexivity | now apply Forall_plain_quiet]. }
  rewrite bind_run. cbv zeta.
  set (line := "Downloading " ++ Name asset ++ "...").
  set (w2 := snd (Println line w1)).
  assert (Ew2 : trace w2 = EvPrint line :: trace w1) by reflexivity.
  set (path := filepath.Join [WorkDir (cfg u); Name asset]).
  rewrite bind_run.
  destruct (emits_downloadFile env plain plain_refl
              (BrowserDownloadURL asset) path w2) as (e2 & E2 & F2).
  rewrite Ew2, E1 in E2.
  destruct (downloadFile_effect env (BrowserDownloadURL asset) path w2)
    as (_ & Hbody & _).
  set (w3 := snd (downloadFile env (BrowserDownloadURL asset) path w2)) in *.
  destruct (fst (downloadFile env (BrowserDownloadURL asset) path w2)) as [err|].
  { cbn [ret fst snd]. exists (e2 ++ EvPrint line :: e1)%list. split.
    - rewrite E2. app_norm. reflexivity.
    - split; [reflexivity|]. apply Forall_plain_quiet. auto with emits. }
  pose proof (Hbody eq_refl) as Hb. clear Hbody. cbv zeta.
  rewrite !defer_run. cbn [fst snd].
  match goal with
  | |- context [os_Remove env path ?w'] =>
      destruct (emits_os_Remove env plain plain_refl path w') as (e5 & E5 & F5)
  end.
  rewrite E5. clear E5.
  destruct (findChecksumAsset u) as [ca|] eqn:Hca.
  - rewrite ?bind_run.
    set (w4 := snd (Println "Verifying checksum..." w3)).
    assert (Ew4 : trace w4 = EvPrint "Verifying checksum..." :: trace w3)
      by reflexivity.
    rewrite ?bind_run.
    destruct (verifyChecksum_body_plain env u path ca (Name asset) w4)
      as (vs & Ev & Fv).
    rewrite Ew4, E2 in Ev.
    set (w5 := snd (verifyChecksum env u path ca (Name asset) w4)) in *.
    destruct (fst (verifyChecksum env u path ca (Name asset) w4)) as [err|].
    + cbn [ret fst snd succeeded] in *.
      exists (e5 ++ EvLeave "verifyChecksum" false :: vs
              ++ EvEnter "verifyChecksum"
              :: EvPrint "Verifying checksum..." :: e2 ++ EvPrint line :: e1)%list.
      split; [rewrite Ev; app_norm; reflexivity|].
      split; [exact Hb|]. split; [reflexivity|].
      apply Forall_app; split; [now apply Forall_plain_quiet|].
      constructor; [intros [H|H]; discriminate H|].
      apply Forall_app; split; [now apply Forall_plain_quiet|].
      constructor; [intros [H|H]; discriminate H|].
      apply Forall_plain_quiet. auto with emits.
    + rewrite ?bind_run.
      set (w6 := snd (Println "Checksum verified." w5)).
      assert (Ew6 : trace w6 = EvPrint "Checksum verified." :: trace w5)
        by reflexivity.
      destruct (install_shape env u asset path w6) as (ins & Ei & Ri).
      rewrite Ew6, Ev in Ei.
      exists (e5 ++ ins ++ [EvPrint "Checksum verified."]
              ++ EvLeave "verifyChecksum" true :: vs
              ++ EvEnter "verifyChecksum"
              :: EvPrint "Verifying checksum..." :: e2 ++ EvPrint line :: e1)%list.
      split; [rewrite Ei; cbn [succeeded]; app_norm; reflexivity|].
      split; [exact Hb|].
      apply Exists_app. right. apply Exists_app. left.
      now apply install_run_enters.
  - destruct (install_shape env u asset path w3) as (ins & Ei & Ri).
    rewrite E2 in Ei.
    exists (e5 ++ ins ++ e2 ++ EvPrint line :: e1)%list.
    split; [rewrite Ei; app_norm; reflexivity|].
    split; [exact Hb|].
    apply Exists_app. right. apply Exists_app. left.
    now apply install_run_enters.
Qed.

(** C1. In every run of [downloadAndInstall] on a release in which a
    checksum manifest is found, each entry into an install strategy
    ([extractPortable] or [runInstaller]) comes after [verifyChecksum] has
    returned without an error; when no manifest is found, no verification
    is made.  The run ends with "failed to find download" exactly when
    [findAsset] fails and with "download failed" exactly when the download
    of the asset fails, and enters no install strategy then.  Otherwise the
    file at the download path holds the body of the response, and: with a
    manifest, [verifyChecksum] is run on that path for the asset's name,
    its error ends the run with "checksum verification failed" before any
    install strategy, and its success is followed by the entry into one;
    without a manifest the run enters an install strategy unverified. *)
Theorem install_waits_for_verification (env : Env) (u : Updater) (w : World) :
  exists evs,
    trace (snd (downloadAndInstall env u w)) = (evs ++ trace w)%list
    /\ (forall ca, findChecksumAsset u = Some ca -> guarded evs)
    /\ (findChecksumAsset u = None ->
        Forall (fun e => event_stage e <> Some "verifyChecksum") evs)
    /\ match fst (findAsset env u w) with
       | inl e =>
           fst (downloadAndInstall env u w)
           = Some (Wrap "failed to find download" e)
           /\ Forall (fun e => ~ install_entry e) evs
       | inr asset =>
           let path := filepath.Join [WorkDir (cfg u); Name asset] in
           let w2 := snd (Println ("Downloading " ++ Name asset ++ "...")
                            (snd (findAsset env u w))) in
           match fst (downloadFile env (BrowserDownloadURL asset) path w2) with
           | Some e =>
               fst (downloadAndInstall env u w)
               = Some (Wrap "download failed" e)
               /\ Forall (fun e => ~ install_entry e) evs
           | None =>
               let w3 := snd (downloadFile env (BrowserDownloadURL asset) path w2) in
               (exists body,
                  http_get env (clock w2) (BrowserDownloadURL asset)
                  = inr (200, body)
                  /\ fs w3 path = Some (File body))
               /\ match findChecksumAsset u with
                  | None => Exists install_entry evs
                  | Some ca =>
                      let w4 := snd (Println "Verifying checksum..." w3) in
                      match fst (verifyChecksum env u path ca (Name asset) w4) with
                      | Some e =>
                          fst (downloadAndInstall env u w)
                          = Some (Wrap "checksum verification failed" e)
                          /\ Forall (fun e => ~ install_entry e) evs
                      | None => Exists install_entry evs
                      end
                  end
           end
       end.
Proof.
  destruct (downloadAndInstall_shape env u w) as (evs & E & S).
  destruct (downloadAndInstall_outcome env u w) as (evs' & E' & O).
  assert (evs' = evs) as ->.
  { rewrite E in E'. now apply app_inv_tail in E'. }
  exists evs. split; [exact E|]. split; [|split; [|exact O]].
  - intros ca Hca.
    destruct S as [e Hr F | ca' e post vs pre _ _ -> Fpost Fvs Fpre
                  | ca' post ins mid vs pre _ -> Hins Fpost Fmid Fvs Fpre
                  | post ins pre Hnone _ _ _ _].
    + now apply guarded_quiet, Forall_plain_quiet.
    + apply guarded_quiet.
      apply Forall_app; split; [now apply Forall_plain_quiet|].
      constructor; [intros [H|H]; discriminate H|].
      apply Forall_app; split; [now apply Forall_plain_quiet|].
      constructor; [intros [H|H]; discriminate H | now apply Forall_plain_quiet].
    + rewrite app_assoc. apply guarded_after_verification.
      * apply Forall_app; split; [now apply Forall_plain_quiet|].
        constructor; [intros [H|H]; discriminate H|].
        apply Forall_app; split; [now apply Forall_plain_quiet|].
        constructor; [intros [H|H]; discriminate H | now apply Forall_plain_quiet].
      * apply in_or_app. right. now left.
    + rewrite Hca in Hnone. discriminate.
  - intros Hnone.
    destruct S as [e Hr F | ca' e post vs pre Hca _ _ _ _ _
                  | ca' post ins mid vs pre Hca _ _ _ _ _ _
                  | post ins pre _ -> Hins Fpost Fpre].
    + now apply plain_no_verify.
    + rewrite Hnone in Hca. discriminate.
    + rewrite Hnone in Hca. discriminate.
    + apply Forall_app; split; [now apply plain_no_verify|].
      apply Forall_app; split;
        [now apply install_run_no_verify | now apply plain_no_verify].
Qed.

Lemma install_waits_for_verification_witness :
  (exists evs,
     trace (snd (downloadAndInstall verified_env portable_updater empty_world))
     = (evs ++ [])%list
     /\ guarded evs /\ Exists install_entry evs)
  /\ (exists evs,
        trace (snd (downloadAndInstall verified_env bare_updater empty_world))
        = (evs ++ [])%list
        /\ Forall (fun e => event_stage e <> Some "verifyChecksum") evs
        /\ Exists install_entry evs).
Proof.
  split.
  - destruct (install_waits_for_verification verified_env portable_updater empty_world)
      as (evs & E & G & _ & O).
    exists evs. split; [exact E|]. split; [apply (G manifest_asset); reflexivity|].
    apply O.
  - destruct (install_waits_for_verification verified_env bare_updater empty_world)
      as (evs & E & _ & N & O).
    exists evs. split; [exact E|]. split; [apply N; reflexivity | apply O].
Defined.

(** ** Facts about strings *)

Lemma length_app (s t : string) :
  String.length (s ++ t) = String.length s + String.length t.
Proof. induction s as [|c s IH]; simpl; [reflexivity | now rewrite IH]. Qed.

Lemma app_assoc_s (s t v : string) : (s ++ t) ++ v = s ++ (t ++ v).
Proof. induction s as [|c s IH]; simpl; [reflexivity | now rewrite IH]. Qed.

Lemma drop_app (s t : string) : strings.drop (String.length s) (s ++ t) = t.
Proof. induction s as [|c s IH]; simpl; [reflexivity | assumption]. Qed.

Lemma drop_split (n : nat) (s : string) :
  exists pre, s = pre ++ strings.drop n s.
Proof.
  revert s. induction n as [|n IH]; intros s.
  - now exists "".
  - destruct s as [|c t]; [now exists ""|].
    destruct (IH t) as (pre & E). exists (String c pre). simpl. now rewrite <- E.
Qed.

Lemma HasPrefix_iff (s pre : string) :
  strings.HasPrefix s pre = true <-> exists rest, s = pre ++ rest.
Proof.
  revert s. induction pre as [|a pre IH]; intros s; simpl.
  - split; [intros _; now exists s | reflexivity].
  - destruct s as [|b s].
    + split; [discriminate | intros (rest & E); discriminate E].
    + rewrite andb_true_iff, Ascii.eqb_eq, IH. split.
      * intros (-> & rest & ->). now exists rest.
      * intros (rest & E). injection E as -> ->. split; [reflexivity | now exists rest].
Qed.

Lemma HasSuffix_iff (s suf : string) :
  strings.HasSuffix s suf = true <-> exists pre, s = pre ++ suf.
Proof.
  unfold strings.HasSuffix. rewrite andb_true_iff, Nat.leb_le, String.eqb_eq.
  split.
  - intros (_ & E).
    destruct (drop_split (String.length s - String.length suf) s) as (pre & Hs).
    exists pre. now rewrite <- E.
  - intros (pre & ->). rewrite length_app. split; [lia|].
    replace (String.length pre + String.length suf - String.length suf)
      with (String.length pre) by lia.
    apply drop_app.
Qed.



(** ** Checksum manifest *)




Lemma stage_result (fn : string) (body : M (option error)) (w : World) :
  fst (stage fn body w) = fst (body (snd (emit (EvEnter fn) w))).
Proof.
  unfold stage. rewrite bind_run. cbv beta. rewrite bind_run. cbv beta.
  rewrite bind_run. reflexivity.
Qed.







(** ** Outcome recording *)

Lemma plain_no_record (e : event) : plain e -> no_record e.
Proof. destruct e; simpl; intros H; try contradiction; auto; reflexivity. Qed.

Lemma Forall_plain_no_record (evs : list event) :
  Forall plain evs -> Forall no_record evs.
Proof. apply Forall_impl, plain_no_record. Qed.

Lemma install_run_no_record (ins : list event) :
  install_run ins -> Forall no_record ins.
Proof.
  intros (fn & b & body & pre & Hfn & -> & Fb & Fp).
  constructor; [reflexivity|].
  apply Forall_app. split; [now apply Forall_plain_no_record|].
  constructor; [|now apply Forall_plain_no_record].
  destruct Hfn as [-> | ->]; reflexivity.
Qed.

Lemma dai_no_record (u : Updater) (r : option error) (evs : list event) :
  dai_shape u r evs -> Forall no_record evs.
Proof.
  intros [e Hr F | ca e post vs pre _ _ -> Fpost Fvs Fpre
         | ca post ins mid vs pre _ -> Hins Fpost Fmid Fvs Fpre
         | post ins pre _ -> Hins Fpost Fpre];
    repeat first
      [ apply Forall_app; split
      | apply Forall_cons; [reflexivity|]
      | now apply Forall_plain_no_record
      | now apply install_run_no_record ].
Qed.

Lemma emits_downloadAndInstall (env : Env) (u : Updater) :
  emits no_record (downloadAndInstall env u).
Proof.
  intros w. destruct (downloadAndInstall_shape env u w) as (evs & E & S).
  exists evs. split; [exact E|].
  now apply dai_no_record with (u := u) (r := fst (downloadAndInstall env u w)).
Qed.

Lemma LogEntry_shape (env : Env) (c : Config) (key value : string) (w : World) :
  exists before ok r,
    trace (snd (LogEntry env c key value w))
    = EvCall (CWriteFile (ConfigFile c)
                (strings.Join (log_lines key value before) LF)) ok
      :: EvCall (CReadFile (ConfigFile c)) r :: trace w
    /\ succeeded (fst (LogEntry env c key value w)) = ok.
Proof.
  unfold LogEntry, bind, os_ReadFile, os_WriteFile, syscall, ret.
  destruct (fault env (clock w) (CReadFile (ConfigFile c))); cbn [clock fs trace].
  - destruct (fault env _ _); cbn; eexists _, _, _; split; reflexivity.
  - destruct (fs w (ConfigFile c)) as [[data|]|]; cbn [clock fs trace];
      destruct (fault env _ _); cbn; eexists _, _, _; split; reflexivity.
Qed.

Lemma logResult_shape (env : Env) (u : Updater) (result : string) (w : World) :
  exists logged,
    trace (snd (logResult env u result w)) = (logged ++ trace w)%list
    /\ recorded (ConfigFile (cfg u)) result logged.
Proof.
  unfold logResult. rewrite bind_run. cbn [emit fst snd].
  rewrite bind_run. cbn [time_Now fst snd]. rewrite bind_run. cbv beta.
  rewrite bind_run. cbn [ret snd].
  match goal with
  | |- context [LogEntry env (cfg u) "LastRun" ?ts ?w0] =>
      destruct (LogEntry_shape env (cfg u) "LastRun" ts w0)
        as (b1 & ok1 & r1 & E1 & _);
      set (w1 := snd (LogEntry env (cfg u) "LastRun" ts w0)) in *;
      pose (stamp := ts)
  end.
  destruct (LogEntry_shape env (cfg u) "LastResult" result w1)
    as (b2 & ok2 & r2 & E2 & _).
  rewrite E2, E1. cbn [trace].
  eexists. split.
  - change (?a :: ?b :: ?c :: ?d :: ?e :: trace w)
      with ([a; b; c; d; e] ++ trace w)%list. reflexivity.
  - exists stamp, b1, b2, ok1, ok2, r1, r2. reflexivity.
Qed.

Lemma follows_bind {A : Type} (P : option error -> list event -> Prop)
    (m : M A) (k : A -> M (option error)) :
  emits no_record m ->
  (forall a, follows P (k a)) ->
  (forall r evs old, P r evs -> Forall no_record old -> P r (evs ++ old)%list) ->
  follows P (bind m k).
Proof.
  intros Hm Hk Hold w. rewrite bind_run.
  destruct (Hm w) as (old & Eold & Fold).
  destruct (Hk (fst (m w)) (snd (m w))) as (evs & E & HP).
  exists (evs ++ old)%list. split.
  - rewrite E, Eold. now rewrite app_assoc.
  - now apply Hold.
Qed.

Lemma run_shape_older (c : Config) (o : Options) (r : option error)
    (evs old : list event) :
  run_shape c o r evs -> Forall no_record old -> run_shape c o r (evs ++ old).
Proof.
  intros [e Hr F | Hr Hco F | result logged pre Hr -> Hrec Fpre Hres] Fold.
  - apply run_aborted with e; [assumption | apply Forall_app; now split].
  - apply run_check_only; [assumption | assumption | apply Forall_app; now split].
  - apply run_recorded with result logged (pre ++ old)%list; auto.
    + now rewrite app_assoc.
    + apply Forall_app; now split.
Qed.

Lemma follows_abort (c : Config) (o : Options) (e : error) :
  follows (run_shape c o) (ret (Some e)).
Proof.
  intros w. exists []. split; [reflexivity|].
  apply run_aborted with e; [reflexivity | constructor].
Qed.

Lemma follows_logResult (env : Env) (c : Config) (o : Options) (r : Release)
    (result : string) :
  result = "No new version found"
  \/ (CheckOnly o = false
      /\ exists cur new, result = "Updated from " ++ cur ++ " to " ++ new) ->
  follows (run_shape c o)
          (logResult env (mkUpdater c o r) result ;;; ret None).
Proof.
  intros Hres w. rewrite bind_run. cbn [ret fst snd].
  destruct (logResult_shape env (mkUpdater c o r) result w) as (logged & E & Hrec).
  exists logged. split; [exact E|].
  apply run_recorded with result logged []; auto.
  now rewrite app_nil_r.
Qed.

#[export] Hint Resolve plain_no_record : emits.

Lemma no_record_print (line : string) : no_record (EvPrint line).
Proof. reflexivity. Qed.

#[export] Hint Resolve no_record_print : emits.

Ltac run_step :=
  match goal with
  | |- follows _ (bind _ _) =>
      apply follows_bind;
      [ try solve [emits_walk] | intros ? | apply run_shape_older ]
  | |- follows _ (ret (Some _)) => apply follows_abort
  end.

Lemma Run_shape (env : Env) (c : Config) (o : Options) :
  follows (run_shape c o) (Run env c o).
Proof.
  unfold Run.
  do 3 run_step.
  destruct a1 as [e|]; [run_step|].
  do 4 run_step.
  destruct a4 as [e|r]; [run_step|].
  run_step.
  destruct (negb (isNewerVersion _ _)).
  - run_step. apply follows_logResult. now left.
  - run_step. destruct (CheckOnly o) eqn:Hco.
    + run_step. intros w. exists []. split; [reflexivity|].
      apply run_check_only; [reflexivity | assumption | constructor].
    + apply follows_bind;
        [apply emits_downloadAndInstall | intros d | apply run_shape_older].
      destruct d as [e|]; [run_step|].
      run_step. apply follows_logResult. right. split; [assumption|].
      eexists _, _. reflexivity.
Qed.







(** The two scenarios of the specification, run on the model: an unknown
    current version and a portable archive without a manifest end with
    [LastResult=Updated from 0.0.0 to 2.0.0] in the configuration file; a
    current version equal to the latest ends with
    [LastResult=No new version found], and no asset is fetched. *)
Example update_is_recorded :
  let run := Run verified_env sample_cfg (sample_opts true false) empty_world in
  fst run = None
  /\ fs (snd run) (ConfigFile sample_cfg)
     = Some (File (LF ++ "[Log]" ++ LF ++ "LastRun=2024-01-01 12:00:00" ++ LF
                   ++ "LastResult=Updated from 0.0.0 to 2.0.0" ++ LF)).
Proof. split; reflexivity. Qed.

Example no_update_is_recorded :
  let run := Run verified_env installed_cfg (sample_opts false false)
                 installed_world in
  fst run = None
  /\ fs (snd run) (ConfigFile installed_cfg)
     = Some (File (LF ++ "[Log]" ++ LF ++ "LastRun=2024-01-01 12:00:00" ++ LF
                   ++ "LastResult=No new version found" ++ LF))
  /\ existsb (fun e => match e with
                       | EvCall (CHttpGet url) _ =>
                           String.eqb url (BrowserDownloadURL portable_zip)
                       | _ => false
                       end) (trace (snd run)) = false.
Proof. repeat split. Qed.

(** C9, as stated, fails: with a configuration file that cannot be
    written, both calls of [os.WriteFile] fail, [LogEntry] returns the
    error, and [Run] still reports success. *)
Lemma failed_log_write_is_not_reported :
  let run := Run readonly_env installed_cfg (sample_opts false false)
                 installed_world in
  fst run = None
  /\ writes (trace (snd run))
     = [ EvCall (CWriteFile (ConfigFile installed_cfg)
                   (LF ++ "[Log]" ++ LF ++ "LastResult=No new version found" ++ LF))
                false;
         EvCall (CWriteFile (ConfigFile installed_cfg)
                   (LF ++ "[Log]" ++ LF ++ "LastRun=2024-01-01 12:00:00" ++ LF))
                false ]
  /\ fst (LogEntry readonly_env installed_cfg "LastResult" "No new version found"
            installed_world) = Some (SysError 30).
Proof. repeat split. Qed.

Lemma no_record_not_record (evs : list event) :
  Forall no_record evs -> ~ Exists (fun e => is_record e = true) evs.
Proof.
  intros F H. apply Exists_exists in H as (e & Hin & He).
  rewrite Forall_forall in F. specialize (F e Hin). unfold no_record in F.
  rewrite F in He. discriminate.
Qed.

(** C9, amended. [LogEntry] returns an error exactly when its write of the
    configuration file fails, and [logResult] drops what [LogEntry]
    returns: every run of [Run] that reaches outcome logging, or writes the
    configuration file at all, returns success, whether the writes succeed
    or fail. *)
Theorem log_failure_is_dropped (env : Env) (c : Config) (o : Options) (w : World) :
  (forall key value w1,
     exists before ok r,
       trace (snd (LogEntry env c key value w1))
       = EvCall (CWriteFile (ConfigFile c)
                   (strings.Join (log_lines key value before) LF)) ok
         :: EvCall (CReadFile (ConfigFile c)) r :: trace w1
       /\ succeeded (fst (LogEntry env c key value w1)) = ok)
  /\ (exists evs,
        trace (snd (Run env c o w)) = (evs ++ trace w)%list
        /\ (Exists (fun e => is_record e = true) evs ->
            fst (Run env c o w) = None)).
Proof.
  split; [intros key value w1; apply LogEntry_shape|].
  destruct (Run_shape env c o w) as (evs & E & S).
  exists evs. split; [exact E|]. intros Hex.
  destruct S as [e Hr F | Hr Hco F | result logged pre Hr _ _ _ _].
  - elim (no_record_not_record evs F Hex).
  - assumption.
  - assumption.
Qed.

Lemma log_failure_is_dropped_witness :
  fst (Run readonly_env installed_cfg (sample_opts false false) installed_world)
  = None.
Proof.
  destruct (log_failure_is_dropped readonly_env installed_cfg
              (sample_opts false false) installed_world)
    as (_ & evs & E & H).
  apply H. rewrite app_nil_r in E.
  apply Exists_exists.
  assert (Hb : existsb is_record evs = true)
    by (rewrite <- E; vm_compute; reflexivity).
  apply existsb_exists in Hb as (e & Hin & He). exists e. split; assumption.
Defined.

(** ** Path safety of extraction *)

Lemma inside_iff (dest fpath : string) :
  inside dest fpath = true <-> within_boundary dest fpath.
Proof.
  unfold inside, within_boundary. rewrite HasPrefix_iff.
  split; intros (rest & E); exists rest; rewrite E;
    [apply app_assoc_s | symmetry; apply app_assoc_s].
Qed.

Lemma outside_not_inside (dest fpath : string) :
  ~ within_boundary dest fpath -> inside dest fpath = false.
Proof.
  intros H. apply not_true_is_false. intros E. now apply H, inside_iff.
Qed.

(** Nothing of an entry outside the destination, or of the entries after
    it, is extracted: the loop ends as it does on the entries before it,
    with their error if they had one and the path-safety error if not. *)
Lemma unzip_files_stops (env : Env) (dest : string) (pre post : list ZipFile)
    (f : ZipFile) :
  inside dest (filepath.Join [dest; zName f]) = false ->
  forall w,
    unzip_files env dest (pre ++ f :: post) w
    = (match fst (unzip_files env dest pre w) with
       | Some e => Some e
       | None => Some (Errorf ("illegal file path: "
                               ++ filepath.Join [dest; zName f]))
       end,
       snd (unzip_files env dest pre w)).
Proof.
  intros Hout. induction pre as [|g pre IH]; intros w.
  - cbn [app unzip_files]. rewrite Hout. reflexivity.
  - cbn [app unzip_files].
    destruct (negb (inside dest (filepath.Join [dest; zName g]))); [reflexivity|].
    destruct (zIsDir g).
    + rewrite !bind_run. apply IH.
    + rewrite !bind_run.
      destruct (fst (os_MkdirAll env _ w)); [reflexivity|].
      rewrite !bind_run.
      destruct (fst (os_OpenFile env _ _ _)); [reflexivity|].
      rewrite !bind_run.
      destruct (fst (zip_Open env g _)); [reflexivity|].
      rewrite !bind_run.
      destruct (fst (io_Copy env _ _ _)); [reflexivity|].
      apply IH.
Qed.

Lemma unzip_files_unsafe (env : Env) (dest : string) (files : list ZipFile)
    (w : World) :
  (exists f, In f files /\ ~ within_boundary dest (filepath.Join [dest; zName f])) ->
  fst (unzip_files env dest files w) <> None.
Proof.
  intros (f & Hin & Hout).
  apply in_split in Hin as (pre & post & ->).
  rewrite (unzip_files_stops env dest pre post f (outside_not_inside _ _ Hout)).
  cbn [fst]. now destruct (fst (unzip_files env dest pre w)).
Qed.

Lemma zip_OpenReader_decoded (env : Env) (src : string) (w : World)
    (files : list ZipFile) :
  fst (zip_OpenReader env src w) = inr files ->
  exists data, zip_decode env data = Some files.
Proof.
  unfold zip_OpenReader, syscall.
  destruct (fault env (clock w) (CZipOpen src)); [discriminate|].
  destruct (fs w src) as [[data|]|]; try discriminate.
  destruct (zip_decode env data) as [fs'|] eqn:E; [|discriminate].
  cbn. intros H. injection H as <-. now exists data.
Qed.

Lemma unzip_unsafe (env : Env) (src dest : string) (w : World) :
  (forall data files, zip_decode env data = Some files ->
     exists f, In f files
               /\ ~ within_boundary dest (filepath.Join [dest; zName f])) ->
  fst (unzip env src dest w) <> None.
Proof.
  intros H. unfold unzip. rewrite bind_run.
  destruct (fst (zip_OpenReader env src w)) as [e|files] eqn:E; [discriminate|].
  apply zip_OpenReader_decoded in E as (data & Hd).
  apply unzip_files_unsafe. exact (H data files Hd).
Qed.

Lemma stage_world (fn : string) (body : M (option error)) (w : World) :
  snd (stage fn body w)
  = let w1 := snd (body (snd (emit (EvEnter fn) w))) in
    mkWorld (fs w1) (clock w1)
            (EvLeave fn (succeeded (fst (body (snd (emit (EvEnter fn) w)))))
             :: trace w1).
Proof.
  unfold stage. rewrite bind_run. cbv beta. rewrite bind_run. cbv beta.
  rewrite bind_run. reflexivity.
Qed.

Lemma os_RemoveAll_cases (env : Env) (p : string) (w : World) :
  (exists e,
     os_RemoveAll env p w
     = (inl e, mkWorld (fs w) (S (clock w))
                       (EvCall (CRemoveAll p) false :: trace w)))
  \/ os_RemoveAll env p w
     = (inr tt, mkWorld (fs_remove_tree p (fs w)) (S (clock w))
                        (EvCall (CRemoveAll p) true :: trace w)).
Proof.
  unfold os_RemoveAll, syscall.
  destruct (fault env (clock w) (CRemoveAll p)) as [e|];
    [left; now exists e | right; reflexivity].
Qed.

Lemma os_MkdirAll_failed (env : Env) (p : string) (w : World) (e : error) :
  fst (os_MkdirAll env p w) = inl e -> fs (snd (os_MkdirAll env p w)) = fs w.
Proof.
  unfold os_MkdirAll, syscall.
  destruct (fault env (clock w) (CMkdirAll p)); [reflexivity|].
  destruct (fs w p) as [[data|]|]; cbn; intros H; try discriminate; reflexivity.
Qed.

Lemma removed_tree_gone (p : string) (f : FS) (q : string) :
  under p q = true -> fs_remove_tree p f q = None.
Proof. unfold fs_remove_tree. now intros ->. Qed.

(** At every way out of [extractPortable] the staging directory is gone,
    unless the call that removes it was the last call made and failed. *)
Lemma extractPortable_cleans_up (env : Env) (u : Updater) (zipPath : string)
    (w : World) :
  let w' := snd (extractPortable env u zipPath w) in
  staging_gone (cfg u) w'
  \/ exists b rest,
       trace w'
       = EvLeave "extractPortable" b
         :: EvCall (CRemoveAll (extract_dir (cfg u))) false :: rest.
Proof.
  unfold extractPortable. rewrite stage_world.
  set (w0 := snd (emit (EvEnter "extractPortable") w)).
  cbv zeta. unfold staging_gone. cbn [fs trace].
  rewrite !bind_run with (m := GetBrowserPath env (cfg u)).
  set (wa := snd (GetBrowserPath env (cfg u) w0)).
  set (dir := extract_dir (cfg u)).
  rewrite !bind_run with (m := os_RemoveAll env dir).
  destruct (os_RemoveAll_cases env dir wa) as [(e & E) | E]; rewrite E;
    cbn [fst snd ret fs trace].
  { right. eexists _, _. reflexivity. }
  set (wb := mkWorld (fs_remove_tree dir (fs wa)) (S (clock wa))
                     (EvCall (CRemoveAll dir) true :: trace wa)).
  rewrite !bind_run with (m := os_MkdirAll env dir).
  destruct (fst (os_MkdirAll env dir wb)) as [e|[]] eqn:Em.
  { cbn [ret snd]. left. intros q Hq.
    rewrite (os_MkdirAll_failed env dir wb e Em). cbn [wb fs].
    now apply removed_tree_gone. }
  rewrite !defer_run. cbn [snd fst].
  match goal with
  | |- context [os_RemoveAll env dir ?wc] =>
      destruct (os_RemoveAll_cases env dir wc) as [(e & E') | E']; rewrite E'
  end; cbn [snd fs trace].
  - right. eexists _, _. reflexivity.
  - left. intros q Hq. now apply removed_tree_gone.
Qed.

(** On an archive with an entry outside the staging directory,
    [extractPortable] fails: while the staging directory is set up, or
    with "extraction failed". *)
Lemma extractPortable_unsafe (env : Env) (u : Updater) (zipPath : string)
    (w : World) :
  (forall data files, zip_decode env data = Some files ->
     exists f, In f files
               /\ ~ within_boundary (extract_dir (cfg u))
                    (filepath.Join [extract_dir (cfg u); zName f])) ->
  exists e,
    fst (extractPortable env u zipPath w)
    = Some (Wrap "failed to clean extract directory" e)
    \/ fst (extractPortable env u zipPath w)
       = Some (Wrap "failed to create extract directory" e)
    \/ fst (extractPortable env u zipPath w)
       = Some (Wrap "extraction failed" e).
Proof.
  intros Hbad. unfold extractPortable. rewrite stage_result.
  set (w0 := snd (emit (EvEnter "extractPortable") w)).
  rewrite bind_run. cbv zeta.
  set (wa := snd (GetBrowserPath env (cfg u) w0)).
  set (dir := extract_dir (cfg u)) in *.
  rewrite bind_run.
  destruct (fst (os_RemoveAll env dir wa)) as [e|[]].
  { exists e. now left. }
  rewrite bind_run.
  destruct (fst (os_MkdirAll env dir _)) as [e|[]].
  { exists e. right. now left. }
  rewrite defer_run. cbn [fst]. rewrite bind_run.
  match goal with
  | |- context [unzip env zipPath dir ?wc] =>
      pose proof (unzip_unsafe env zipPath dir wc Hbad) as Hz;
      destruct (fst (unzip env zipPath dir wc)) as [e|]
  end.
  - exists e. right. now right.
  - now elim Hz.
Qed.

(** C3, as stated, fails in two ways.  When creating the file of an earlier
    entry fails, [unzip] returns that error and not the path-safety error,
    although a later entry leaves the destination.  When the staging
    directory of an earlier run cannot be removed, [extractPortable]
    returns at once and the directory is still there. *)
Lemma zip_slip_other_outcomes :
  inside "/tmp/x" (filepath.Join ["/tmp/x"; "../evil.txt"]) = false
  /\ zip_decode flaky_env "PK" = Some slip_files
  /\ fst (unzip flaky_env "/tmp/app.zip" "/tmp/x" stale_world)
     = Some (SysError 13)
  /\ fst (extractPortable stuck_env portable_updater "/tmp/app.zip" stale_world)
     = Some (Wrap "failed to clean extract directory" (SysError 16))
  /\ fs (snd (extractPortable stuck_env portable_updater "/tmp/app.zip"
                stale_world))
        (extract_dir (cfg portable_updater))
     = Some Directory.
Proof. repeat split. Qed.

(** C3, amended. If the target path of an entry, joined to the destination
    directory, is not below the cleaned destination directory, [unzip]
    fails the whole extraction: nothing of that entry or of a later one is
    extracted, and the error is the path-safety error unless extracting an
    earlier entry had failed already.  [extractPortable] then fails, while
    setting up the staging directory or with "extraction failed"; and on
    every way out of [extractPortable] the staging directory is gone,
    unless the call removing it was the last one made and failed. *)
Theorem zip_slip_is_refused
    (env : Env) (u : Updater) (zipPath dest : string)
    (pre post : list ZipFile) (f : ZipFile) (w : World) :
  (~ within_boundary dest (filepath.Join [dest; zName f]) ->
   unzip_files env dest (pre ++ f :: post) w
   = (match fst (unzip_files env dest pre w) with
      | Some e => Some e
      | None => Some (Errorf ("illegal file path: "
                              ++ filepath.Join [dest; zName f]))
      end,
      snd (unzip_files env dest pre w)))
  /\ ((forall data files, zip_decode env data = Some files ->
         exists g, In g files
                   /\ ~ within_boundary dest (filepath.Join [dest; zName g])) ->
      fst (unzip env zipPath dest w) <> None)
  /\ ((forall data files, zip_decode env data = Some files ->
         exists g, In g files
                   /\ ~ within_boundary (extract_dir (cfg u))
                        (filepath.Join [extract_dir (cfg u); zName g])) ->
      exists e,
        fst (extractPortable env u zipPath w)
        = Some (Wrap "failed to clean extract directory" e)
        \/ fst (extractPortable env u zipPath w)
           = Some (Wrap "failed to create extract directory" e)
        \/ fst (extractPortable env u zipPath w)
           = Some (Wrap "extraction failed" e))
  /\ (staging_gone (cfg u) (snd (extractPortable env u zipPath w))
      \/ exists b rest,
           trace (snd (extractPortable env u zipPath w))
           = EvLeave "extractPortable" b
             :: EvCall (CRemoveAll (extract_dir (cfg u))) false :: rest).
Proof.
  split; [|split; [|split]].
  - intros Hout. apply unzip_files_stops. now apply outside_not_inside.
  - apply unzip_unsafe.
  - apply extractPortable_unsafe.
  - apply extractPortable_cleans_up.
Qed.

Lemma evil_entry_outside :
  ~ within_boundary "/tmp/Noraneko-Extracted"
      (filepath.Join ["/tmp/Noraneko-Extracted"; "../evil.txt"]).
Proof.
  intros H. apply inside_iff in H. vm_compute in H. discriminate H.
Qed.

Lemma zip_slip_is_refused_witness :
  unzip_files slip_env "/tmp/Noraneko-Extracted"
    ([mkZipFile "readme.txt" false 420 "hello"]
     ++ mkZipFile "../evil.txt" false 420 "gotcha" :: []) stale_world
  = (match fst (unzip_files slip_env "/tmp/Noraneko-Extracted"
                  [mkZipFile "readme.txt" false 420 "hello"] stale_world) with
     | Some e => Some e
     | None => Some (Errorf ("illegal file path: "
                             ++ filepath.Join ["/tmp/Noraneko-Extracted";
                                               "../evil.txt"]))
     end,
     snd (unzip_files slip_env "/tmp/Noraneko-Extracted"
            [mkZipFile "readme.txt" false 420 "hello"] stale_world)).
Proof.
  exact (proj1 (zip_slip_is_refused slip_env portable_updater "/tmp/app.zip"
                  "/tmp/Noraneko-Extracted"
                  [mkZipFile "readme.txt" false 420 "hello"] []
                  (mkZipFile "../evil.txt" false 420 "gotcha") stale_world)
               evil_entry_outside).
Defined.

(** On the archive of [slip_files] and with nothing failing, the error is
    the path-safety error, and the staging directory is gone afterwards. *)
Example slip_is_reported :
  fst (extractPortable slip_env portable_updater "/tmp/app.zip" stale_world)
  = Some (Wrap "extraction failed" (Errorf "illegal file path: /tmp/evil.txt"))
  /\ fs (snd (extractPortable slip_env portable_updater "/tmp/app.zip" stale_world))
        "/tmp/Noraneko-Extracted/readme.txt" = None
  /\ fs (snd (extractPortable slip_env portable_updater "/tmp/app.zip" stale_world))
        "/tmp/evil.txt" = None.
Proof. repeat split. Qed.

(** The suffix test of a manifest record compares bytes: a record in upper
    case is not taken for a lower-case target unless the whole name matches
    up to case. *)
Example suffix_match_is_byte_exact :
  record_matches "*dist/APP.ZIP" "app.zip" = false
  /\ record_matches "*APP.ZIP" "app.zip" = true
  /\ record_matches "*dist/app.zip" "app.zip" = true.
Proof. repeat split. Qed.

(** * Further properties of the code *)

(** ** Extraction stays inside the destination *)

Lemma unzip_files_calls (env : Env) (src dest : string) (files : list ZipFile) :
  emits (only_calls (unzip_call src dest)) (unzip_files env dest files).
Proof.
  induction files as [|f rest IH]; cbn [unzip_files]; [apply emits_ret|].
  destruct (inside dest (filepath.Join [dest; zName f])) eqn:Hin;
    cbn [negb]; [|apply emits_ret].
  destruct (zIsDir f).
  - apply emits_bind; [|intros _; exact IH].
    apply emits_syscall. intros b. cbn. now left.
  - apply emits_bind.
    { apply emits_syscall. intros b. cbn. right.
      now exists (filepath.Join [dest; zName f]). }
    intros [e|[]]; [apply emits_ret|].
    apply emits_bind; [apply emits_syscall; intros b; exact Hin|].
    intros [e|[]]; [apply emits_ret|].
    apply emits_bind; [apply emits_syscall; intros b; exact I|].
    intros [e|data]; [apply emits_ret|].
    apply emits_bind; [apply emits_syscall; intros b; exact Hin|].
    intros [e|[]]; [apply emits_ret | exact IH].
Qed.

(** X1. Whatever the archive holds and whatever fails, [unzip] creates
    files and directories only at target paths that passed the test against
    the destination: every call it makes opens the archive or one of its
    members, or creates a directory or file at a path for which [inside]
    holds (for a file entry, also the directory of such a path). *)
Theorem unzip_stays_inside (env : Env) (src dest : string) (w : World) :
  exists evs,
    trace (snd (unzip env src dest w)) = (evs ++ trace w)%list
    /\ Forall (only_calls (unzip_call src dest)) evs.
Proof.
  revert w. change (emits (only_calls (unzip_call src dest)) (unzip env src dest)).
  unfold unzip. apply emits_bind.
  - apply emits_syscall. intros b. reflexivity.
  - intros [e|files]; [apply emits_ret | apply unzip_files_calls].
Qed.

(** ** What a download leaves behind *)

(** X2. [downloadFile] touches no path but its destination.  It returns nil
    only when the response was a 200, and the destination then holds
    exactly the response body; on any other status it returns "download
    returned status N" and the destination is as it was before. *)
Theorem downloadFile_outcome (env : Env) (url path : string) (w : World) :
  let r := fst (downloadFile env url path w) in
  let w' := snd (downloadFile env url path w) in
  (forall q, q <> path -> fs w' q = fs w q)
  /\ (r = None ->
      exists body,
        http_get env (clock w) url = inr (200, body)
        /\ fs w' path = Some (File body))
  /\ (forall status body,
        http_get env (clock w) url = inr (status, body) ->
        status <> 200 ->
        r = Some (Errorf ("download returned status " ++ fmt_d status))
        /\ fs w' path = fs w path).
Proof.
  intros r w'.
  destruct (downloadFile_effect env url path w) as (Hother & Hnone & Hstatus).
  split; [exact Hother|]. split; [exact Hnone | exact Hstatus].
Qed.

Lemma downloadFile_outcome_witness :
  exists body,
    http_get quiet_env 0 "https://example.com/app.zip" = inr (200, body)
    /\ fs (snd (downloadFile quiet_env "https://example.com/app.zip"
                  "/tmp/app.zip" empty_world)) "/tmp/app.zip"
       = Some (File body).
Proof.
  exact (proj1 (proj2 (downloadFile_outcome quiet_env "https://example.com/app.zip"
                         "/tmp/app.zip" empty_world)) eq_refl).
Defined.



(** ** Checksum verification *)


Lemma os_Open_ok (env : Env) (p : string) (w : World) (data : string) :
  fst (os_Open env p w) = inr data ->
  fs w p = Some (File data) /\ fs (snd (os_Open env p w)) = fs w.
Proof.
  unfold os_Open.
  match goal with
  | |- context [syscall env (COpen p) ?sem w] =>
      destruct (syscall_cases env (COpen p) sem w)
        as [(e & _ & E) | (_ & E)]; rewrite E; cbn [fst snd fs]
  end; [discriminate|].
  destruct (fs w p) as [[d|]|]; cbn [fst snd]; try discriminate.
  intros H. injection H as <-. now split.
Qed.





(** ** Computations that make only certain calls *)

Section RestrictedCalls.

Variable env : Env.
Variable allowed : call -> Prop.

Lemma oc_Println (line : string) : emits (only_calls allowed) (Println line).
Proof. apply emits_emit. exact I. Qed.

Lemma oc_Stat (p : string) :
  allowed (CStat p) -> emits (only_calls allowed) (os_Stat env p).
Proof. intros H. apply emits_syscall. intros b. exact H. Qed.

Lemma oc_ReadFile (p : string) :
  allowed (CReadFile p) -> emits (only_calls allowed) (os_ReadFile env p).
Proof. intros H. apply emits_syscall. intros b. exact H. Qed.

Lemma oc_WriteFile (p data : string) :
  allowed (CWriteFile p data) ->
  emits (only_calls allowed) (os_WriteFile env p data).
Proof. intros H. apply emits_syscall. intros b. exact H. Qed.

Lemma oc_http_Get (url : string) :
  allowed (CHttpGet url) -> emits (only_calls allowed) (http_Get env url).
Proof. intros H. apply emits_http_Get. intros b. exact H. Qed.

Lemma oc_exec_Run (cmd : string) (args : list string) :
  allowed (CExec cmd args) -> emits (only_calls allowed) (exec_Run env cmd args).
Proof. intros H. apply emits_syscall. intros b. exact H. Qed.

Hypothesis stats_allowed : forall p, allowed (CStat p).

Lemma oc_first_existing (paths : list string) :
  emits (only_calls allowed) (first_existing env paths).
Proof.
  induction paths as [|p rest IH]; cbn [first_existing]; [apply emits_ret|].
  apply emits_bind; [apply oc_Stat, stats_allowed|].
  intros r. destruct (is_ok r); [apply emits_ret | exact IH].
Qed.

Lemma oc_GetBrowserPath (c : Config) :
  emits (only_calls allowed) (GetBrowserPath env c).
Proof.
  unfold GetBrowserPath.
  destruct (negb (String.eqb (Path c) "")); [apply emits_ret|].
  apply emits_bind; [apply oc_Stat, stats_allowed|].
  intros r. apply oc_first_existing.
Qed.

Lemma oc_IsPortable (c : Config) : emits (only_calls allowed) (IsPortable env c).
Proof.
  unfold IsPortable. apply emits_bind; [apply oc_Stat, stats_allowed|].
  intros r. apply emits_ret.
Qed.

Hypothesis reads_allowed : forall p, allowed (CReadFile p).

Lemma oc_getCurrentVersion (c : Config) :
  emits (only_calls allowed) (getCurrentVersion env c).
Proof.
  unfold getCurrentVersion.
  apply emits_bind; [apply oc_GetBrowserPath|]. intros bp.
  destruct (String.eqb bp ""); [apply emits_ret|].
  apply emits_bind; [apply oc_ReadFile, reads_allowed|]. intros ini.
  destruct (match ini with inl _ => None | inr data => _ end);
    [apply emits_ret|].
  apply emits_bind; [apply oc_ReadFile, reads_allowed|].
  intros [e|data]; apply emits_ret.
Qed.

Lemma oc_LogEntry (c : Config) (key value : string) :
  (forall data, allowed (CWriteFile (ConfigFile c) data)) ->
  emits (only_calls allowed) (LogEntry env c key value).
Proof.
  intros Hw. unfold LogEntry.
  apply emits_bind; [apply oc_ReadFile, reads_allowed|]. intros r.
  apply emits_bind; [apply oc_WriteFile, Hw|]. intros r'. apply emits_ret.
Qed.

End RestrictedCalls.

(** ** The installer *)

Lemma exec_Run_cases (env : Env) (cmd : string) (args : list string) (w : World) :
  exists r,
    exec_Run env cmd args w
    = (r, mkWorld (fs w) (S (clock w))
                  (EvCall (CExec cmd args) (is_ok r) :: trace w)).
Proof.
  unfold exec_Run.
  match goal with
  | |- context [syscall env ?c ?sem w] =>
      destruct (syscall_cases env c sem w)
        as [(e & _ & E) | (_ & E)]; rewrite E
  end.
  - now exists (inl e).
  - now exists (inr tt).
Qed.

(** X6. [runInstaller] looks for the browser with [os.Stat] and then runs
    the installer once in silent mode ([/S]); only when that run fails does
    it run the same installer once more, without [/S] and for the same
    target directory.  There is no third run, and the result is that of
    the last run made. *)
Theorem runInstaller_retries_once (env : Env) (u : Updater) (setupPath : string)
    (w : World) :
  let r := fst (runInstaller env u setupPath w) in
  let w' := snd (runInstaller env u setupPath w) in
  exists stats dir,
    Forall (only_calls is_stat) stats
    /\ (r = None
        /\ trace w'
           = (EvLeave "runInstaller" true
              :: EvCall (CExec setupPath ["/S"; String.append "/D=" dir]) true
              :: stats ++ EvEnter "runInstaller" :: trace w)%list
        \/ exists ok,
             succeeded r = ok
             /\ trace w'
                = (EvLeave "runInstaller" ok
                   :: EvCall (CExec setupPath [String.append "/D=" dir]) ok
                   :: EvPrint "Silent installation failed, running interactive installer..."
                   :: EvCall (CExec setupPath ["/S"; String.append "/D=" dir]) false
                   :: stats ++ EvEnter "runInstaller" :: trace w)%list).
Proof.
  intros r w'. subst r w'. unfold runInstaller.
  rewrite stage_world, stage_result.
  set (w0 := snd (emit (EvEnter "runInstaller") w)). cbv zeta.
  rewrite !bind_run with (m := GetBrowserPath env (cfg u)).
  destruct (oc_GetBrowserPath env is_stat (fun _ => I) (cfg u) w0)
    as (stats & Es & Fs).
  set (wa := snd (GetBrowserPath env (cfg u) w0)) in *.
  match goal with
  | |- context [exec_Run env setupPath ["/S"; String.append "/D=" ?d]] => set (dir := d)
  end.
  exists stats, dir. split; [exact Fs|].
  rewrite !bind_run with (m := exec_Run env setupPath ["/S"; String.append "/D=" dir]).
  destruct (exec_Run_cases env setupPath ["/S"; String.append "/D=" dir] wa) as (r1 & E1).
  rewrite E1. cbn [fst snd].
  destruct r1 as [e|[]]; cbn [is_ok].
  - right. rewrite !bind_run with (m := Println _). cbn [Println emit fst snd].
    rewrite !bind_run with (m := exec_Run env setupPath [String.append "/D=" dir]).
    match goal with
    | |- context [exec_Run env setupPath [String.append "/D=" dir] ?wb] =>
        destruct (exec_Run_cases env setupPath [String.append "/D=" dir] wb) as (r2 & E2)
    end.
    rewrite E2. cbn [fst snd ret trace fs clock].
    exists (is_ok r2). split; [now destruct r2|].
    rewrite Es. now destruct r2.
  - left. cbn [ret fst snd trace succeeded]. split; [reflexivity|].
    now rewrite Es.
Qed.

(** ** A run that only checks *)

Lemma emits_mono {A : Type} (Q Q' : event -> Prop) (m : M A) :
  (forall e, Q e -> Q' e) -> emits Q m -> emits Q' m.
Proof.
  intros H Hm w. destruct (Hm w) as (evs & E & F).
  exists evs. split; [assumption|]. eapply Forall_impl; eassumption.
Qed.

Lemma probe_calls {A : Type} (c : Config) (m : M A) :
  emits (only_calls (probing c)) m -> emits (probe_event c) m.
Proof. apply emits_mono. intros e H. now left. Qed.

Lemma probe_Println (c : Config) (line : string) :
  emits (probe_event c) (Println line).
Proof. apply probe_calls, oc_Println. Qed.

Lemma probe_logResult (env : Env) (c : Config) (o : Options) (r : Release)
    (result : string) :
  emits (probe_event c) (logResult env (mkUpdater c o r) result).
Proof.
  unfold logResult.
  apply emits_bind; [apply emits_emit; now right|]. intros _.
  apply emits_bind; [apply emits_time_Now|]. intros ts.
  apply emits_bind.
  { apply probe_calls, oc_LogEntry; intros; cbn; auto. }
  intros _. apply emits_bind.
  { apply probe_calls, oc_LogEntry; intros; cbn; auto. }
  intros _. apply emits_ret.
Qed.

(** X7. In check-only mode [Run] downloads nothing, extracts nothing, runs
    no installer and removes nothing: all it does is print, GET the probe
    URL and the latest-release URL, look at files with [os.Stat] and
    [os.ReadFile], and (when the installed version is already the latest)
    write the outcome to its configuration file. *)
Theorem check_only_run_only_looks (env : Env) (c : Config) (o : Options)
    (w : World) :
  CheckOnly o = true ->
  exists evs,
    trace (snd (Run env c o w)) = (evs ++ trace w)%list
    /\ Forall (probe_event c) evs.
Proof.
  intros Hco. revert w. change (emits (probe_event c) (Run env c o)).
  unfold Run.
  apply emits_bind; [apply probe_Println|]. intros _.
  apply emits_bind; [apply probe_Println|]. intros _.
  apply emits_bind.
  { apply probe_calls. unfold checkConnection.
    apply emits_bind; [apply oc_http_Get; now left|].
    intros [e|[status body]]; [apply emits_ret|].
    destruct (400 <=? status)%nat; apply emits_ret. }
  intros [e|]; [apply emits_ret|].
  apply emits_bind.
  { apply probe_calls, oc_getCurrentVersion; intros p; exact I. }
  intros cur. apply emits_bind.
  { destruct cur; [apply probe_Println | apply emits_ret]. }
  intros _. apply emits_bind; [apply probe_Println|]. intros _.
  apply emits_bind.
  { apply probe_calls. unfold getLatestRelease.
    apply emits_bind; [apply oc_http_Get; now right|].
    intros [e|[status body]]; [apply emits_ret|].
    destruct (negb (status =? 200)%nat); [apply emits_ret|].
    destruct (json_release env body); apply emits_ret. }
  intros [e|r]; [apply emits_ret|].
  apply emits_bind; [apply probe_Println|]. intros _.
  destruct (negb (isNewerVersion _ _)).
  - apply emits_bind; [apply probe_Println|]. intros _.
    apply emits_bind; [apply probe_logResult|]. intros _. apply emits_ret.
  - apply emits_bind; [apply probe_Println|]. intros _.
    rewrite Hco.
    apply emits_bind; [apply probe_Println|]. intros _. apply emits_ret.
Qed.

Lemma check_only_run_only_looks_witness :
  exists evs,
    trace (snd (Run verified_env sample_cfg (sample_opts true true) empty_world))
    = (evs ++ [])%list
    /\ Forall (probe_event sample_cfg) evs.
Proof.
  exact (check_only_run_only_looks verified_env sample_cfg (sample_opts true true)
           empty_world eq_refl).
Defined.

(** ** Asset resolution *)

Lemma Contains_iff (s sub : string) :
  strings.Contains s sub = true <-> exists pre post, s = pre ++ sub ++ post.
Proof.
  split.
  - induction s as [|c t IH]; cbn [strings.Contains]; rewrite orb_true_iff.
    + intros [H|H]; [|discriminate].
      apply HasPrefix_iff in H as (post & E). now exists "", post.
    + intros [H|H].
      * apply HasPrefix_iff in H as (post & E). now exists "", post.
      * destruct (IH H) as (pre & post & E).
        exists (String c pre), post. simpl. now rewrite E.
  - intros (pre & post & ->). induction pre as [|c pre IH].
    + cbn [append]. destruct (sub ++ post) eqn:E;
        cbn [strings.Contains]; apply orb_true_iff; left;
        apply HasPrefix_iff; exists post; now rewrite E.
    + cbn [append strings.Contains]. apply orb_true_iff. now right.
Qed.

Lemma Contains_trans (s a b : string) :
  strings.Contains s a = true -> strings.Contains a b = true ->
  strings.Contains s b = true.
Proof.
  rewrite !Contains_iff.
  intros (p1 & q1 & ->) (p2 & q2 & ->).
  exists (p1 ++ p2), (q2 ++ q1). now rewrite !app_assoc_s.
Qed.

Lemma HasSuffix_Contains (s suf : string) :
  strings.HasSuffix s suf = true -> strings.Contains s suf = true.
Proof.
  rewrite HasSuffix_iff, Contains_iff. intros (pre & ->).
  exists pre, "". f_equal. clear. induction suf as [|c t IH]; simpl; congruence.
Qed.



Lemma first_matching_some (assets : list Asset) (ss : list string) (a : Asset) :
  first_matching assets ss = Some a ->
  In a assets
  /\ exists s, In s ss /\ fragment_matches (strings.ToLower (Name a)) s = true.
Proof.
  induction assets as [|b rest IH]; cbn [first_matching]; [discriminate|].
  destruct (matches_any (strings.ToLower (Name b)) ss) eqn:Hm.
  - intros H. injection H as <-. split; [now left|].
    rewrite matches_any_existsb in Hm. now apply existsb_exists in Hm.
  - intros H. destruct (IH H) as (Hin & Hs). split; [now right | exact Hs].
Qed.

Lemma first_windows_file_some (assets : list Asset) (a : Asset) :
  first_windows_file assets = Some a ->
  In a assets /\ windows_file (strings.ToLower (Name a)) = true.
Proof.
  induction assets as [|b rest IH]; cbn [first_windows_file]; [discriminate|].
  fold (windows_file (strings.ToLower (Name b))).
  destruct (windows_file (strings.ToLower (Name b))) eqn:Hw.
  - intros H. injection H as <-. split; [now left | exact Hw].
  - intros H. destruct (IH H) as (Hin & Ha). split; [now right | exact Ha].
Qed.



Lemma findAsset_member (env : Env) (u : Updater) (w : World) (a : Asset) :
  fst (findAsset env u w) = inr a -> In a (Assets (release u)).
Proof.
  rewrite findAsset_result. unfold find_asset.
  destruct (first_matching _ _) as [b|] eqn:Hm.
  - intros H. injection H as <-. now apply first_matching_some in Hm.
  - destruct (first_windows_file _) as [b|] eqn:Hw; [|discriminate].
    intros H. injection H as <-. now apply first_windows_file_some in Hw.
Qed.


(** X9. [findChecksumAsset] returns the first asset of the release whose
    name, in lower case, contains [sha256], and nil exactly when no asset
    does; the test for the extension [.sha256] never decides, since such a
    name contains [sha256]. *)
Theorem findChecksumAsset_first_sha256 (u : Updater) :
  match findChecksumAsset u with
  | Some a =>
      exists pre post,
        Assets (release u) = (pre ++ a :: post)%list
        /\ strings.Contains (strings.ToLower (Name a)) "sha256" = true
        /\ forall b, In b pre ->
             strings.Contains (strings.ToLower (Name b)) "sha256" = false
  | None =>
      forall b, In b (Assets (release u)) ->
        strings.Contains (strings.ToLower (Name b)) "sha256" = false
  end.
Proof.
  unfold findChecksumAsset. generalize (Assets (release u)) as assets.
  intros assets.
  induction assets as [|c rest IH]; cbn [first_checksum_asset]; [intros b []|].
  destruct (strings.Contains (strings.ToLower (Name c)) "sha256") eqn:Hc.
  - cbn [orb]. exists [], rest. repeat split; [exact Hc | intros b []].
  - cbn [orb].
    destruct (strings.HasSuffix (strings.ToLower (Name c)) ".sha256") eqn:Hs.
    + apply HasSuffix_Contains in Hs.
      assert (strings.Contains (strings.ToLower (Name c)) "sha256" = true)
        by (now apply Contains_trans with ".sha256").
      congruence.
    + destruct (first_checksum_asset rest) as [a|].
      * destruct IH as (pre & post & -> & Ha & Hpre).
        exists (c :: pre), post. repeat split; [exact Ha|].
        intros b [<-|Hb]; [exact Hc | now apply Hpre].
      * intros b [<-|Hb]; [exact Hc | now apply IH].
Qed.

(** ** The choice of the install strategy *)

Lemma emits_bind_result {A B : Type} (Q : event -> Prop) (m : M A) (k : A -> M B) :
  emits Q m -> (forall w, emits Q (k (fst (m w)))) -> emits Q (bind m k).
Proof.
  intros Hm Hk w. rewrite bind_run.
  destruct (Hm w) as (evs1 & E1 & F1).
  destruct (Hk w (snd (m w))) as (evs2 & E2 & F2).
  exists (evs2 ++ evs1)%list. split.
  - now rewrite E2, E1, app_assoc.
  - apply Forall_app. now split.
Qed.

Lemma emits_staged (Q : event -> Prop) (fn : string) (body : M (option error)) :
  Q (EvEnter fn) -> (forall b, Q (EvLeave fn b)) ->
  emits Q body -> emits Q (stage fn body).
Proof.
  intros He Hl Hb. unfold stage.
  apply emits_bind; [now apply emits_emit|]. intros _.
  apply emits_bind; [assumption|]. intros r.
  apply emits_bind; [apply emits_emit, Hl|]. intros _. apply emits_ret.
Qed.

Create HintDb quiet discriminated.

(** One step through a computation that starts no child process. *)
Ltac quiet_step :=
  match goal with
  | |- emits _ (bind _ _) => apply emits_bind; [| intros ?]
  | |- emits _ (defer _ _) => apply emits_defer
  | |- emits _ (ret _) => apply emits_ret
  | |- emits _ (Println _) => apply emits_emit; exact I
  | |- emits _ (http_Get _ _) => apply emits_http_Get; intros; exact I
  | |- emits _ (match ?x with _ => _ end) => destruct x
  | |- emits _ _ => solve [auto with quiet]
  | |- emits _ (syscall _ _ _) => apply emits_syscall; intros; exact I
  end.

Ltac quiet_walk := repeat quiet_step.

Section NoInstaller.

Variable env : Env.

Lemma quiet_Stat p : emits no_installer (os_Stat env p).
Proof. apply emits_syscall; intros; exact I. Qed.

Lemma quiet_ReadFile p : emits no_installer (os_ReadFile env p).
Proof. apply emits_syscall; intros; exact I. Qed.

Lemma quiet_Create p : emits no_installer (os_Create env p).
Proof. apply emits_syscall; intros; exact I. Qed.

Lemma quiet_OpenFile p m : emits no_installer (os_OpenFile env p m).
Proof. apply emits_syscall; intros; exact I. Qed.

Lemma quiet_Open p : emits no_installer (os_Open env p).
Proof. apply emits_syscall; intros; exact I. Qed.

Lemma quiet_Copy p d : emits no_installer (io_Copy env p d).
Proof. apply emits_syscall; intros; exact I. Qed.

Lemma quiet_Read p : emits no_installer (io_Read env p).
Proof. apply emits_syscall; intros; exact I. Qed.

Lemma quiet_Remove p : emits no_installer (os_Remove env p).
Proof. apply emits_syscall; intros; exact I. Qed.

Lemma quiet_RemoveAll p : emits no_installer (os_RemoveAll env p).
Proof. apply emits_syscall; intros; exact I. Qed.

Lemma quiet_MkdirAll p : emits no_installer (os_MkdirAll env p).
Proof. apply emits_syscall; intros; exact I. Qed.

Lemma quiet_ReadDir p : emits no_installer (os_ReadDir env p).
Proof. apply emits_syscall; intros; exact I. Qed.

Lemma quiet_zip_OpenReader p : emits no_installer (zip_OpenReader env p).
Proof. apply emits_syscall; intros; exact I. Qed.

Lemma quiet_zip_Open z : emits no_installer (zip_Open env z).
Proof. apply emits_syscall; intros; exact I. Qed.

Hint Resolve quiet_Stat quiet_ReadFile quiet_Create quiet_OpenFile quiet_Open
  quiet_Copy quiet_Read quiet_Remove quiet_RemoveAll quiet_MkdirAll
  quiet_ReadDir quiet_zip_OpenReader quiet_zip_Open : quiet.

Lemma quiet_first_existing paths : emits no_installer (first_existing env paths).
Proof.
  induction paths as [|p rest IH]; cbn [first_existing]; quiet_walk.
Qed.

Lemma quiet_GetBrowserPath c : emits no_installer (GetBrowserPath env c).
Proof.
  unfold GetBrowserPath. quiet_walk; apply quiet_first_existing.
Qed.

Lemma quiet_portable_mode u : emits no_installer (portable_mode env u).
Proof. unfold portable_mode, IsPortable. quiet_walk. Qed.

Lemma quiet_findAsset u : emits no_installer (findAsset env u).
Proof. unfold findAsset. quiet_walk. apply quiet_portable_mode. Qed.

Lemma quiet_downloadFile url p : emits no_installer (downloadFile env url p).
Proof. unfold downloadFile. quiet_walk. Qed.

Lemma quiet_unzip_files dest files : emits no_installer (unzip_files env dest files).
Proof.
  induction files as [|f rest IH]; cbn [unzip_files]; quiet_walk; exact IH.
Qed.

Hint Resolve quiet_GetBrowserPath quiet_downloadFile quiet_unzip_files : quiet.

Lemma quiet_verifyChecksum u filePath ca fileName :
  emits no_installer (verifyChecksum env u filePath ca fileName).
Proof.
  unfold verifyChecksum.
  apply emits_staged; [discriminate | intros b; discriminate|].
  quiet_walk.
Qed.

Lemma quiet_extractPortable u zipPath :
  emits no_installer (extractPortable env u zipPath).
Proof.
  unfold extractPortable.
  apply emits_staged; [discriminate | intros b; discriminate|].
  unfold unzip, copyDir. quiet_walk.
Qed.

End NoInstaller.

(** X10. With the portable option set, or on a release all of whose assets
    have names ending in [.zip], [downloadAndInstall] never runs the
    installer: it starts no child process and does not enter
    [runInstaller], whatever else happens. *)
Theorem archives_are_never_executed (env : Env) (u : Updater) (w : World) :
  Portable (opts u) = true
  \/ (forall a, In a (Assets (release u)) ->
        strings.HasSuffix (Name a) ".zip" = true) ->
  exists evs,
    trace (snd (downloadAndInstall env u w)) = (evs ++ trace w)%list
    /\ Forall no_installer evs.
Proof.
  intros H. revert w. change (emits no_installer (downloadAndInstall env u)).
  unfold downloadAndInstall.
  apply emits_bind_result; [apply quiet_findAsset|]. intros w.
  pose proof (findAsset_member env u w) as Hpick.
  destruct (fst (findAsset env u w)) as [e|asset]; [apply emits_ret|].
  pose proof (Hpick asset eq_refl) as Hin.
  assert (Hextract : forall p, p || Portable (opts u)
                               || strings.HasSuffix (Name asset) ".zip" = true).
  { intros p. destruct H as [-> | Hzip].
    - now rewrite orb_true_r.
    - rewrite (Hzip asset Hin). now rewrite orb_true_r. }
  assert (Hinstall : emits no_installer
                       (install env u asset
                          (filepath.Join [WorkDir (cfg u); Name asset]))).
  { unfold install.
    apply emits_bind_result; [apply quiet_portable_mode|]. intros w1.
    replace (fst (portable_mode env u w1))
      with (fst (IsPortable env (cfg u) w1) || Portable (opts u))
      by (unfold portable_mode; rewrite bind_run; reflexivity).
    rewrite Hextract.
    apply emits_bind; [apply emits_emit; exact I|]. intros _.
    apply quiet_extractPortable. }
  apply emits_bind; [apply emits_emit; exact I|]. intros _.
  apply emits_bind; [apply quiet_downloadFile|].
  intros [e|]; [apply emits_ret|].
  apply emits_defer; [apply quiet_Remove|].
  destruct (findChecksumAsset u) as [ca|]; [|exact Hinstall].
  apply emits_bind; [apply emits_emit; exact I|]. intros _.
  apply emits_bind; [apply quiet_verifyChecksum|].
  intros [e|]; [apply emits_ret|].
  apply emits_bind; [apply emits_emit; exact I | intros _; exact Hinstall].
Qed.

Lemma archives_are_never_executed_witness :
  exists evs,
    trace (snd (downloadAndInstall verified_env portable_updater empty_world))
    = (evs ++ [])%list
    /\ Forall no_installer evs.
Proof.
  exact (archives_are_never_executed verified_env portable_updater empty_world
           (or_introl eq_refl)).
Defined.

(** ** Scheduled tasks *)

Lemma os_Stat_cases (env : Env) (p : string) (w : World) :
  exists r,
    os_Stat env p w
    = (r, mkWorld (fs w) (S (clock w)) (EvCall (CStat p) (is_ok r) :: trace w))
    /\ (fault env (clock w) (CStat p) = None -> fs w p = None ->
        r = inl ErrNotExist)
    /\ (is_ok r = true -> fs w p <> None).
Proof.
  unfold os_Stat.
  match goal with
  | |- context [syscall env ?c ?sem w] =>
      destruct (syscall_cases env c sem w)
        as [(e & Hf & E) | (Hf & E)]; rewrite E
  end.
  - exists (inl e). split; [reflexivity|]. rewrite Hf.
    split; discriminate.
  - destruct (fs w p) as [n|] eqn:Hp; cbn [fst snd is_ok].
    + exists (inr tt). split; [reflexivity|]. split; discriminate.
    + exists (inl ErrNotExist). split; [reflexivity|]. split; [reflexivity|].
      discriminate.
Qed.



(** ** More on the version comparator *)

(** X12. Between two versions that are both known (neither is empty or
    ["0.0.0"] once a leading [v] is stripped) the comparison is symmetric:
    [isNewerVersion a b] and [isNewerVersion b a] agree, so that an older
    latest version is reported exactly as a newer one is. *)
Theorem isNewerVersion_symmetric (a b : string) :
  strings.TrimPrefix a "v" <> "" -> strings.TrimPrefix a "v" <> "0.0.0" ->
  strings.TrimPrefix b "v" <> "" -> strings.TrimPrefix b "v" <> "0.0.0" ->
  isNewerVersion a b = isNewerVersion b a.
Proof.
  intros Ha1 Ha2 Hb1 Hb2. unfold isNewerVersion.
  apply String.eqb_neq in Ha1, Ha2, Hb1, Hb2.
  rewrite Ha1, Ha2, Hb1, Hb2. cbn [orb].
  now rewrite String.eqb_sym.
Qed.

Lemma isNewerVersion_symmetric_witness :
  isNewerVersion "v2.0.0" "1.9.9" = isNewerVersion "1.9.9" "v2.0.0".
Proof.
  apply (isNewerVersion_symmetric "v2.0.0" "1.9.9"); discriminate.
Defined.

(** ** A run that cannot reach the API *)

(** X13. When the probe of the API fails, by a transport error or by a
    status of 400 or more, [Run] returns "connection check failed" and has
    done nothing but print its two opening lines and make that one GET: no
    file is touched and no other call is made. *)
Theorem Run_stops_at_failed_probe (env : Env) (c : Config) (o : Options)
    (w : World) :
  (exists e, http_get env (clock w) ConnectCheckURL = inl e)
  \/ (exists status body,
        http_get env (clock w) ConnectCheckURL = inr (status, body)
        /\ 400 <= status) ->
  exists e b,
    fst (Run env c o w) = Some (Wrap "connection check failed" e)
    /\ fs (snd (Run env c o w)) = fs w
    /\ trace (snd (Run env c o w))
       = EvCall (CHttpGet ConnectCheckURL) b
         :: EvPrint "Checking for updates..."
         :: EvPrint ("Noraneko WinUpdater v" ++ Version o) :: trace w.
Proof.
  intros H.
  assert (E : exists e b,
             checkConnection env
               (mkWorld (fs w) (clock w)
                  (EvPrint "Checking for updates..."
                   :: EvPrint ("Noraneko WinUpdater v" ++ Version o) :: trace w))
             = (Some e,
                mkWorld (fs w) (S (clock w))
                  (EvCall (CHttpGet ConnectCheckURL) b
                   :: EvPrint "Checking for updates..."
                   :: EvPrint ("Noraneko WinUpdater v" ++ Version o) :: trace w))).
  { unfold checkConnection, bind, http_Get. cbn [clock fs trace].
    destruct H as [(e & ->) | (status & body & -> & Hs)].
    - now exists e, false.
    - apply Nat.leb_le in Hs. rewrite Hs. now eexists _, true. }
  destruct E as (e & b & E). exists e, b.
  unfold Run. rewrite !bind_run with (m := Println _).
  unfold Println, emit. cbn [fst snd fs clock trace].
  rewrite bind_run, E. cbn [fst snd fs trace ret]. now repeat split.
Qed.

Lemma Run_stops_at_failed_probe_witness :
  exists e b,
    fst (Run (mkEnv "amd64" (fun _ => "") (fun _ => "") (fun _ _ => None)
                    (fun _ _ => inr (503, "")) (fun _ => None) (fun _ => None)
                    (fun d => d) (fun _ _ => []))
             sample_cfg (sample_opts false false) empty_world)
    = Some (Wrap "connection check failed" e)
    /\ fs (snd (Run (mkEnv "amd64" (fun _ => "") (fun _ => "") (fun _ _ => None)
                           (fun _ _ => inr (503, "")) (fun _ => None)
                           (fun _ => None) (fun d => d) (fun _ _ => []))
                    sample_cfg (sample_opts false false) empty_world))
       = fs empty_world
    /\ trace (snd (Run (mkEnv "amd64" (fun _ => "") (fun _ => "") (fun _ _ => None)
                              (fun _ _ => inr (503, "")) (fun _ => None)
                              (fun _ => None) (fun d => d) (fun _ _ => []))
                       sample_cfg (sample_opts false false) empty_world))
       = EvCall (CHttpGet ConnectCheckURL) b
         :: EvPrint "Checking for updates..."
         :: EvPrint ("Noraneko WinUpdater v" ++ Version (sample_opts false false))
         :: trace empty_world.
Proof.
  apply Run_stops_at_failed_probe. right. exists 503, "". split; [reflexivity|].
  repeat constructor.
Defined.

(** ** What [LogEntry] does to the file *)

Lemma update_key_replaces (key value : string) (lines : list string) :
  forall inLog lines',
    update_key key value inLog lines = Some lines' ->
    exists pre old post,
      lines = (pre ++ old :: post)%list
      /\ lines' = (pre ++ (key ++ "=" ++ value)%string :: post)%list
      /\ strings.HasPrefix (strings.ToLower (strings.TrimSpace old))
           (strings.ToLower key ++ "=") = true
      /\ (inLog = true
          \/ exists h, In h pre
                       /\ strings.HasPrefix (strings.TrimSpace h) "[Log]" = true).
Proof.
  induction lines as [|line rest IH]; intros inLog lines'; [discriminate|].
  cbn [update_key]. cbv zeta.
  destruct (strings.HasPrefix (strings.TrimSpace line) "[Log]") eqn:Hlog.
  - destruct (update_key key value true rest) as [l|] eqn:E; [|discriminate].
    cbn [option_map]. intros H. injection H as <-.
    destruct (IH true l E) as (pre & old & post & -> & -> & Hold & _).
    exists (line :: pre), old, post. repeat split; try assumption.
    right. exists line. split; [now left | assumption].
  - destruct (strings.HasPrefix (strings.TrimSpace line) "["
              && strings.HasSuffix (strings.TrimSpace line) "]").
    + destruct (update_key key value false rest) as [l|] eqn:E; [|discriminate].
      cbn [option_map]. intros H. injection H as <-.
      destruct (IH false l E) as (pre & old & post & -> & -> & Hold & [Hf|(h & Hh & Hp)]);
        [discriminate|].
      exists (line :: pre), old, post. repeat split; try assumption.
      right. exists h. split; [now right | assumption].
    + destruct (inLog && strings.HasPrefix (strings.ToLower (strings.TrimSpace line))
                           (strings.ToLower key ++ "=")) eqn:Hm.
      * apply andb_true_iff in Hm. destruct Hm as [-> Hm].
        intros H. injection H as <-.
        exists [], line, rest. repeat split; [assumption | now left].
      * destruct (update_key key value inLog rest) as [l|] eqn:E; [|discriminate].
        cbn [option_map]. intros H. injection H as <-.
        destruct (IH inLog l E) as (pre & old & post & -> & -> & Hold & Hsec).
        exists (line :: pre), old, post. repeat split; try assumption.
        destruct Hsec as [Hsec|(h & Hh & Hp)]; [now left|].
        right. exists h. split; [now right | assumption].
Qed.

Lemma append_key_inserts (key value : string) (lines : list string) :
  forall inLog added,
    (fst (append_key key value inLog added lines) = lines
     /\ snd (append_key key value inLog added lines) = added)
    \/ (added = false
        /\ snd (append_key key value inLog added lines) = true
        /\ exists pre post,
             lines = (pre ++ post)%list
             /\ fst (append_key key value inLog added lines)
                = (pre ++ (key ++ "=" ++ value)%string :: post)%list).
Proof.
  induction lines as [|line rest IH]; intros inLog added;
    [cbn [append_key fst snd]; now left|].
  cbn [append_key].
  destruct (strings.HasPrefix (strings.TrimSpace line) "[Log]").
  - specialize (IH true added).
    destruct (append_key key value true added rest) as [ls a].
    cbn [fst snd] in *.
    destruct IH as [[-> ->] | (-> & -> & pre & post & -> & ->)]; [now left|].
    right. repeat split. now exists (line :: pre), post.
  - match goal with
    | |- context [append_key key value ?il (added || ?here) rest] =>
        specialize (IH il (added || here));
        destruct (append_key key value il (added || here) rest) as [ls a];
        destruct here eqn:Hhere
    end; cbn [fst snd app] in *.
    + rewrite orb_true_r in IH.
      destruct IH as [[-> ->] | (Hf & _)]; [|discriminate].
      right. repeat split.
      * apply andb_true_iff in Hhere. destruct Hhere as [Hhere _].
        apply andb_true_iff in Hhere. destruct Hhere as [_ Hhere].
        now destruct added.
      * now exists [], (line :: rest).
    + rewrite orb_false_r in IH.
      destruct IH as [[-> ->] | (-> & -> & pre & post & -> & ->)]; [now left|].
      right. repeat split. now exists (line :: pre), post.
Qed.

Lemma log_lines_one_change (key value existingContent : string) :
  let lines :=
    strings.split_byte newline
      (if negb (strings.Contains existingContent "[Log]")
       then existingContent ++ LF ++ "[Log]" ++ LF
       else existingContent) in
  exists pre post,
    log_lines key value existingContent
    = (pre ++ (key ++ "=" ++ value)%string :: post)%list
    /\ (lines = (pre ++ post)%list
        \/ exists old,
             lines = (pre ++ old :: post)%list
             /\ strings.HasPrefix (strings.ToLower (strings.TrimSpace old))
                  (strings.ToLower key ++ "=") = true
             /\ exists h, In h pre
                          /\ strings.HasPrefix (strings.TrimSpace h) "[Log]" = true).
Proof.
  intros lines. unfold log_lines. fold lines.
  destruct (update_key key value false lines) as [l|] eqn:E.
  - destruct (update_key_replaces key value lines false l E)
      as (pre & old & post & Hl & -> & Hold & [Hf|Hsec]); [discriminate|].
    exists pre, post. split; [reflexivity|]. right. now exists old.
  - destruct (append_key_inserts key value lines false false)
      as [[H1 H2] | (_ & H2 & pre & post & Hl & H1)];
      destruct (append_key key value false false lines) as [ls a];
      cbn [fst snd] in *; subst a; cbn [negb].
    + exists lines, []. subst ls. split; [reflexivity|]. left.
      now rewrite app_nil_r.
    + exists pre, post. split; [assumption | now left].
Qed.


(** ** Finding the browser *)

Lemma first_existing_finds (env : Env) (paths : list string) :
  forall w,
    fs (snd (first_existing env paths w)) = fs w
    /\ (fst (first_existing env paths w) = ""
        \/ (In (fst (first_existing env paths w)) paths
            /\ fs w (fst (first_existing env paths w)) <> None)).
Proof.
  induction paths as [|p rest IH]; intros w; [split; [reflexivity | now left]|].
  cbn [first_existing]. rewrite bind_run.
  destruct (os_Stat_cases env p w) as (r & E & _ & Hok). rewrite E.
  cbn [fst snd]. destruct (is_ok r) eqn:Hr.
  - cbn [ret fst snd fs]. split; [reflexivity|]. right.
    split; [now left | now apply Hok].
  - match goal with
    | |- context [first_existing env rest ?w1] =>
        destruct (IH w1) as (Hfs & Hres)
    end.
    cbn [fs] in *. split; [exact Hfs|].
    destruct Hres as [Hres|[Hin Hex]]; [now left|].
    right. split; [now right | exact Hex].
Qed.

Lemma GetBrowserPath_found (env : Env) (c : Config) (w : World) :
  let p := fst (GetBrowserPath env c w) in
  let w' := snd (GetBrowserPath env c w) in
  let programFiles :=
    if String.eqb (getenv env "ProgramFiles") "" then "C:\Program Files"
    else getenv env "ProgramFiles" in
  fs w' = fs w
  /\ if String.eqb (Path c) "" then
       p = ""
       \/ ((p = filepath.Join [ExeDir c; BrowserName; BrowserExe]
            \/ p = filepath.Join [programFiles; BrowserName; BrowserExe])
           /\ fs w p <> None)
     else p = Path c /\ w' = w.
Proof.
  intros p w' programFiles. subst p w'. unfold GetBrowserPath.
  destruct (String.eqb (Path c) ""); cbn [negb]; [|now repeat split].
  cbv zeta. fold programFiles. rewrite bind_run.
  match goal with
  | |- context [os_Stat env ?q w] =>
      destruct (os_Stat_cases env q w) as (r & E & _)
  end.
  rewrite E. cbn [fst snd].
  match goal with
  | |- context [first_existing env ?ps ?w1] =>
      destruct (first_existing_finds env ps w1) as (Hfs & Hres)
  end.
  cbn [fs] in *. split; [exact Hfs|].
  destruct Hres as [Hres|[Hin Hex]]; [now left|]. right.
  split; [|exact Hex].
  destruct (is_ok r); cbn [In] in Hin;
    intuition (try (left; congruence); try (right; congruence)).
Qed.

(** X15. [GetBrowserPath] returns a configured [Path] as it is, without
    looking at the disk.  With no [Path] configured it returns either the
    empty string or one of its two candidates,
    [<ExeDir>/Noraneko/noraneko.exe] and
    [<ProgramFiles>/Noraneko/noraneko.exe] (with [C:\Program Files] when the
    variable is empty), and a candidate it returns is on the disk.  It never
    changes a file. *)
Theorem GetBrowserPath_returns_existing (env : Env) (c : Config) (w : World) :
  let p := fst (GetBrowserPath env c w) in
  let w' := snd (GetBrowserPath env c w) in
  let programFiles :=
    if String.eqb (getenv env "ProgramFiles") "" then "C:\Program Files"
    else getenv env "ProgramFiles" in
  fs w' = fs w
  /\ if String.eqb (Path c) "" then
       p = ""
       \/ ((p = filepath.Join [ExeDir c; BrowserName; BrowserExe]
            \/ p = filepath.Join [programFiles; BrowserName; BrowserExe])
           /\ fs w p <> None)
     else p = Path c /\ w' = w.
Proof. apply GetBrowserPath_found. Qed.

(** ** Copying a file *)

(** X16. A [copyFile] that succeeds had a file to read at [src] and has
    changed nothing but [dst].  When the two paths differ, [dst] now holds
    the bytes of [src]; when they are the same path, the file has been
    emptied, since it is created anew before it is read. *)
Theorem copyFile_copies (env : Env) (src dst : string) (w : World) :
  fst (copyFile env src dst w) = None ->
  let w' := snd (copyFile env src dst w) in
  exists data,
    fs w src = Some (File data)
    /\ (forall q, q <> dst -> fs w' q = fs w q)
    /\ (src <> dst -> fs w' dst = Some (File data))
    /\ (src = dst -> fs w' dst = Some (File "")).
Proof.
  unfold copyFile. rewrite bind_run.
  destruct (fst (os_Open env src w)) as [e|data] eqn:Ho;
    [cbn [fst snd ret]; discriminate|].
  destruct (os_Open_ok env src w data Ho) as [Hsrc Hfs].
  set (w0 := snd (os_Open env src w)) in *.
  rewrite bind_run. unfold os_Create.
  match goal with
  | |- context [syscall env ?c ?sem w0] =>
      destruct (syscall_cases env c sem w0)
        as [(e & _ & E1) | (_ & E1)]; rewrite E1
  end; cbn [fst snd ret]; [discriminate|].
  rewrite Hfs.
  - rewrite bind_run. unfold io_CopyFile.
    match goal with
    | |- context [syscall env ?c ?sem ?w1] =>
        destruct (syscall_cases env c sem w1)
          as [(e & _ & E2) | (_ & E2)]; rewrite E2
    end; cbn [fst snd ret fs clock err_of]; [discriminate|].
    destruct (String.eqb src dst) eqn:Hsd.
    + apply String.eqb_eq in Hsd. subst dst. rewrite fs_set_same.
      cbn [fst snd err_of fs]. intros _. exists data.
      split; [exact Hsrc|]. split.
      * intros q Hq. now rewrite !fs_set_other.
      * split; [congruence|]. intros _. now rewrite fs_set_same.
    + apply String.eqb_neq in Hsd. rewrite (fs_set_other dst src) by exact Hsd.
      rewrite Hsrc. cbn [fst snd err_of fs]. intros _. exists data.
      split; [reflexivity|]. split.
      * intros q Hq. now rewrite !fs_set_other.
      * split; [|congruence]. intros _. now rewrite fs_set_same.
Qed.

Lemma copyFile_copies_witness :
  exists data,
    fs downloaded_world "/tmp/app-windows-x86_64-portable.zip" = Some (File data)
    /\ (forall q, q <> "/tmp/copy.zip" ->
        fs (snd (copyFile quiet_env "/tmp/app-windows-x86_64-portable.zip"
                   "/tmp/copy.zip" downloaded_world)) q
        = fs downloaded_world q)
    /\ ("/tmp/app-windows-x86_64-portable.zip" <> "/tmp/copy.zip" ->
        fs (snd (copyFile quiet_env "/tmp/app-windows-x86_64-portable.zip"
                   "/tmp/copy.zip" downloaded_world)) "/tmp/copy.zip"
        = Some (File data))
    /\ ("/tmp/app-windows-x86_64-portable.zip" = "/tmp/copy.zip" ->
        fs (snd (copyFile quiet_env "/tmp/app-windows-x86_64-portable.zip"
                   "/tmp/copy.zip" downloaded_world)) "/tmp/copy.zip"
        = Some (File "")).
Proof.
  apply (copyFile_copies quiet_env "/tmp/app-windows-x86_64-portable.zip"
           "/tmp/copy.zip" downloaded_world).
  reflexivity.
Defined.

(** ** Facts about reversal, trimming and splitting *)

Lemma app_nil_r_s (s : string) : s ++ "" = s.
Proof. induction s as [|c s IH]; simpl; congruence. Qed.

Lemma rev_acc_app (s acc : string) :
  strings.rev_acc s acc = strings.rev s ++ acc.
Proof.
  unfold strings.rev. revert acc.
  induction s as [|c s IH]; intros acc; simpl; [reflexivity|].
  rewrite (IH (String c acc)), (IH (String c "")), app_assoc_s. reflexivity.
Qed.

Lemma rev_cons (c : ascii) (s : string) :
  strings.rev (String c s) = strings.rev s ++ String c "".
Proof. unfold strings.rev at 1. simpl. apply rev_acc_app. Qed.

Lemma rev_app (a b : string) :
  strings.rev (a ++ b) = strings.rev b ++ strings.rev a.
Proof.
  induction a as [|c a IH]; simpl.
  - now rewrite app_nil_r_s.
  - now rewrite !rev_cons, IH, app_assoc_s.
Qed.

Lemma rev_involutive (s : string) : strings.rev (strings.rev s) = s.
Proof.
  induction s as [|c s IH]; [reflexivity|].
  now rewrite rev_cons, rev_app, IH.
Qed.

Lemma rev_length (s : string) : String.length (strings.rev s) = String.length s.
Proof.
  induction s as [|c s IH]; [reflexivity|].
  rewrite rev_cons, length_app, IH. simpl. lia.
Qed.

Lemma trim_left_length (s : string) :
  strings.trim_left s = s
  \/ String.length (strings.trim_left s) < String.length s.
Proof.
  induction s as [|c s IH]; simpl; [now left|].
  destruct (strings.is_space c); [|now left].
  right. destruct IH as [->|IH]; lia.
Qed.

Lemma trim_right_length (s : string) :
  trim_right s = s \/ String.length (trim_right s) < String.length s.
Proof.
  unfold trim_right.
  destruct (trim_left_length (strings.rev s)) as [E|H].
  - left. now rewrite E, rev_involutive.
  - right. now rewrite rev_length, <- (rev_length s).
Qed.

Lemma TrimSpace_trim (s : string) :
  strings.TrimSpace s = trim_right (strings.trim_left s).
Proof. reflexivity. Qed.

Lemma TrimSpace_fixed (s : string) :
  strings.TrimSpace s = s -> strings.trim_left s = s /\ trim_right s = s.
Proof.
  rewrite TrimSpace_trim. intros E.
  destruct (trim_left_length s) as [El|Hl].
  - rewrite El in E. now split.
  - exfalso.
    destruct (trim_right_length (strings.trim_left s)) as [Er|Hr].
    + rewrite Er in E. rewrite E in Hl. lia.
    + rewrite E in Hr. lia.
Qed.

Lemma trim_left_app (x y : string) :
  strings.trim_left (x ++ y)
  = match strings.trim_left x with
    | EmptyString => strings.trim_left y
    | t => t ++ y
    end.
Proof.
  induction x as [|c x IH]; simpl; [reflexivity|].
  destruct (strings.is_space c); [exact IH | reflexivity].
Qed.

Lemma rev_empty (s : string) : strings.rev s = "" -> s = "".
Proof.
  intros E. apply (f_equal String.length) in E. rewrite rev_length in E.
  now destruct s.
Qed.

Lemma trim_right_cons (c : ascii) (s : string) :
  trim_right (String c s)
  = match trim_right s with
    | EmptyString => if strings.is_space c then "" else String c ""
    | r => String c r
    end.
Proof.
  unfold trim_right. rewrite rev_cons, trim_left_app.
  destruct (strings.trim_left (strings.rev s)) as [|a t] eqn:E.
  - simpl. now destruct (strings.is_space c).
  - rewrite rev_app.
    destruct (strings.rev (String a t)) eqn:E2.
    + apply rev_empty in E2. discriminate.
    + reflexivity.
Qed.

Lemma trim_right_app_space (x : string) (c : ascii) :
  strings.is_space c = true -> trim_right (x ++ String c "") = trim_right x.
Proof.
  intros Hc. unfold trim_right. rewrite rev_app. simpl.
  unfold strings.rev at 1. simpl. now rewrite Hc.
Qed.

Lemma trimmed_cons (c : ascii) (s : string) :
  strings.is_space c = false -> trim_right s = s ->
  trim_right (String c s) = String c s.
Proof.
  intros Hc Hs. rewrite trim_right_cons, Hs, Hc. now destruct s.
Qed.

Lemma TrimSpace_cons (c : ascii) (s : string) :
  strings.is_space c = false -> trim_right s = s ->
  strings.TrimSpace (String c s) = String c s.
Proof.
  intros Hc Hs. rewrite TrimSpace_trim. simpl. rewrite Hc.
  now apply trimmed_cons.
Qed.

Lemma dropCR_cases (s : string) :
  dropCR s = s \/ s = dropCR s ++ String carriage_return "".
Proof.
  unfold dropCR. destruct (strings.rev s) as [|c t] eqn:E; [now left|].
  destruct (Ascii.eqb c carriage_return) eqn:Hc; [|now left].
  right. apply Ascii.eqb_eq in Hc. subst c.
  apply (f_equal strings.rev) in E. rewrite rev_involutive, rev_cons in E.
  exact E.
Qed.

Lemma TrimSpace_dropCR (s : string) :
  strings.TrimSpace (dropCR s) = strings.TrimSpace s.
Proof.
  destruct (dropCR_cases s) as [->|E]; [reflexivity|].
  rewrite E at 2. rewrite !TrimSpace_trim, trim_left_app.
  destruct (strings.trim_left (dropCR s)) as [|a t] eqn:Et.
  - reflexivity.
  - now rewrite trim_right_app_space.
Qed.

Lemma split_byte_nonempty (sep : ascii) (s : string) :
  strings.split_byte sep s <> [].
Proof.
  destruct s as [|c t]; simpl; [discriminate|].
  destruct (Ascii.eqb c sep); [discriminate|].
  destruct (strings.split_byte sep t); discriminate.
Qed.

Lemma split_byte_app (sep : ascii) (a b : string) :
  strings.split_byte sep (a ++ String sep b)
  = (strings.split_byte sep a ++ strings.split_byte sep b)%list.
Proof.
  induction a as [|c a IH]; simpl.
  - now rewrite Ascii.eqb_refl.
  - destruct (Ascii.eqb c sep); [now rewrite IH|].
    rewrite IH.
    pose proof (split_byte_nonempty sep a) as Hne.
    destruct (strings.split_byte sep a); [contradiction | reflexivity].
Qed.

Lemma one_line_cons (c : ascii) (s : string) :
  one_line (String c s) = negb (Ascii.eqb c newline) && one_line s.
Proof.
  unfold one_line, LF. cbn [strings.Contains strings.HasPrefix].
  rewrite andb_true_r, negb_orb, (Ascii.eqb_sym newline c). reflexivity.
Qed.

Lemma split_byte_one_line (s : string) :
  one_line s = true -> strings.split_byte newline s = [s].
Proof.
  induction s as [|c s IH]; [reflexivity|].
  rewrite one_line_cons, andb_true_iff, negb_true_iff.
  intros [Hc Hs]. simpl. now rewrite Hc, (IH Hs).
Qed.

Lemma split_byte_pieces (s : string) :
  Forall (fun p => one_line p = true) (strings.split_byte newline s).
Proof.
  induction s as [|c s IH]; simpl; [now repeat constructor|].
  destruct (Ascii.eqb c newline) eqn:Hc.
  - constructor; [reflexivity | exact IH].
  - destruct (strings.split_byte newline s) as [|p ps];
      [constructor; [now rewrite one_line_cons, Hc | constructor]|].
    inversion IH as [|? ? Hp Hps]; subst. constructor; [|exact Hps].
    now rewrite one_line_cons, Hc, Hp.
Qed.

Lemma split_byte_Join (ls : list string) :
  ls <> [] -> Forall (fun p => one_line p = true) ls ->
  strings.split_byte newline (strings.Join ls LF) = ls.
Proof.
  induction ls as [|e rest IH]; [contradiction|].
  intros _ H. inversion H as [|? ? He Hrest]; subst.
  destruct rest as [|e' rest'].
  - simpl. now apply split_byte_one_line.
  - change (strings.Join (e :: e' :: rest') LF)
      with (e ++ String newline (strings.Join (e' :: rest') LF)).
    rewrite split_byte_app, (split_byte_one_line e He), IH;
      [reflexivity | discriminate | exact Hrest].
Qed.

(** ** Reading the configuration file *)

Lemma letter_facts (c : ascii) :
  is_letter c = true ->
  strings.is_space c = false
  /\ Ascii.eqb ";" c = false /\ Ascii.eqb "#" c = false
  /\ Ascii.eqb "[" c = false /\ Ascii.eqb c "=" = false
  /\ is_letter (strings.lower_byte c) = true.
Proof.
  destruct c as [[] [] [] [] [] [] [] []]; intros H;
    solve [discriminate H | repeat split].
Qed.

Lemma lower_letter (c : ascii) :
  is_letter (strings.lower_byte c) = true -> is_letter c = true.
Proof.
  destruct c as [[] [] [] [] [] [] [] []]; intros H;
    solve [discriminate H | reflexivity].
Qed.

Lemma lower_eq_sign (c : ascii) :
  strings.lower_byte c = "="%char -> c = "="%char.
Proof.
  destruct c as [[] [] [] [] [] [] [] []]; intros H;
    solve [discriminate H | reflexivity].
Qed.

Lemma letters_ToLower (s : string) :
  letters s = true -> letters (strings.ToLower s) = true.
Proof.
  induction s as [|c s IH]; [reflexivity|]. simpl.
  rewrite !andb_true_iff. intros [Hc Hs]. split; [|now apply IH].
  now apply letter_facts.
Qed.

Lemma trim_right_word (k s : string) :
  letters k = true -> trim_right s = s -> s <> "" ->
  trim_right (k ++ s) = k ++ s.
Proof.
  intros Hk Hs Hne. induction k as [|c k IH]; [exact Hs|].
  simpl in Hk. apply andb_true_iff in Hk. destruct Hk as [Hc Hk].
  simpl. apply trimmed_cons; [now apply letter_facts | now apply IH].
Qed.

Lemma TrimSpace_word (k s : string) :
  letters k = true -> k <> "" -> trim_right s = s -> s <> "" ->
  strings.TrimSpace (k ++ s) = k ++ s.
Proof.
  intros Hk Hne Hs Hs'. destruct k as [|c k]; [contradiction|].
  simpl in Hk. apply andb_true_iff in Hk. destruct Hk as [Hc Hk].
  simpl. apply TrimSpace_cons; [now apply letter_facts|].
  now apply trim_right_word.
Qed.

Lemma TrimSpace_letters (k : string) :
  letters k = true -> strings.TrimSpace k = k.
Proof.
  intros Hk. destruct k as [|c k]; [reflexivity|].
  simpl in Hk. apply andb_true_iff in Hk. destruct Hk as [Hc Hk].
  apply TrimSpace_cons; [now apply letter_facts|].
  clear c Hc. induction k as [|c k IH]; [reflexivity|].
  simpl in Hk. apply andb_true_iff in Hk. destruct Hk as [Hc Hk].
  apply trimmed_cons; [now apply letter_facts | now apply IH].
Qed.

Lemma cut_eq_word (k v : string) :
  letters k = true -> cut_eq (k ++ String "=" v) = Some (k, v).
Proof.
  induction k as [|c k IH]; intros Hk; [reflexivity|].
  simpl in Hk. apply andb_true_iff in Hk. destruct Hk as [Hc Hk].
  simpl. destruct (letter_facts c Hc) as (_ & _ & _ & _ & He & _).
  now rewrite He, (IH Hk).
Qed.

(** A line [key=value] of the settings section sets the key. *)
Lemma load_line_key_value (exeDir section k v : string) (cfg : Config) :
  letters k = true -> k <> "" -> strings.TrimSpace v = v ->
  load_line exeDir (section, cfg) (k ++ String "=" v)
  = if String.eqb section "settings"
    then (section, set_key exeDir (strings.ToLower k) v cfg)
    else (section, cfg).
Proof.
  intros Hk Hne Hv. unfold load_line.
  destruct (TrimSpace_fixed v Hv) as [_ Hr].
  rewrite TrimSpace_word; try assumption;
    [|apply trimmed_cons; [reflexivity | exact Hr] | discriminate].
  rewrite cut_eq_word by exact Hk.
  rewrite Hv, (TrimSpace_letters _ (letters_ToLower k Hk)).
  destruct k as [|c k]; [contradiction|].
  simpl in Hk. apply andb_true_iff in Hk. destruct Hk as [Hc _].
  destruct (letter_facts c Hc) as (_ & H1 & H2 & H3 & _).
  cbn [append String.eqb strings.HasPrefix orb andb].
  rewrite H1, H2, H3. cbn [andb orb]. reflexivity.
Qed.

Lemma too_long_short (line : string) :
  String.length line < MaxScanTokenSize -> too_long line = false.
Proof. intros H. unfold too_long. now apply Nat.leb_gt. Qed.

Lemma load_line_dropCR (exeDir : string) (st : string * Config) (text : string) :
  load_line exeDir st (dropCR text) = load_line exeDir st text.
Proof. unfold load_line. now rewrite TrimSpace_dropCR. Qed.

Lemma fold_load_dropCR (exeDir : string) (ls : list string) :
  forall st,
    fold_left (load_line exeDir) (List.map dropCR ls) st
    = fold_left (load_line exeDir) ls st.
Proof.
  induction ls as [|l ls IH]; intros st; [reflexivity|].
  simpl. now rewrite load_line_dropCR, IH.
Qed.

Lemma load_line_empty (exeDir : string) (st : string * Config) :
  load_line exeDir st "" = st.
Proof. now destruct st. Qed.

Lemma scan_lines_split (data : string) :
  scan_lines data = strings.split_byte newline data
  \/ strings.split_byte newline data = (scan_lines data ++ [""])%list.
Proof.
  unfold scan_lines.
  destruct (List.rev (strings.split_byte newline data)) as [|l before] eqn:E;
    [now left|].
  destruct l; [|now left]. right.
  apply (f_equal (@List.rev string)) in E. rewrite List.rev_involutive in E.
  exact E.
Qed.

(** [Load] reads the pieces between the line feeds: the empty piece after
    a final line feed changes nothing. *)
Lemma load_content_split (exeDir : string) (cfg : Config) (data : string) :
  load_content exeDir cfg data
  = if existsb too_long (strings.split_byte newline data) then inl ErrTooLong
    else inr (snd (fold_left (load_line exeDir)
                     (strings.split_byte newline data) ("", cfg))).
Proof.
  unfold load_content. rewrite fold_load_dropCR.
  destruct (scan_lines_split data) as [E | E]; rewrite E; [reflexivity|].
  rewrite existsb_app, fold_left_app. cbn [existsb fold_left].
  rewrite load_line_empty, (too_long_short "")
    by (unfold MaxScanTokenSize; cbn [String.length]; lia).
  now rewrite !orb_false_r.
Qed.

(** ** Saving and loading again *)

(** The lines [Save] writes. *)
Lemma save_content_lines (TempDir : string) (c : Config) :
  save_content TempDir c
  = strings.Join
      [ "[Settings]";
        "Path" ++ String "=" (if negb (String.eqb (Path c) "") then Path c else "0");
        "WorkDir" ++ String "="
          (if String.eqb (WorkDir c) (ExeDir c) then "."
           else if String.eqb (WorkDir c) TempDir then ""
           else WorkDir c);
        "UpdateSelf" ++ String "=" (if UpdateSelf c then "1" else "0");
        "IgnoreCrlErrors" ++ String "=" (if IgnoreCrlErrors c then "1" else "0");
        "Branch" ++ String "=" (Branch c);
        "" ] LF.
Proof.
  unfold save_content.
  destruct (negb (String.eqb (Path c) "")), (UpdateSelf c), (IgnoreCrlErrors c);
    cbn [strings.Join append]; rewrite ?app_assoc_s; reflexivity.
Qed.

Lemma one_line_key_value (k v : string) :
  letters k = true -> one_line v = true -> one_line (k ++ String "=" v) = true.
Proof.
  intros Hk Hv. induction k as [|c k IH]; simpl.
  - now rewrite one_line_cons, Hv.
  - simpl in Hk. apply andb_true_iff in Hk. destruct Hk as [Hc Hk].
    rewrite one_line_cons, (IH Hk), andb_true_r.
    destruct (Ascii.eqb c newline) eqn:E; [|reflexivity].
    apply Ascii.eqb_eq in E. subst c. discriminate Hc.
Qed.

Lemma too_long_key_value (k v : string) :
  String.length k < 16 -> String.length v + 16 < MaxScanTokenSize ->
  too_long (k ++ String "=" v) = false.
Proof.
  intros Hk Hv. apply too_long_short. rewrite length_app.
  cbn [String.length]. lia.
Qed.

Lemma plain_value_short (v : string) :
  String.length v < 16 -> one_line v = true -> strings.TrimSpace v = v ->
  plain_value v.
Proof.
  intros H1 H2 H3. repeat split; try assumption.
  unfold MaxScanTokenSize. lia.
Qed.

Lemma load_line_setting (exeDir k v : string) (cfg : Config) :
  letters k = true -> k <> "" -> strings.TrimSpace v = v ->
  load_line exeDir ("settings", cfg) (k ++ String "=" v)
  = ("settings", set_key exeDir (strings.ToLower k) v cfg).
Proof. intros Hk Hne Hv. now rewrite load_line_key_value. Qed.

Lemma set_key_path (exeDir v : string) (cfg : Config) :
  set_key exeDir "path" v cfg
  = mkConfig (if negb (String.eqb v "0") && negb (String.eqb v "")
              then v else Path cfg)
             (WorkDir cfg) (UpdateSelf cfg) (IgnoreCrlErrors cfg) (Branch cfg)
             (ExeDir cfg) (ConfigFile cfg).
Proof.
  unfold set_key. change (String.eqb "path" "path") with true. cbv iota.
  destruct cfg, (negb (String.eqb v "0") && negb (String.eqb v "")); reflexivity.
Qed.

Lemma set_key_workdir (exeDir v : string) (cfg : Config) :
  set_key exeDir "workdir" v cfg
  = mkConfig (Path cfg)
             (if negb (String.eqb v "")
              then if String.eqb v "." then exeDir else v
              else WorkDir cfg)
             (UpdateSelf cfg) (IgnoreCrlErrors cfg) (Branch cfg)
             (ExeDir cfg) (ConfigFile cfg).
Proof.
  unfold set_key. change (String.eqb "workdir" "path") with false.
  change (String.eqb "workdir" "workdir") with true. cbv iota.
  destruct cfg, (negb (String.eqb v "")); reflexivity.
Qed.

Lemma set_key_branch (exeDir v : string) (cfg : Config) :
  set_key exeDir "branch" v cfg
  = mkConfig (Path cfg) (WorkDir cfg) (UpdateSelf cfg) (IgnoreCrlErrors cfg)
             (if negb (String.eqb v "") then v else Branch cfg)
             (ExeDir cfg) (ConfigFile cfg).
Proof.
  unfold set_key. change (String.eqb "branch" "path") with false.
  change (String.eqb "branch" "workdir") with false.
  change (String.eqb "branch" "updateself") with false.
  change (String.eqb "branch" "ignorecrlerrors") with false.
  change (String.eqb "branch" "branch") with true. cbv iota.
  destruct cfg, (negb (String.eqb v "")); reflexivity.
Qed.

Lemma set_key_updateself (exeDir v : string) (cfg : Config) :
  set_key exeDir "updateself" v cfg
  = mkConfig (Path cfg) (WorkDir cfg) (truthy v) (IgnoreCrlErrors cfg)
             (Branch cfg) (ExeDir cfg) (ConfigFile cfg).
Proof. reflexivity. Qed.

Lemma set_key_ignorecrlerrors (exeDir v : string) (cfg : Config) :
  set_key exeDir "ignorecrlerrors" v cfg
  = mkConfig (Path cfg) (WorkDir cfg) (UpdateSelf cfg) (truthy v)
             (Branch cfg) (ExeDir cfg) (ConfigFile cfg).
Proof. reflexivity. Qed.

Lemma truthy_bit (b : bool) : truthy (if b then "1" else "0") = b.
Proof. now destruct b. Qed.

(** What [Save] writes, [Load] reads back. *)
Lemma load_saved (TempDir : string) (c : Config) :
  ConfigFile c = filepath.Join [ExeDir c; ConfigFileName] ->
  plain_value (Path c) -> Path c <> "0" ->
  plain_value (Branch c) -> Branch c <> "" ->
  WorkDir c = ExeDir c \/ WorkDir c = TempDir
  \/ (plain_value (WorkDir c) /\ WorkDir c <> "" /\ WorkDir c <> ".") ->
  load_content (ExeDir c) (default_config TempDir (ExeDir c))
               (save_content TempDir c)
  = inr c.
Proof.
  intros Hfile HP HP0 HB HB0 HW.
  set (path := if negb (String.eqb (Path c) "") then Path c else "0").
  set (workDir := if String.eqb (WorkDir c) (ExeDir c) then "."
                  else if String.eqb (WorkDir c) TempDir then ""
                  else WorkDir c).
  assert (Hpath : plain_value path).
  { subst path. destruct (String.eqb (Path c) ""); cbn [negb]; [|exact HP].
    apply plain_value_short; [cbn [String.length]; lia | reflexivity | reflexivity]. }
  assert (Hwork : plain_value workDir).
  { subst workDir. destruct (String.eqb (WorkDir c) (ExeDir c)) eqn:E1;
      [apply plain_value_short; [cbn [String.length]; lia | reflexivity | reflexivity]|].
    destruct (String.eqb (WorkDir c) TempDir) eqn:E2;
      [apply plain_value_short; [cbn [String.length]; lia | reflexivity | reflexivity]|].
    apply String.eqb_neq in E1, E2. destruct HW as [HW|[HW|HW]]; tauto. }
  assert (Hbit : forall b : bool, plain_value (if b then "1" else "0")).
  { intros []; (apply plain_value_short;
                 [cbn [String.length]; lia | reflexivity | reflexivity]). }
  assert (Fpath : (if negb (String.eqb path "0") && negb (String.eqb path "")
                   then path else "") = Path c).
  { subst path. destruct (String.eqb (Path c) "") eqn:E; cbn [negb].
    - apply String.eqb_eq in E. now rewrite E.
    - apply String.eqb_neq in HP0. now rewrite HP0, E. }
  assert (Fwork : (if negb (String.eqb workDir "")
                   then if String.eqb workDir "." then ExeDir c else workDir
                   else TempDir) = WorkDir c).
  { subst workDir. destruct (String.eqb (WorkDir c) (ExeDir c)) eqn:E1.
    - apply String.eqb_eq in E1. now rewrite E1.
    - destruct (String.eqb (WorkDir c) TempDir) eqn:E2.
      + apply String.eqb_eq in E2. now rewrite E2.
      + apply String.eqb_neq in E1, E2.
        destruct HW as [HW|[HW|(_ & H1 & H2)]]; try contradiction.
        apply String.eqb_neq in H1, H2. now rewrite H1, H2. }
  assert (Fbranch : (if negb (String.eqb (Branch c) "") then Branch c
                     else DefaultBranch) = Branch c).
  { apply String.eqb_neq in HB0. now rewrite HB0. }
  rewrite load_content_split, save_content_lines. fold path workDir.
  clearbody path workDir.
  rewrite split_byte_Join; [|discriminate|].
  2:{ repeat constructor;
      try (apply one_line_key_value; [reflexivity|]);
      first [apply Hpath | apply Hwork | apply Hbit | apply HB]. }
  cbn [existsb].
  rewrite !too_long_key_value;
    try solve [cbn [String.length]; lia
              | apply Hpath | apply Hwork | apply Hbit | apply HB].
  rewrite !too_long_short by (unfold MaxScanTokenSize; cbn [String.length]; lia).
  cbn [orb fold_left].
  change (load_line (ExeDir c) ("", default_config TempDir (ExeDir c)) "[Settings]")
    with ("settings", default_config TempDir (ExeDir c)).
  rewrite !load_line_setting;
    try solve [reflexivity | discriminate
              | apply Hpath | apply Hwork | apply Hbit | apply HB].
  rewrite load_line_empty. cbn [snd].
  change (strings.ToLower "Path") with "path".
  change (strings.ToLower "WorkDir") with "workdir".
  change (strings.ToLower "UpdateSelf") with "updateself".
  change (strings.ToLower "IgnoreCrlErrors") with "ignorecrlerrors".
  change (strings.ToLower "Branch") with "branch".
  rewrite !set_key_path, !set_key_workdir, !set_key_branch,
    !set_key_updateself, !set_key_ignorecrlerrors.
  cbn [default_config Path WorkDir UpdateSelf IgnoreCrlErrors Branch ExeDir
       ConfigFile].
  rewrite Fpath, Fwork, Fbranch, !truthy_bit, <- Hfile.
  now destruct c.
Qed.

(** ** Lines that [Load] passes over *)

Lemma ToLower_app (a b : string) :
  strings.ToLower (a ++ b) = strings.ToLower a ++ strings.ToLower b.
Proof. induction a as [|c a IH]; simpl; congruence. Qed.

Lemma trim_right_key_prefix (k v : string) :
  letters k = true ->
  exists r, trim_right (k ++ String "=" v) = k ++ String "=" r.
Proof.
  intros Hk. induction k as [|c k IH].
  - exists (trim_right v). cbn [append]. rewrite trim_right_cons.
    now destruct (trim_right v).
  - simpl in Hk. apply andb_true_iff in Hk. destruct Hk as [Hc Hk].
    destruct (IH Hk) as (r & E). exists r.
    cbn [append]. rewrite trim_right_cons, E.
    destruct (k ++ String "=" r) eqn:E2; [|reflexivity].
    destruct k; discriminate E2.
Qed.

Lemma TrimSpace_key_prefix (k v : string) :
  letters k = true -> k <> "" ->
  exists r, strings.TrimSpace (k ++ String "=" v) = k ++ String "=" r.
Proof.
  intros Hk Hne. destruct (trim_right_key_prefix k v Hk) as (r & E).
  exists r. rewrite TrimSpace_trim.
  destruct k as [|c k]; [contradiction|].
  simpl in Hk. apply andb_true_iff in Hk. destruct Hk as [Hc _].
  destruct (letter_facts c Hc) as (Hs & _).
  cbn [append strings.trim_left]. rewrite Hs. exact E.
Qed.

Lemma cut_eq_lower_prefix (lk : string) :
  letters lk = true ->
  forall line,
    strings.HasPrefix (strings.ToLower line) (lk ++ String "=" "") = true ->
    exists k v, cut_eq line = Some (k, v) /\ strings.ToLower k = lk.
Proof.
  induction lk as [|a lk IH]; intros Hk line H.
  - destruct line as [|c t]; [discriminate H|].
    cbn [append strings.ToLower strings.HasPrefix] in H.
    rewrite andb_true_r in H. apply Ascii.eqb_eq in H.
    symmetry in H. apply lower_eq_sign in H. subst c.
    now exists "", t.
  - simpl in Hk. apply andb_true_iff in Hk. destruct Hk as [Ha Hk].
    destruct line as [|c t]; [discriminate H|].
    cbn [append strings.ToLower strings.HasPrefix] in H.
    apply andb_true_iff in H. destruct H as [Hc H].
    apply Ascii.eqb_eq in Hc. subst a.
    destruct (IH Hk t H) as (k & v & E & El).
    exists (String c k), v. simpl. rewrite E, El.
    apply lower_letter in Ha.
    destruct (letter_facts c Ha) as (_ & _ & _ & _ & He & _).
    now rewrite He.
Qed.

Lemma set_key_other (exeDir key value : string) (cfg : Config) :
  ~ In key settings_keys -> set_key exeDir key value cfg = cfg.
Proof.
  intros H. unfold set_key.
  repeat match goal with
         | |- context [String.eqb key ?k] =>
             destruct (String.eqb_spec key k) as [E|_];
             [exfalso; apply H; subst key; cbn; tauto|]
         end.
  reflexivity.
Qed.

(** A line that starts with [key=], whatever the case of the key, leaves
    the loop of [Load] as it was, when the key is a word other than the
    five settings. *)
Lemma load_line_other_key (exeDir key text : string) (st : string * Config) :
  letters key = true -> key <> "" ->
  ~ In (strings.ToLower key) settings_keys ->
  strings.HasPrefix (strings.ToLower (strings.TrimSpace text))
    (strings.ToLower key ++ "=") = true ->
  load_line exeDir st text = st.
Proof.
  intros Hk Hne Hout Hpre. destruct st as [section cfg]. unfold load_line.
  set (line := strings.TrimSpace text) in *.
  pose proof (letters_ToLower key Hk) as Hlk.
  destruct (cut_eq_lower_prefix _ Hlk line Hpre) as (k & v & Ecut & Ek).
  destruct line as [|c t] eqn:El.
  { destruct key; [contradiction | discriminate Hpre]. }
  destruct key as [|a key]; [contradiction|].
  cbn [strings.ToLower append strings.HasPrefix] in Hpre.
  apply andb_true_iff in Hpre. destruct Hpre as [Hc _].
  apply Ascii.eqb_eq in Hc.
  simpl in Hk. apply andb_true_iff in Hk. destruct Hk as [Ha _].
  assert (Hcl : is_letter c = true).
  { apply lower_letter. rewrite <- Hc. now apply letter_facts. }
  destruct (letter_facts c Hcl) as (_ & H1 & H2 & H3 & _).
  cbn [String.eqb strings.HasPrefix orb andb]. rewrite H1, H2, H3.
  cbn [andb orb]. rewrite Ecut, Ek.
  rewrite (TrimSpace_letters _ Hlk), set_key_other by exact Hout.
  now destruct (String.eqb section "settings").
Qed.

Lemma load_line_entry (exeDir key value : string) (st : string * Config) :
  letters key = true -> key <> "" ->
  ~ In (strings.ToLower key) settings_keys ->
  load_line exeDir st (key ++ "=" ++ value) = st.
Proof.
  intros Hk Hne Hout. apply load_line_other_key with (key := key);
    try assumption.
  destruct (TrimSpace_key_prefix key value Hk Hne) as (r & E).
  change (key ++ "=" ++ value) with (key ++ String "=" value).
  rewrite E. apply HasPrefix_iff. exists (strings.ToLower r).
  change (String "=" r) with ("=" ++ r).
  now rewrite !ToLower_app, app_assoc_s.
Qed.

Lemma load_line_section (exeDir : string) (st : string * Config) :
  snd (load_line exeDir st "[Log]") = snd st.
Proof. now destruct st. Qed.

Lemma fold_load_app (exeDir : string) (pre post : list string)
    (st : string * Config) :
  fold_left (load_line exeDir) (pre ++ post)%list st
  = fold_left (load_line exeDir) post (fold_left (load_line exeDir) pre st).
Proof. apply fold_left_app. Qed.

Lemma log_content_lines (content : string) :
  let content' :=
    if negb (strings.Contains content "[Log]")
    then content ++ LF ++ "[Log]" ++ LF else content in
  strings.split_byte newline content' = strings.split_byte newline content
  \/ strings.split_byte newline content'
     = (strings.split_byte newline content ++ ["[Log]"; ""])%list.
Proof.
  cbv zeta. destruct (negb (strings.Contains content "[Log]")); [|now left].
  right. change (content ++ LF ++ "[Log]" ++ LF)
           with (content ++ String newline ("[Log]" ++ LF)).
  now rewrite split_byte_app.
Qed.

(** ** Logging and the settings *)

(** The configuration [Load] reads from a file is the one it reads after
    [LogEntry] has rewritten the file's content. *)
Lemma load_logged (exeDir key value content : string) (cfg c : Config) :
  letters key = true -> key <> "" ->
  ~ In (strings.ToLower key) settings_keys ->
  one_line value = true ->
  String.length key + String.length value + 1 < MaxScanTokenSize ->
  load_content exeDir cfg content = inr c ->
  load_content exeDir cfg (strings.Join (log_lines key value content) LF)
  = inr c.
Proof.
  intros Hk Hne Hout Hv Hlen. rewrite !load_content_split.
  destruct (existsb too_long (strings.split_byte newline content)) eqn:Hlong;
    [discriminate|].
  intros Hc. injection Hc as Hc.
  destruct (log_lines_one_change key value content)
    as (pre & post & Elog & Hlines).
  cbv zeta in Hlines.
  pose proof (log_content_lines content) as Hcontent. cbv zeta in Hcontent.
  set (lines := strings.split_byte newline
                  (if negb (strings.Contains content "[Log]")
                   then content ++ LF ++ "[Log]" ++ LF else content)) in *.
  pose proof (split_byte_pieces
                (if negb (strings.Contains content "[Log]")
                 then content ++ LF ++ "[Log]" ++ LF else content)) as Hone.
  fold lines in Hone.
  assert (Hshort : too_long (key ++ "=" ++ value) = false).
  { apply too_long_short. rewrite !length_app. cbn [String.length]. lia. }
  assert (Hlong' : existsb too_long lines = false).
  { destruct Hcontent as [E|E]; rewrite E; [exact Hlong|].
    rewrite existsb_app, Hlong. cbn [existsb].
    now rewrite !too_long_short
      by (unfold MaxScanTokenSize; cbn [String.length]; lia). }
  assert (Hfold : snd (fold_left (load_line exeDir) lines ("", cfg)) = c).
  { destruct Hcontent as [E|E]; rewrite E; [exact Hc|].
    rewrite fold_load_app. cbn [fold_left].
    now rewrite load_line_empty, load_line_section. }
  assert (Hkv : forall st, load_line exeDir st (key ++ "=" ++ value) = st).
  { intros st. now apply load_line_entry. }
  assert (Hparts : Forall (fun p => one_line p = true) pre
                   /\ Forall (fun p => one_line p = true) post
                   /\ existsb too_long pre = false
                   /\ existsb too_long post = false
                   /\ snd (fold_left (load_line exeDir)
                             (pre ++ (key ++ "=" ++ value)%string :: post)%list
                             ("", cfg)) = c).
  { destruct Hlines as [E | (old & E & Hold & _)]; rewrite E in *.
    - apply Forall_app in Hone. destruct Hone as [H1 H2].
      rewrite existsb_app in Hlong'. apply orb_false_iff in Hlong'.
      destruct Hlong' as [H3 H4]. repeat split; try assumption.
      rewrite fold_load_app in *. cbn [fold_left]. now rewrite Hkv.
    - apply Forall_app in Hone. destruct Hone as [H1 H2].
      inversion H2 as [|? ? _ H2']; subst.
      rewrite existsb_app in Hlong'. apply orb_false_iff in Hlong'.
      destruct Hlong' as [H3 H4]. cbn [existsb] in H4.
      apply orb_false_iff in H4. destruct H4 as [_ H4].
      repeat split; try assumption.
      rewrite fold_load_app in *. cbn [fold_left] in *. rewrite Hkv.
      rewrite (load_line_other_key exeDir key old) in Hfold; assumption. }
  destruct Hparts as (H1 & H2 & H3 & H4 & H5).
  rewrite Elog, split_byte_Join.
  - rewrite existsb_app. cbn [existsb]. rewrite H3, H4, Hshort. cbn [orb].
    now rewrite H5.
  - destruct pre; discriminate.
  - apply Forall_app. split; [exact H1|]. constructor; [|exact H2].
    now apply (one_line_key_value key value).
Qed.

(** ** [Load], [Save] and [LogEntry] on the file *)

Lemma syscall_quiet {A : Type} (env : Env) (c : call)
    (sem : nat -> FS -> (error + A) * FS) (w : World) :
  (forall n k, fault env n k = None) ->
  syscall env c sem w
  = (fst (sem (clock w) (fs w)),
     mkWorld (snd (sem (clock w) (fs w))) (S (clock w))
             (EvCall c (is_ok (fst (sem (clock w) (fs w)))) :: trace w)).
Proof.
  intros Hq. destruct (syscall_cases env c sem w) as [(e & Hf & _) | (_ & E)];
    [|exact E].
  rewrite Hq in Hf. discriminate.
Qed.

Lemma Save_quiet (env : Env) (TempDir : string) (c : Config) (w : World) :
  (forall n k, fault env n k = None) ->
  fst (Save env TempDir c w) = None
  /\ fs (snd (Save env TempDir c w))
     = fs_set (ConfigFile c) (Some (File (save_content TempDir c))) (fs w).
Proof.
  intros Hq. unfold Save, os_WriteFile. rewrite bind_run, syscall_quiet by exact Hq.
  now split.
Qed.

Lemma Load_existing (env : Env) (TempDir exeDir data : string) (w : World) :
  (forall n k, fault env n k = None) ->
  fs w (filepath.Join [exeDir; ConfigFileName]) = Some (File data) ->
  fst (Load env TempDir exeDir w)
  = match load_content exeDir (default_config TempDir exeDir) data with
    | inl e => inl (Wrap "failed to read config file" e)
    | inr c => inr c
    end.
Proof.
  intros Hq Hfile. unfold Load. cbv zeta.
  change (ConfigFile (default_config TempDir exeDir))
    with (filepath.Join [exeDir; ConfigFileName]).
  set (path := filepath.Join [exeDir; ConfigFileName]) in *.
  unfold os_Stat, open_node, read_node.
  rewrite bind_run, syscall_quiet by exact Hq.
  rewrite Hfile. cbn [fst snd os_IsNotExist].
  rewrite bind_run, syscall_quiet by exact Hq.
  cbn [fst snd fs clock]. rewrite Hfile. cbn [fst snd].
  rewrite bind_run, syscall_quiet by exact Hq.
  cbn [fst snd].
  now destruct (load_content exeDir (default_config TempDir exeDir) data).
Qed.

Lemma Load_directory (env : Env) (TempDir exeDir : string) (w : World) :
  (forall n k, fault env n k = None) ->
  fs w (filepath.Join [exeDir; ConfigFileName]) = Some Directory ->
  fst (Load env TempDir exeDir w)
  = inl (Wrap "failed to read config file" EISDIR).
Proof.
  intros Hq Hfile. unfold Load. cbv zeta.
  change (ConfigFile (default_config TempDir exeDir))
    with (filepath.Join [exeDir; ConfigFileName]).
  set (path := filepath.Join [exeDir; ConfigFileName]) in *.
  unfold os_Stat, open_node, read_node.
  rewrite bind_run, syscall_quiet by exact Hq.
  rewrite Hfile. cbn [fst snd os_IsNotExist].
  rewrite bind_run, syscall_quiet by exact Hq.
  cbn [fst snd fs clock]. rewrite Hfile. cbn [fst snd].
  rewrite bind_run, syscall_quiet by exact Hq.
  reflexivity.
Qed.

Lemma Load_missing (env : Env) (TempDir exeDir : string) (w : World) :
  (forall n k, fault env n k = None) ->
  fs w (filepath.Join [exeDir; ConfigFileName]) = None ->
  fst (Load env TempDir exeDir w) = inr (default_config TempDir exeDir)
  /\ fs (snd (Load env TempDir exeDir w))
     = fs_set (filepath.Join [exeDir; ConfigFileName])
              (Some (File (save_content TempDir (default_config TempDir exeDir))))
              (fs w).
Proof.
  intros Hq Hfile. unfold Load. cbv zeta.
  change (ConfigFile (default_config TempDir exeDir))
    with (filepath.Join [exeDir; ConfigFileName]).
  set (path := filepath.Join [exeDir; ConfigFileName]) in *.
  unfold os_Stat.
  rewrite bind_run, syscall_quiet by exact Hq.
  rewrite Hfile. cbn [fst snd os_IsNotExist ErrNotExist].
  rewrite bind_run.
  match goal with
  | |- context [Save env TempDir ?c ?w1] =>
      destruct (Save_quiet env TempDir c w1 Hq) as [E1 E2]
  end.
  rewrite E1. cbn [ret fst snd]. rewrite E2. now split.
Qed.

Lemma default_config_loads (TempDir exeDir : string) :
  load_content exeDir (default_config TempDir exeDir)
    (save_content TempDir (default_config TempDir exeDir))
  = inr (default_config TempDir exeDir).
Proof.
  apply (load_saved TempDir (default_config TempDir exeDir)).
  - reflexivity.
  - apply plain_value_short; [cbn; lia | reflexivity | reflexivity].
  - discriminate.
  - apply plain_value_short; [cbn; lia | reflexivity | reflexivity].
  - discriminate.
  - right. now left.
Qed.

Lemma LogEntry_quiet (env : Env) (c : Config) (key value : string) (w : World) :
  (forall n k, fault env n k = None) ->
  fs (snd (LogEntry env c key value w))
  = fs_set (ConfigFile c)
      (Some (File (strings.Join
                     (log_lines key value
                        match fs w (ConfigFile c) with
                        | Some (File data) => data
                        | _ => ""
                        end) LF)))
      (fs w).
Proof.
  intros Hq. unfold LogEntry, os_ReadFile, os_WriteFile.
  rewrite bind_run, syscall_quiet by exact Hq.
  rewrite bind_run, syscall_quiet by exact Hq.
  cbn [fst snd fs ret].
  now destruct (fs w (ConfigFile c)) as [[data|]|].
Qed.



(** X18. In a directory without a configuration file, when no call fails,
    [Load] returns the defaults (no path, the temporary directory as the
    working directory, self-update on, the nightly branch), writes them to
    the configuration file of that directory and changes no other file;
    and a second [Load] reads the same defaults back from that file. *)
Theorem Load_creates_defaults (env : Env) (TempDir exeDir : string) (w : World) :
  (forall n k, fault env n k = None) ->
  fs w (filepath.Join [exeDir; ConfigFileName]) = None ->
  let cfg := mkConfig "" TempDir true false "nightly" exeDir
                      (filepath.Join [exeDir; ConfigFileName]) in
  let w' := snd (Load env TempDir exeDir w) in
  fst (Load env TempDir exeDir w) = inr cfg
  /\ fs w' (ConfigFile cfg) = Some (File (save_content TempDir cfg))
  /\ (forall q, q <> ConfigFile cfg -> fs w' q = fs w q)
  /\ fst (Load env TempDir exeDir w') = inr cfg.
Proof.
  intros Hq Hfile cfg w'. subst w'.
  change cfg with (default_config TempDir exeDir).
  change (ConfigFile (default_config TempDir exeDir))
    with (filepath.Join [exeDir; ConfigFileName]).
  destruct (Load_missing env TempDir exeDir w Hq Hfile) as [E1 E2].
  split; [exact E1|]. rewrite E2. split; [apply fs_set_same|].
  split; [intros q Hne; now apply fs_set_other|].
  rewrite (Load_existing env TempDir exeDir
             (save_content TempDir (default_config TempDir exeDir)));
    [now rewrite default_config_loads | exact Hq |].
  rewrite E2. apply fs_set_same.
Qed.

Lemma Load_creates_defaults_witness :
  fst (Load quiet_env "/tmp" "/opt/updater" empty_world)
  = inr (mkConfig "" "/tmp" true false "nightly" "/opt/updater"
                  (filepath.Join ["/opt/updater"; ConfigFileName])).
Proof.
  exact (proj1 (Load_creates_defaults quiet_env "/tmp" "/opt/updater" empty_world
                  (fun _ _ => eq_refl) eq_refl)).
Defined.

(** X19. Logging does not change the settings.  When no call fails and
    [Load] returns a configuration, it returns the same one after
    [LogEntry] has written an entry to the configuration file of that
    directory, provided that the key is a word of letters other than the
    five settings' names in any case, and the value has no line feed and
    fits the scanner's buffer with the key. *)
Theorem LogEntry_keeps_settings (env : Env) (TempDir exeDir key value : string)
    (cf c : Config) (w : World) :
  (forall n k, fault env n k = None) ->
  ConfigFile cf = filepath.Join [exeDir; ConfigFileName] ->
  letters key = true -> key <> "" ->
  ~ In (strings.ToLower key) settings_keys ->
  one_line value = true ->
  String.length key + String.length value + 1 < MaxScanTokenSize ->
  fst (Load env TempDir exeDir w) = inr c ->
  fst (Load env TempDir exeDir (snd (LogEntry env cf key value w))) = inr c.
Proof.
  intros Hq Hfile Hk Hne Hout Hv Hlen Hload.
  pose proof (LogEntry_quiet env cf key value w Hq) as Hfs.
  rewrite Hfile in Hfs.
  set (path := filepath.Join [exeDir; ConfigFileName]) in *.
  match type of Hfs with
  | _ = fs_set _ (Some (File ?d)) _ =>
      rewrite (Load_existing env TempDir exeDir d);
        [|exact Hq | fold path; rewrite Hfs; apply fs_set_same]
  end.
  destruct (fs w path) as [[data|]|] eqn:Hw.
  - rewrite (Load_existing env TempDir exeDir data) in Hload
      by assumption.
    destruct (load_content exeDir (default_config TempDir exeDir) data)
      as [e|c'] eqn:E; [discriminate|].
    injection Hload as ->.
    now rewrite (load_logged exeDir key value data _ c).
  - rewrite (Load_directory env TempDir exeDir w) in Hload by assumption.
    discriminate.
  - destruct (Load_missing env TempDir exeDir w Hq Hw) as [E1 _].
    rewrite E1 in Hload. injection Hload as <-.
    now rewrite (load_logged exeDir key value "" _ (default_config TempDir exeDir)).
Qed.

Lemma LogEntry_keeps_settings_witness :
  fst (Load quiet_env "/tmp" "/opt/updater"
         (snd (LogEntry quiet_env sample_cfg "LastResult" "No new version found"
                 configured_world)))
  = inr (mkConfig "" "/tmp" false false "beta" "/opt/updater"
                  "/opt/updater/Noraneko-WinUpdater.ini").
Proof.
  apply (LogEntry_keeps_settings quiet_env "/tmp" "/opt/updater" "LastResult"
           "No new version found" sample_cfg).
  - reflexivity.
  - reflexivity.
  - reflexivity.
  - discriminate.
  - cbn. intuition discriminate.
  - reflexivity.
  - unfold MaxScanTokenSize. cbn [String.length]. lia.
  - reflexivity.
Defined.

(** ** Where an update goes when no browser is found *)

Lemma Dir_not_empty (path : string) : filepath.Dir path <> "".
Proof.
  unfold filepath.Dir, filepath.Clean.
  destruct (strings.HasPrefix _ filepath.sep); [discriminate|].
  destruct (String.eqb_spec (strings.Join
              (filepath.clean_elems false []
                 (strings.split_byte filepath.Separator
                    (strings.rev (filepath.drop_last_elem_rev (strings.rev path)))))
              filepath.sep) "") as [E|E]; [discriminate | exact E].
Qed.

Lemma GetBrowserPath_none (env : Env) (c : Config) (w : World) :
  Path c = "" ->
  fs w (filepath.Join [ExeDir c; BrowserName; BrowserExe]) = None ->
  fs w (filepath.Join
          [if String.eqb (getenv env "ProgramFiles") "" then "C:\Program Files"
           else getenv env "ProgramFiles"; BrowserName; BrowserExe]) = None ->
  fst (GetBrowserPath env c w) = "".
Proof.
  intros HP H1 H2.
  destruct (GetBrowserPath_found env c w) as (_ & H). cbv zeta in H.
  rewrite HP in H. cbn [String.eqb] in H.
  destruct H as [H | [[H|H] Hex]]; [exact H | |];
    rewrite H in Hex; contradiction.
Qed.

Lemma emits_at_bind {A B : Type} (Q : event -> Prop) (m : M A) (k : A -> M B)
    (w : World) :
  (exists evs, trace (snd (m w)) = (evs ++ trace w)%list /\ Forall Q evs) ->
  (exists evs,
     trace (snd (k (fst (m w)) (snd (m w)))) = (evs ++ trace (snd (m w)))%list
     /\ Forall Q evs) ->
  exists evs, trace (snd (bind m k w)) = (evs ++ trace w)%list /\ Forall Q evs.
Proof.
  intros (evs1 & E1 & F1) (evs2 & E2 & F2). rewrite bind_run.
  exists (evs2 ++ evs1)%list. split.
  - now rewrite E2, E1, app_assoc.
  - apply Forall_app. now split.
Qed.

(** One step through a computation none of whose calls is a copy of a
    directory or a child process. *)
Ltac dot_step :=
  match goal with
  | |- emits _ (bind _ _) => apply emits_bind; [| intros ?]
  | |- emits _ (defer _ _) => apply emits_defer
  | |- emits _ (ret _) => apply emits_ret
  | |- emits _ (Println _) => apply emits_emit; exact I
  | |- emits _ (syscall _ _ _) => apply emits_syscall; intros; exact I
  | |- emits _ (match ?x with _ => _ end) => destruct x
  end.

Ltac dot_walk :=
  unfold os_Stat, os_ReadFile, os_Create, os_OpenFile, os_Open, io_Copy,
    io_Read, os_Remove, os_RemoveAll, os_MkdirAll, os_ReadDir,
    zip_OpenReader, zip_Open;
  repeat dot_step.

Section NoBrowser.

Variable env : Env.

Lemma dot_first_existing paths : emits (targets ".") (first_existing env paths).
Proof.
  induction paths as [|p rest IH]; cbn [first_existing]; dot_walk; exact IH.
Qed.

Lemma dot_GetBrowserPath c : emits (targets ".") (GetBrowserPath env c).
Proof. unfold GetBrowserPath. dot_walk. apply dot_first_existing. Qed.

Lemma dot_unzip_files dest files : emits (targets ".") (unzip_files env dest files).
Proof.
  induction files as [|f rest IH]; cbn [unzip_files]; dot_walk; exact IH.
Qed.

(** [extractPortable] after [GetBrowserPath] has returned the empty
    string. *)
Lemma dot_extract_rest u zipPath :
  emits (targets ".") (
    let browserDir := filepath.Dir "" in
    let browserDir :=
      if String.eqb browserDir ""
      then filepath.Join [ExeDir (cfg u); BrowserName] else browserDir in
    let extractDir := extract_dir (cfg u) in
    r <- os_RemoveAll env extractDir ;;
    match r with
    | inl e => ret (Some (Wrap "failed to clean extract directory" e))
    | inr _ =>
        m <- os_MkdirAll env extractDir ;;
        match m with
        | inl e => ret (Some (Wrap "failed to create extract directory" e))
        | inr _ =>
            defer (os_RemoveAll env extractDir) (
              z <- unzip env zipPath extractDir ;;
              match z with
              | Some e => ret (Some (Wrap "extraction failed" e))
              | None =>
                  d <- os_ReadDir env extractDir ;;
                  match d with
                  | inl e => ret (Some e)
                  | inr entries =>
                      let sourceDir := source_dir extractDir entries in
                      c <- copyDir env sourceDir browserDir ;;
                      match c with
                      | Some e => ret (Some (Wrap "failed to copy files" e))
                      | None => ret None
                      end
                  end
              end)
        end
    end).
Proof.
  change (filepath.Dir "") with ".". cbn [String.eqb Ascii.eqb Bool.eqb].
  cbv zeta. unfold unzip, copyDir. dot_walk;
    try apply dot_unzip_files;
    try (apply emits_syscall; intros; reflexivity).
Qed.

(** [runInstaller] after [GetBrowserPath] has returned the empty string. *)
Lemma dot_install_rest setupPath :
  emits (targets ".") (
    let browserDir := filepath.Dir "" in
    let browserDir :=
      if String.eqb browserDir ""
      then filepath.Join [getenv env "ProgramFiles"; BrowserName]
      else browserDir in
    r <- exec_Run env setupPath ["/S"; "/D=" ++ browserDir] ;;
    match r with
    | inl _ =>
        Println "Silent installation failed, running interactive installer..." ;;;
        r2 <- exec_Run env setupPath ["/D=" ++ browserDir] ;;
        ret (err_of r2)
    | inr _ => ret None
    end).
Proof.
  change (filepath.Dir "") with ".". cbn [String.eqb Ascii.eqb Bool.eqb].
  cbv zeta. unfold exec_Run.
  apply emits_bind; [apply emits_syscall; intros; right; now left|].
  intros [e|]; [|apply emits_ret].
  apply emits_bind; [apply emits_emit; exact I|]. intros _.
  apply emits_bind; [apply emits_syscall; intros; now left|]. intros r2.
  apply emits_ret.
Qed.

Lemma dot_stage (fn : string) (k : string -> M (option error)) (c : Config)
    (w : World) :
  fst (GetBrowserPath env c (snd (emit (EvEnter fn) w))) = "" ->
  emits (targets ".") (k "") ->
  exists evs,
    trace (snd (stage fn (bind (GetBrowserPath env c) k) w))
    = (evs ++ trace w)%list
    /\ Forall (targets ".") evs.
Proof.
  intros Hnone Hk. unfold stage.
  apply emits_at_bind; [apply emits_emit; exact I|].
  apply emits_at_bind.
  - apply emits_at_bind; [apply dot_GetBrowserPath|].
    rewrite Hnone. apply Hk.
  - apply emits_bind; [apply emits_emit; exact I|]. intros _. apply emits_ret.
Qed.

End NoBrowser.

(** X20. When no path is configured and neither candidate executable is
    on the disk, the directory an update goes to is the current directory:
    every copy [extractPortable] makes is into [.], and every run of the
    installer by [runInstaller] is given [/D=.].  (The directory of the
    empty path is [.], never empty, so the fall-back directories of the two
    functions are never used.) *)
Theorem no_browser_means_current_directory (env : Env) (u : Updater)
    (zipPath setupPath : string) (w : World) :
  Path (cfg u) = "" ->
  fs w (filepath.Join [ExeDir (cfg u); BrowserName; BrowserExe]) = None ->
  fs w (filepath.Join
          [if String.eqb (getenv env "ProgramFiles") "" then "C:\Program Files"
           else getenv env "ProgramFiles"; BrowserName; BrowserExe]) = None ->
  (exists evs,
     trace (snd (extractPortable env u zipPath w)) = (evs ++ trace w)%list
     /\ Forall (targets ".") evs)
  /\ (exists evs,
        trace (snd (runInstaller env u setupPath w)) = (evs ++ trace w)%list
        /\ Forall (targets ".") evs)
  /\ forall path, filepath.Dir path <> "".
Proof.
  intros HP H1 H2.
  assert (Hnone : forall fn,
             fst (GetBrowserPath env (cfg u) (snd (emit (EvEnter fn) w))) = "").
  { intros fn. now apply GetBrowserPath_none. }
  split; [|split; [|apply Dir_not_empty]].
  - unfold extractPortable. apply dot_stage; [apply Hnone|].
    apply dot_extract_rest.
  - unfold runInstaller. apply dot_stage; [apply Hnone|].
    apply dot_install_rest.
Qed.

Lemma no_browser_means_current_directory_witness :
  exists evs,
    trace (snd (runInstaller quiet_env bare_updater "/tmp/setup.exe" empty_world))
    = (evs ++ trace empty_world)%list
    /\ Forall (targets ".") evs.
Proof.
  exact (proj1 (proj2 (no_browser_means_current_directory quiet_env bare_updater
                         "/tmp/app.zip" "/tmp/setup.exe" empty_world
                         eq_refl eq_refl eq_refl))).
Defined.

(** ** The command line *)

Lemma set_key_ExeDir (exeDir key value : string) (cfg : Config) :
  ExeDir (set_key exeDir key value cfg) = ExeDir cfg
  /\ ConfigFile (set_key exeDir key value cfg) = ConfigFile cfg.
Proof.
  unfold set_key.
  repeat match goal with
         | |- context [if ?b then _ else _] => destruct b
         end; now split.
Qed.

Lemma load_line_ExeDir (exeDir text : string) (st : string * Config) :
  ExeDir (snd (load_line exeDir st text)) = ExeDir (snd st)
  /\ ConfigFile (snd (load_line exeDir st text)) = ConfigFile (snd st).
Proof.
  destruct st as [section cfg]. unfold load_line.
  repeat match goal with
         | |- context [if ?b then _ else _] => destruct b
         | |- context [match cut_eq ?l with _ => _ end] =>
             destruct (cut_eq l) as [[k v]|]
         end; cbn [snd]; try (now split); apply set_key_ExeDir.
Qed.

Lemma fold_load_ExeDir (exeDir : string) (ls : list string) :
  forall st,
    ExeDir (snd (fold_left (load_line exeDir) ls st)) = ExeDir (snd st)
    /\ ConfigFile (snd (fold_left (load_line exeDir) ls st)) = ConfigFile (snd st).
Proof.
  induction ls as [|l ls IH]; intros st; [now split|].
  cbn [fold_left]. destruct (IH (load_line exeDir st l)) as [E1 E2].
  destruct (load_line_ExeDir exeDir l st) as [E3 E4].
  split; congruence.
Qed.

(** Whatever the file holds, the configuration [Load] returns is the one of
    the directory it was asked for. *)
Lemma Load_ExeDir (env : Env) (TempDir exeDir : string) (w : World) (c : Config) :
  fst (Load env TempDir exeDir w) = inr c ->
  ExeDir c = exeDir
  /\ ConfigFile c = filepath.Join [exeDir; ConfigFileName].
Proof.
  unfold Load. cbv zeta. rewrite bind_run.
  destruct (os_IsNotExist _).
  - rewrite bind_run. destruct (fst (Save _ _ _ _)); cbn [ret fst];
      [discriminate|].
    intros H. injection H as <-. now split.
  - rewrite bind_run. destruct (fst (open_node _ _ _)) as [e|n];
      cbn [ret fst]; [discriminate|].
    rewrite bind_run. destruct (fst (read_node _ _ _ _)) as [e|data];
      cbn [ret fst]; [discriminate|].
    destruct (load_content exeDir (default_config TempDir exeDir) data)
      as [e|c'] eqn:E; cbn [ret fst]; [discriminate|].
    intros H. injection H as <-.
    unfold load_content in E. destruct (existsb _ _); [discriminate|].
    injection E as <-. apply fold_load_ExeDir.
Qed.

Lemma task_Load (env : Env) (TempDir exeDir : string) :
  emits (only_calls (task_call exeDir)) (Load env TempDir exeDir).
Proof.
  unfold Load, Save, open_node, read_node. cbv zeta.
  apply emits_bind; [apply oc_Stat; now left|]. intros st.
  destruct (os_IsNotExist st).
  - apply emits_bind.
    + apply emits_bind; [apply oc_WriteFile; reflexivity|].
      intros r. apply emits_ret.
    + intros [e|]; apply emits_ret.
  - apply emits_bind; [apply emits_syscall; intros; reflexivity|].
    intros [e|n]; [apply emits_ret|].
    apply emits_bind; [apply emits_syscall; intros; reflexivity|].
    intros [e|data]; [apply emits_ret|].
    destruct (load_content _ _ _); apply emits_ret.
Qed.

Lemma task_HandleScheduledTask (env : Env) (c : Config) (o : Options) :
  emits (only_calls (task_call (ExeDir c))) (HandleScheduledTask env c o).
Proof.
  unfold HandleScheduledTask, task_script.
  destruct (CreateTask o); [|destruct (RemoveTask o); [|apply emits_ret]].
  - apply emits_bind; [apply oc_Stat; right; now left|]. intros st.
    destruct (os_IsNotExist st); [apply emits_ret|].
    apply emits_bind; [apply oc_exec_Run; reflexivity|].
    intros r. apply emits_ret.
  - apply emits_bind; [apply oc_Stat; right; now right|]. intros st.
    destruct (os_IsNotExist st); [apply emits_ret|].
    apply emits_bind; [apply oc_exec_Run; reflexivity|].
    intros r. apply emits_ret.
Qed.

(** X21. With [-version], [main] prints the version line and exits with
    status 0 whatever else is on the command line.  Without it, a run with
    [-create-task] or [-remove-task] never starts the updater: its calls
    are on the configuration file of the executable's directory ([os.Stat],
    [os.WriteFile], [os.Open] and the reading of it) and on the two task
    scripts there ([os.Stat]), and the start of PowerShell; no request goes
    out and no other file is touched. *)
Theorem task_flags_skip_the_update (env : Env) (TempDir : string)
    (flags : Flags) (exe : error + string) (w : World) :
  (version flags = true ->
   main env TempDir flags exe w
   = ((0, None),
      mkWorld (fs w) (clock w)
              (EvPrint "Noraneko WinUpdater v1.0.0" :: trace w)))
  /\ (version flags = false ->
      createTask flags || removeTask flags = true ->
      forall exePath, exe = inr exePath ->
      exists evs,
        trace (snd (main env TempDir flags exe w)) = (evs ++ trace w)%list
        /\ Forall (only_calls (task_call (filepath.Dir exePath))) evs).
Proof.
  split.
  - intros Hv. unfold main. now rewrite Hv.
  - intros Hv Ht exePath ->. revert w.
    change (emits (only_calls (task_call (filepath.Dir exePath)))
                  (main env TempDir flags (inr exePath))).
    unfold main. rewrite Hv, Ht.
    apply emits_bind_result; [apply task_Load|]. intros w.
    destruct (fst (Load env TempDir (filepath.Dir exePath) w)) as [e|cfg] eqn:E;
      [apply emits_ret|].
    destruct (Load_ExeDir env TempDir _ w cfg E) as [Hdir _].
    apply emits_bind.
    + rewrite <- Hdir. apply task_HandleScheduledTask.
    + intros [e|]; apply emits_ret.
Qed.

Lemma task_flags_skip_the_update_witness :
  exists evs,
    trace (snd (main quiet_env "/tmp" create_task_flags
                  (inr "/opt/updater/updater.exe") empty_world))
    = (evs ++ trace empty_world)%list
    /\ Forall (only_calls (task_call (filepath.Dir "/opt/updater/updater.exe"))) evs.
Proof.
  exact (proj2 (task_flags_skip_the_update quiet_env "/tmp" create_task_flags
                  (inr "/opt/updater/updater.exe") empty_world)
               eq_refl eq_refl "/opt/updater/updater.exe" eq_refl).
Defined.

(** ** The installed version *)







(** ** From the manifest to the installed bytes *)



(** ** Nothing is fetched before a newer version is announced *)

Lemma announced_older (c : Config) (o : Options) (evs old : list event) :
  announced c o evs -> Forall (probe_event c) old ->
  announced c o (evs ++ old)%list.
Proof.
  intros [F | (later & cur & new & pre & -> & Fpre & Hn & Hco)] Fold.
  - left. apply Forall_app. now split.
  - right. exists later, cur, new, (pre ++ old)%list.
    split; [now rewrite <- app_assoc|].
    split; [apply Forall_app; now split | now split].
Qed.

Lemma announced_bind {A : Type} (c : Config) (o : Options) (m : M A)
    (k : A -> M (option error)) :
  emits (probe_event c) m ->
  (forall a, follows (fun _ => announced c o) (k a)) ->
  follows (fun _ => announced c o) (bind m k).
Proof.
  intros Hm Hk w. rewrite bind_run.
  destruct (Hm w) as (old & Eold & Fold).
  destruct (Hk (fst (m w)) (snd (m w))) as (evs & E & HP).
  exists (evs ++ old)%list. split.
  - rewrite E, Eold. now rewrite app_assoc.
  - now apply announced_older.
Qed.

Lemma announced_looks (c : Config) (o : Options) (m : M (option error)) :
  emits (probe_event c) m -> follows (fun _ => announced c o) m.
Proof.
  intros Hm w. destruct (Hm w) as (evs & E & F).
  exists evs. split; [exact E | now left].
Qed.

(** X24. [Run] goes beyond looking only after it has announced a newer
    version.  The events of a run either are those of a run that only
    looks (printed lines, the two GETs of the API, [os.Stat], [os.ReadFile]
    and the outcome log), or everything else in it, every download,
    extraction, removal and child process, comes after the line "New
    version available: cur -> new" for two versions that [isNewerVersion]
    tells apart, and the run is not check-only. *)
Theorem Run_fetches_only_after_announcing (env : Env) (c : Config) (o : Options)
    (w : World) :
  exists evs,
    trace (snd (Run env c o w)) = (evs ++ trace w)%list
    /\ announced c o evs.
Proof.
  revert w. change (follows (fun _ => announced c o) (Run env c o)).
  unfold Run.
  apply announced_bind; [apply probe_Println|]. intros _.
  apply announced_bind; [apply probe_Println|]. intros _.
  apply announced_bind.
  { apply probe_calls. unfold checkConnection.
    apply emits_bind; [apply oc_http_Get; now left|].
    intros [e|[status body]]; [apply emits_ret|].
    destruct (400 <=? status)%nat; apply emits_ret. }
  intros [e|]; [apply announced_looks, emits_ret|].
  apply announced_bind.
  { apply probe_calls, oc_getCurrentVersion; intros p; exact I. }
  intros cur. apply announced_bind.
  { destruct cur; [apply probe_Println | apply emits_ret]. }
  intros _. apply announced_bind; [apply probe_Println|]. intros _.
  apply announced_bind.
  { apply probe_calls. unfold getLatestRelease.
    apply emits_bind; [apply oc_http_Get; now right|].
    intros [e|[status body]]; [apply emits_ret|].
    destruct (negb (status =? 200)%nat); [apply emits_ret|].
    destruct (json_release env body); apply emits_ret. }
  intros [e|r]; [apply announced_looks, emits_ret|].
  apply announced_bind; [apply probe_Println|]. intros _.
  destruct (isNewerVersion _ _) eqn:Hnew; cbn [negb].
  - destruct (CheckOnly o) eqn:Hco.
    + apply announced_looks.
      apply emits_bind; [apply probe_Println|]. intros _.
      apply emits_bind; [apply probe_Println|]. intros _. apply emits_ret.
    + intros w. rewrite bind_run. cbn [Println emit fst snd].
      match goal with
      | |- context [bind (downloadAndInstall env ?u) ?k ?w1] =>
          assert (Hrest : exists later,
                    trace (snd (bind (downloadAndInstall env u) k w1))
                    = (later ++ trace w1)%list)
      end.
      { rewrite bind_run.
        match goal with
        | |- context [downloadAndInstall env ?u ?w1] =>
            destruct (emits_downloadAndInstall env u w1) as (ev1 & E1 & _);
            destruct (fst (downloadAndInstall env u w1)) as [e|]
        end.
        - exists ev1. exact E1.
        - rewrite bind_run. cbn [Println emit fst snd]. rewrite bind_run.
          match goal with
          | |- context [logResult env ?u ?res ?w2] =>
              destruct (logResult_shape env u res w2) as (logged & E2 & _)
          end.
          cbn [ret snd]. rewrite E2. cbn [trace]. rewrite E1.
          exists (logged ++ EvPrint "Update completed successfully!" :: ev1)%list.
          now rewrite <- app_assoc. }
      destruct Hrest as (later & E). rewrite E. cbn [trace].
      match goal with
      | |- context [EvPrint ?line :: trace w] =>
          exists (later ++ [EvPrint line])%list
      end.
      split; [now rewrite <- app_assoc|].
      right.
      exists later, (match cur with inl _ => "0.0.0" | inr v => v end),
        (strings.TrimPrefix (TagName r) "v"), [].
      split; [reflexivity|].
      split; [constructor|]. split; [exact Hnew | exact Hco].
  - apply announced_looks.
    apply emits_bind; [apply probe_Println|]. intros _.
    apply emits_bind; [apply probe_logResult|]. intros _. apply emits_ret.
Qed.
